(** * The threshold/delay grid search and the optimal-binary generator

    A shallow embedding of [exceptions/grid-search.py] and
    [exceptions/create-optimal-binaries.py].

    - Python [str] values are [string]s; a character is a code point below
      256, so the two line separators U+2028 and U+2029 lie outside the model.
    - Python [float] is not modelled bit by bit: the development is
      parametric in a class [PyFloat] giving [float()], [>] and the [.1f]
      format; an instance on exact decimals is used to run examples.
    - Exceptions are an explicit result type; the file system and the external
      commands ([make], [g++], the simulator) are explicit state. *)

From Stdlib Require Import ZArith Ascii String List Sorted Lia.
From stdpp Require Import base option list gmap strings pretty.

Local Open Scope Z_scope.

(** ** Exceptions *)

Inductive exn : Type :=
| CalledProcessError   (* a checked command exited with a nonzero status *)
| OSError              (* a command could not be launched, a file not opened *)
| AttributeError       (* [.group] on the [None] of a failed [re.search] *)
| ValueError           (* [float()], [int()] or [list.index] *)
| IndexError
| KeyError.

Inductive result (A : Type) : Type :=
| Ok (a : A)
| Raise (e : exn).
Arguments Ok {A} a.
Arguments Raise {A} e.

#[global] Instance exn_eq_dec : EqDecision exn.
Proof. solve_decision. Defined.

#[global] Instance result_ret : MRet result := @Ok.
#[global] Instance result_bind : MBind result := λ A B f m,
  match m with
  | Ok a => f a
  | Raise e => Raise e
  end.

Definition or_raise {A} (e : exn) (o : option A) : result A :=
  match o with
  | Some a => Ok a
  | None => Raise e
  end.

(** ** Python strings *)

Module Str.

Definition eqb_char (a b : ascii) : bool := Ascii.eqb a b.

(** [s.startswith(p)] *)
Fixpoint starts_with (p s : string) : bool :=
  match p, s with
  | EmptyString, _ => true
  | String a p', String b s' => eqb_char a b && starts_with p' s'
  | String _ _, EmptyString => false
  end.

(** [needle in hay] *)
Fixpoint contains (needle hay : string) : bool :=
  starts_with needle hay ||
  match hay with
  | EmptyString => false
  | String _ hay' => contains needle hay'
  end.

(** The line boundaries of [str.splitlines] below code point 256:
    LF, CR (and CR LF as one), VT, FF, FS, GS, RS and NEL. *)
Definition is_linebreak (c : ascii) : bool :=
  match nat_of_ascii c with
  | 10 | 11 | 12 | 13 | 28 | 29 | 30 | 133 => true
  | _ => false
  end%nat.

(** The pieces between line boundaries; the last piece is what follows the
    last boundary (possibly empty). *)
Fixpoint segments (s : string) : list string :=
  match s with
  | EmptyString => [EmptyString]
  | String c s' =>
      if is_linebreak c then
        match nat_of_ascii c, s' with
        | 13%nat, String d s'' =>
            if eqb_char d "010" then EmptyString :: segments s''
            else EmptyString :: segments s'
        | _, _ => EmptyString :: segments s'
        end
      else
        match segments s' with
        | cur :: rest => String c cur :: rest
        | [] => [String c EmptyString]
        end
  end.

Fixpoint drop_last_empty (l : list string) : list string :=
  match l with
  | [] => []
  | [EmptyString] => []
  | x :: l' => x :: drop_last_empty l'
  end.

(** [s.splitlines()]: no line for the empty remainder after the last
    boundary. *)
Definition splitlines (s : string) : list string :=
  drop_last_empty (segments s).

(** [l.index(x)]: the first position holding a value equal to [x]. *)
Fixpoint index (x : string) (l : list string) : option nat :=
  match l with
  | [] => None
  | y :: l' => if decide (y = x) then Some 0%nat else S <$> index x l'
  end.

(** [l[i]] with Python's negative indices counted from the end. *)
Definition getitem {A} (l : list A) (i : Z) : option A :=
  let n := Z.of_nat (length l) in
  if decide (0 <= i) then l !! Z.to_nat i
  else if decide (0 <= i + n) then l !! Z.to_nat (i + n)
  else None.

(** [s.lower()] on the ASCII letters. *)
Definition lower_char (c : ascii) : ascii :=
  let n := nat_of_ascii c in
  if (65 <=? n)%nat && (n <=? 90)%nat then ascii_of_nat (n + 32) else c.

Fixpoint lower (s : string) : string :=
  match s with
  | EmptyString => EmptyString
  | String c s' => String (lower_char c) (lower s')
  end.

(** [s.ljust(w)]: pad with spaces on the right up to width [w]. *)
Definition ljust (w : nat) (s : string) : string :=
  s +:+ string_of_list_ascii (replicate (w - String.length s) " "%char).

Definition nl : string := String "010" EmptyString.

(** [f.readlines()] of a file opened in text mode: LF, CR and CR LF all end
    a line and are read as LF, which stays at the end of the line. *)
Fixpoint read_segments (s : string) : list string :=
  match s with
  | EmptyString => [EmptyString]
  | String c s' =>
      if eqb_char c "010" then nl :: read_segments s'
      else if eqb_char c "013" then
        match s' with
        | String d s'' =>
            if eqb_char d "010" then nl :: read_segments s''
            else nl :: read_segments s'
        | EmptyString => nl :: read_segments s'
        end
      else
        match read_segments s' with
        | cur :: rest => String c cur :: rest
        | [] => [String c EmptyString]
        end
  end.

Definition readlines (s : string) : list string :=
  drop_last_empty (read_segments s).

(** [str.isspace] below code point 256. *)
Definition is_space (c : ascii) : bool :=
  match nat_of_ascii c with
  | 9 | 10 | 11 | 12 | 13 | 28 | 29 | 30 | 31 | 32 | 133 | 160 => true
  | _ => false
  end%nat.

Fixpoint lstrip (s : string) : string :=
  match s with
  | EmptyString => EmptyString
  | String c s' => if is_space c then lstrip s' else s
  end.

Fixpoint rstrip (s : string) : string :=
  match s with
  | EmptyString => EmptyString
  | String c s' =>
      match rstrip s' with
      | EmptyString => if is_space c then EmptyString else String c EmptyString
      | r => String c r
      end
  end.

(** [s.strip()] *)
Definition strip (s : string) : string := rstrip (lstrip s).

Definition push_token (cur : string) (rest : list string) : list string :=
  match cur with
  | EmptyString => rest
  | _ => cur :: rest
  end.

(** The token being read at the start of [s], and the tokens after it. *)
Fixpoint split_go (s : string) : string * list string :=
  match s with
  | EmptyString => (EmptyString, [])
  | String c s' =>
      let '(cur, rest) := split_go s' in
      if is_space c then (EmptyString, push_token cur rest)
      else (String c cur, rest)
  end.

(** [s.split()]: the maximal runs of characters that are not blank. *)
Definition split (s : string) : list string :=
  let '(cur, rest) := split_go s in push_token cur rest.

(** The digits of [int()]: decimal digits, single underscores between. *)
Fixpoint int_digits (s : string) (acc : Z) (after_digit : bool) : option Z :=
  match s with
  | EmptyString => if after_digit then Some acc else None
  | String c s' =>
      let n := nat_of_ascii c in
      if (48 <=? n)%nat && (n <=? 57)%nat then
        int_digits s' (10 * acc + Z.of_nat (n - 48)) true
      else if eqb_char c "_" && after_digit then int_digits s' acc false
      else None
  end.

(** [int(s)] on a string without blanks; [None] is ValueError. *)
Definition to_int (s : string) : option Z :=
  match s with
  | String "-" s' => Z.opp <$> int_digits s' 0 false
  | String "+" s' => int_digits s' 0 false
  | _ => int_digits s 0 false
  end.

End Str.

(** ** The regular expressions of the two scripts

    Every pattern the scripts use is a sequence of literal characters, the
    wildcard [.] and greedy one-or-more runs of a character class. *)

Module Re.

Inductive atom : Type :=
| Chr (c : ascii)             (* a literal character *)
| Dot                         (* [.]: anything but a line feed *)
| Plus (cls : ascii → bool).  (* [[cls]+], greedy *)

Definition lit (s : string) : list atom := Chr <$> list_ascii_of_string s.

(** [\d] and [[0-9.]] *)
Definition is_digit (c : ascii) : bool :=
  let n := nat_of_ascii c in (48 <=? n)%nat && (n <=? 57)%nat.
Definition is_digit_or_dot (c : ascii) : bool :=
  is_digit c || Str.eqb_char c ".".

(** Length of the match of [p] anchored at the start of [s]. A run takes as
    many characters as it can and gives them back one by one while the rest
    of the pattern fails. *)
Fixpoint match_here (p : list atom) (s : string) {struct p} : option nat :=
  match p with
  | [] => Some 0%nat
  | Chr c :: p' =>
      match s with
      | String a s' => if Str.eqb_char a c then S <$> match_here p' s' else None
      | EmptyString => None
      end
  | Dot :: p' =>
      match s with
      | String a s' =>
          if Str.eqb_char a "010" then None else S <$> match_here p' s'
      | EmptyString => None
      end
  | Plus cls :: p' =>
      (fix run (s : string) : option nat :=
         match s with
         | String a s' =>
             if cls a then
               match run s' with
               | Some n => Some (S n)
               | None => S <$> match_here p' s'
               end
             else None
         | EmptyString => None
         end) s
  end.

(** [re.search(p, s)]: start and length of the leftmost match. *)
Fixpoint search (p : list atom) (s : string) : option (nat * nat) :=
  match match_here p s with
  | Some n => Some (0%nat, n)
  | None =>
      match s with
      | EmptyString => None
      | String _ s' => (λ '(i, n), (S i, n)) <$> search p s'
      end
  end.

(** [re.sub(p, repl, s)] for a pattern that matches no empty string and a
    replacement without backslashes: [skip] counts the characters of the
    match in progress that are still to be dropped. *)
Fixpoint sub_from (p : list atom) (repl : string) (skip : nat) (s : string)
  : string :=
  match s with
  | EmptyString => EmptyString
  | String c s' =>
      match skip with
      | S k => sub_from p repl k s'
      | O =>
          match match_here p s with
          | Some (S n) => repl +:+ sub_from p repl n s'
          | _ => String c (sub_from p repl 0 s')
          end
      end
  end.

Definition sub (p : list atom) (repl s : string) : string :=
  sub_from p repl 0 s.

(** [re.findall(p, s)]: the non-overlapping matches, left to right. *)
Fixpoint findall_from (p : list atom) (skip : nat) (s : string)
  : list string :=
  match s with
  | EmptyString => []
  | String c s' =>
      match skip with
      | S k => findall_from p k s'
      | O =>
          match match_here p s with
          | Some (S n) => String.substring 0 (S n) s :: findall_from p n s'
          | _ => findall_from p 0 s'
          end
      end
  end.

Definition findall (p : list atom) (s : string) : list string :=
  findall_from p 0 s.

End Re.

(** ** Python floats *)

Class PyFloat : Type := {
  float : Type;
  float_of_str : string → option float;   (* [float(s)]; [None]: ValueError *)
  float_zero : float;                     (* the integer [0] used as a float *)
  float_gt : float → float → bool;        (* [a > b] *)
  format_1f : float → string;             (* [f"{a:.1f}"] *)
}.

(** The comparison of floats that are not NaN is a strict weak order. *)
Class PyFloatOrder `{PyFloat} : Prop := {
  float_gt_irrefl a : float_gt a a = false;
  float_gt_trans a b c :
    float_gt a b = true → float_gt b c = true → float_gt a c = true;
  float_gt_cotrans a b c :
    float_gt a c = true → float_gt a b = true ∨ float_gt b c = true;
}.

(** ** The grid and the gate catalogue (grid-search.py, lines 8-13) *)

Definition GATE_NAMES : list string :=
  ["AND"; "OR"; "ASSIGN"; "NOT"; "NAND"; "XOR"; "MUX"].

Definition py_range (start stop step : Z) : list Z :=
  (λ k : nat, start + Z.of_nat k * step) <$>
    seq 0 (Z.to_nat ((stop - start + step - 1) / step)).

Definition THRESHOLDS : list Z := py_range 100 301 25.
Definition DELAYS : list Z := [32; 48; 64; 96; 128; 192; 256; 512; 1024].
Definition AMT_TRIALS : Z := 10.

(** ** The result parser (grid-search.py, lines 59-71) *)

Section parser.
Context `{PyFloat}.

Definition marker : string := "Correct rate: (avg, std)".
Definition gate_header (gate : string) : string :=
  "=== " +:+ gate +:+ " gate".

(** [\(([0-9.]+)%] *)
Definition accuracy_re : list Re.atom :=
  [Re.Chr "("; Re.Plus Re.is_digit_or_dot; Re.Chr "%"].

(** [float(re.search(r'\(([0-9.]+)%', line).group(1))]: group 1 is the
    match without its first and its last character. *)
Definition line_accuracy (line : string) : result float :=
  '(i, n) ← or_raise AttributeError (Re.search accuracy_re line);
  or_raise ValueError (float_of_str (String.substring (S i) (n - 2) line)).

(** The [for gate in GATE_NAMES: if ...: ...; break] of lines 65-69. *)
Fixpoint record_gate (gates : list string) (prev_line line : string)
    (gate_accuracies : gmap string float) : result (gmap string float) :=
  match gates with
  | [] => Ok gate_accuracies
  | gate :: gates' =>
      if Str.contains (gate_header gate) prev_line then
        accuracy ← line_accuracy line;
        Ok (<[gate := accuracy]> gate_accuracies)
      else record_gate gates' prev_line line gate_accuracies
  end.

(** [lines[lines.index(line) - 1]] *)
Definition prev_line (lines : list string) (line : string) : result string :=
  idx ← or_raise ValueError (Str.index line lines);
  or_raise IndexError (Str.getitem lines (Z.of_nat idx - 1)).

(** One turn of the loop of line 61. *)
Definition parse_line (lines : list string) (line : string)
    (gate_accuracies : gmap string float) : result (gmap string float) :=
  if Str.contains marker line then
    prev ← prev_line lines line;
    record_gate GATE_NAMES prev line gate_accuracies
  else Ok gate_accuracies.

Fixpoint parse_lines (lines todo : list string)
    (gate_accuracies : gmap string float) : result (gmap string float) :=
  match todo with
  | [] => Ok gate_accuracies
  | line :: todo' =>
      acc ← parse_line lines line gate_accuracies;
      parse_lines lines todo' acc
  end.

Definition parse_output (stdout : string) : result (gmap string float) :=
  let lines := Str.splitlines stdout in
  parse_lines lines lines ∅.

End parser.

(** ** State and exceptions

    A computation reads and updates a state and either returns or raises;
    the state reached when it raises is kept. *)

Definition M (St A : Type) : Type := St → result A * St.

#[global] Instance M_ret {St} : MRet (M St) := λ A a st, (Ok a, st).
#[global] Instance M_bind {St} : MBind (M St) := λ A B f m st,
  match m st with
  | (Ok a, st') => f a st'
  | (Raise e, st') => (Raise e, st')
  end.

Definition raise {St A} (e : exn) : M St A := λ st, (Raise e, st).

Definition lift_result {St A} (r : result A) : M St A := λ st, (r, st).

(** [try: body  except subprocess.CalledProcessError: handler] *)
Definition try_except_called_process_error {St A} (body handler : M St A)
  : M St A := λ st,
  match body st with
  | (Raise CalledProcessError, st') => handler st'
  | other => other
  end.

(** [try: body  finally: cleanup]: the clean-up runs on every way out of
    [body], and the outcome of [body] stands unless the clean-up raises. *)
Definition try_finally {St A} (body : M St A) (cleanup : M St ())
  : M St A := λ st,
  match body st with
  | (r, st') =>
      match cleanup st' with
      | (Ok _, st'') => (r, st'')
      | (Raise e, st'') => (Raise e, st'')
      end
  end.

(** A [for] loop over [l] threading the loop state [s]. *)
Fixpoint for_each {St S A} (l : list A) (body : S → A → M St S) (s : S)
  : M St S :=
  match l with
  | [] => mret s
  | x :: l' => s' ← body s x; for_each l' body s'
  end.

(** ** The working directory and the external commands

    Only regular files are modelled, as a map from path to contents; the
    directories [build] and [optimal-binaries], which the scripts create when
    missing, hold no file the scripts read back and are left out. What a
    command does is given by an oracle [env]: from the number of commands run
    so far, the argument vector and the files, an outcome and the files the
    command leaves behind. Console output is not modelled. *)

Inductive outcome : Type :=
| Exited (status : Z) (stdout : string)
| NotLaunched.

Record os_state : Type := OsState {
  files : gmap string string;
  clock : nat;
}.

Definition environment : Type :=
  nat → list string → gmap string string → outcome * gmap string string.

Section os.
Variable env : environment.

(** [open(path, 'r').read()] *)
Definition read_file (path : string) : M os_state string := λ st,
  (or_raise OSError (files st !! path), st).

(** [open(path, 'w').write(content)] *)
Definition write_file (path content : string) : M os_state () := λ st,
  (Ok (), OsState (<[path := content]> (files st)) (clock st)).

(** [if os.path.exists(path): os.remove(path)] *)
Definition remove_if_exists (path : string) : M os_state () := λ st,
  if decide (is_Some (files st !! path))
  then (Ok (), OsState (delete path (files st)) (clock st))
  else (Ok (), st).

(** [subprocess.run(argv, stdout=PIPE, stderr=PIPE)], with [check=True]
    when [check] is set: only then does a nonzero exit status raise. A
    command that cannot be started raises [OSError] either way. *)
Definition subprocess_run (check : bool) (argv : list string)
  : M os_state string := λ st,
  let '(o, fs) := env (clock st) argv (files st) in
  let st' := OsState fs (S (clock st)) in
  match o with
  | NotLaunched => (Raise OSError, st')
  | Exited status stdout =>
      if check && negb (status =? 0) then (Raise CalledProcessError, st')
      else (Ok stdout, st')
  end.

End os.

(** ** Generating a variant (both scripts) *)

(** The double quote, as a one-character string. *)
Definition dquote : string := String "034" EmptyString.

Definition threshold_re : list Re.atom :=
  Re.lit "#define THRESHOLD " ++ [Re.Plus Re.is_digit].
Definition delay_re : list Re.atom :=
  Re.lit "#define DELAY " ++ [Re.Plus Re.is_digit].
(** [#include "gates/compose.cpp"], whose [.] is the wildcard. *)
Definition include_re : list Re.atom :=
  Re.lit ("#include " +:+ dquote +:+ "gates/compose") ++ [Re.Dot] ++
  Re.lit ("cpp" +:+ dquote).
Definition placeholder_call : string :=
  "test_gate(" +:+ dquote +:+ "GATE_NAME_PLACEHOLDER" +:+ dquote +:+
  ", GATE_FUNCTION_PLACEHOLDER, GATE_INPUTS_PLACEHOLDER);".
Definition placeholder_re : list Re.atom := Re.lit placeholder_call.

Definition threshold_directive (threshold : Z) : string :=
  "#define THRESHOLD " +:+ pretty threshold.
Definition delay_directive (delay : Z) : string :=
  "#define DELAY " +:+ pretty delay.

(** The two substitutions every generated text goes through. *)
Definition set_parameters (threshold delay : Z) (content : string) : string :=
  Re.sub delay_re (delay_directive delay)
    (Re.sub threshold_re (threshold_directive threshold) content).

(** ** An instance of [PyFloat] on exact decimals

    A value is [mant / 10 ^ scale]. The instance reads the numerals made of
    digits and at most one point (every spelling the parser's [[0-9.]+] group
    can hand to [float()], and every numeral the [.1f] format prints for
    them); signs, exponents and the other spellings Python accepts are not
    recognised. It is exact, where Python rounds to binary64. *)

Module Dec.

Record t : Type := mk { mant : N; scale : nat }.

#[global] Instance t_eq_dec : EqDecision t.
Proof. solve_decision. Defined.

Definition digit_val (c : ascii) : N := N.of_nat (nat_of_ascii c - 48).

Fixpoint of_str_go (s : string) (m : N) (frac : option nat) (seen : bool)
  : option t :=
  match s with
  | EmptyString => if seen then Some (mk m (default 0%nat frac)) else None
  | String c s' =>
      if Re.is_digit c then
        of_str_go s' (10 * m + digit_val c)%N (S <$> frac) true
      else if Str.eqb_char c "." then
        match frac with
        | None => of_str_go s' m (Some 0%nat) seen
        | Some _ => None
        end
      else None
  end.

Definition of_str (s : string) : option t := of_str_go s 0%N None false.

Definition gt (a b : t) : bool :=
  (mant b * 10 ^ N.of_nat (scale a) <? mant a * 10 ^ N.of_nat (scale b))%N.

(** Tenths, rounded half to even. *)
Definition tenths (a : t) : N :=
  let d := (10 ^ N.of_nat (scale a))%N in
  let q := (mant a * 10 / d)%N in
  let r := (mant a * 10 mod d)%N in
  if (d <? 2 * r)%N then (q + 1)%N
  else if (d =? 2 * r)%N && N.odd q then (q + 1)%N
  else q.

Definition fmt1 (a : t) : string :=
  pretty (tenths a / 10)%N +:+ "." +:+ pretty (tenths a mod 10)%N.

#[global] Instance py_float : PyFloat := {|
  float := t;
  float_of_str := of_str;
  float_zero := mk 0 0;
  float_gt := gt;
  format_1f := fmt1;
|}.

End Dec.

(** ** One grid point (grid-search.py, [test_parameters]) *)

Section grid_search.
Context `{PyFloat}.
Variable env : environment.

Definition temp_include : string :=
  "#include " +:+ dquote +:+ "gates/compose_temp.cpp" +:+ dquote.

(** Lines 17-36: the generated texts are written before the [try]. *)
Definition write_variant (threshold delay : Z) : M os_state () :=
  content_compose ← read_file "gates/compose.cpp";
  write_file "gates/compose_temp.cpp"
    (set_parameters threshold delay content_compose);;
  content_main ← read_file "main.cpp";
  write_file "main_temp.cpp"
    (Re.sub include_re temp_include
       (set_parameters threshold delay content_main)).

(** Lines 40-71: the body of the [try]. The three build commands are
    checked, the run of the executable is not. *)
Definition build_run_parse : M os_state (gmap string float) :=
  subprocess_run env true ["make"; "clean"];;
  subprocess_run env true
    ["g++"; "-O2"; "-D"; "INTEL"; "-c"; "-o"; "build/compose.o";
     "gates/compose.cpp"];;
  subprocess_run env true
    ["g++"; "-O2"; "-D"; "INTEL"; "-o"; "main_temp.elf"; "main_temp.cpp";
     "build/compose.o"; "-lm"];;
  stdout ← subprocess_run env false
    ["./main_temp.elf"; "-t"; pretty AMT_TRIALS];
  lift_result (parse_output stdout).

(** Lines 76-83: the [finally]. *)
Definition clean_up : M os_state () :=
  remove_if_exists "main_temp.cpp";;
  remove_if_exists "main_temp.elf";;
  remove_if_exists "gates/compose_temp.cpp".

Definition test_parameters (threshold delay : Z)
  : M os_state (gmap string float) :=
  write_variant threshold delay;;
  try_finally
    (try_except_called_process_error build_run_parse (mret ∅))
    clean_up.

End grid_search.

(** ** One optimal binary (create-optimal-binaries.py) *)

Definition BEST_CONFIGS : list (string * (Z * Z)) :=
  [("AND", (225, 128)); ("OR", (275, 128)); ("ASSIGN", (250, 128));
   ("NOT", (150, 512)); ("NAND", (100, 512)); ("XOR", (275, 1024));
   ("MUX", (275, 256))].

Definition GATE_FUNCTIONS : gmap string (string * Z) :=
  list_to_map
    [("AND", ("do_and_gate", 2)); ("OR", ("do_or_gate", 2));
     ("ASSIGN", ("do_assign_gate", 1)); ("NOT", ("do_not_gate", 1));
     ("NAND", ("do_nand_gate", 2)); ("XOR", ("do_xor_gate", 2));
     ("MUX", ("do_mux_gate", 3))].

Section create_optimal_binaries.
Variable env : environment.

Definition temp_compose_file (gate_name : string) : string :=
  "gates/compose_" +:+ Str.lower gate_name +:+ ".cpp".
Definition temp_main_file (gate_name : string) : string :=
  "main_" +:+ Str.lower gate_name +:+ ".cpp".
Definition compose_obj (gate_name : string) : string :=
  "build/compose_" +:+ Str.lower gate_name +:+ ".o".
Definition binary_name (gate_name : string) : string :=
  "optimal-binaries/main_" +:+ Str.lower gate_name +:+ ".elf".

Definition gate_include (gate_name : string) : string :=
  "#include " +:+ dquote +:+ temp_compose_file gate_name +:+ dquote.
Definition gate_call (gate_name gate_function : string) (input_count : Z)
  : string :=
  "test_gate(" +:+ dquote +:+ gate_name +:+ dquote +:+ ", " +:+
  gate_function +:+ ", " +:+ pretty input_count +:+ ");".

(** Lines 40-41. *)
Definition optimized_compose (threshold delay : Z) (content_compose : string)
  : string :=
  set_parameters threshold delay content_compose.

(** Lines 53-59. *)
Definition optimized_main (gate_name gate_function : string)
    (input_count threshold delay : Z) (content_main : string) : string :=
  Re.sub placeholder_re (gate_call gate_name gate_function input_count)
    (Re.sub include_re (gate_include gate_name)
       (set_parameters threshold delay content_main)).

(** Lines 68-89: the body of the [try]. *)
Definition build_binary (gate_name : string) : M os_state bool :=
  subprocess_run env true ["make"; "clean"];;
  subprocess_run env true
    ["g++"; "-O2"; "-D"; "INTEL"; "-c"; "-o"; compose_obj gate_name;
     temp_compose_file gate_name];;
  subprocess_run env true
    ["g++"; "-O2"; "-D"; "INTEL"; "-o"; binary_name gate_name;
     temp_main_file gate_name; compose_obj gate_name; "-lm"];;
  mret true.

(** Lines 95-100: the [finally]. *)
Definition clean_up_binary (gate_name : string) : M os_state () :=
  remove_if_exists (temp_main_file gate_name);;
  remove_if_exists (temp_compose_file gate_name).

Definition create_optimized_binary (gate_name : string) (threshold delay : Z)
  : M os_state bool :=
  '(gate_function, input_count) ←
    lift_result (or_raise KeyError (GATE_FUNCTIONS !! gate_name));
  content_compose ← read_file "gates/compose.cpp";
  write_file (temp_compose_file gate_name)
    (optimized_compose threshold delay content_compose);;
  content_main ← read_file "main.cpp";
  write_file (temp_main_file gate_name)
    (optimized_main gate_name gate_function input_count threshold delay
       content_main);;
  try_finally
    (try_except_called_process_error (build_binary gate_name) (mret false))
    (clean_up_binary gate_name).

End create_optimal_binaries.

(** ** The sweep and the selection of the best configurations
       (grid-search.py, [main])

    The result files are kept apart from the working directory: the external
    commands do not touch them. A file is the text written to it so far. *)

Record sweep_state : Type := SweepState {
  os : os_state;
  result_files : gmap string string;
}.

Definition lift_os {A} (m : M os_state A) : M sweep_state A := λ st,
  match m (os st) with
  | (r, o) => (r, SweepState o (result_files st))
  end.

(** [open(path, "w")] *)
Definition open_result_file (path : string) : M sweep_state () := λ st,
  (Ok (), SweepState (os st) (<[path := EmptyString]> (result_files st))).

(** [f.write(text)] on the file opened at [path] *)
Definition write_result (path text : string) : M sweep_state () := λ st,
  (Ok (), SweepState (os st)
            (<[path := default EmptyString (result_files st !! path) +:+ text]>
               (result_files st))).

(** [open(path, "r").read()] *)
Definition read_result (path : string) : M sweep_state string := λ st,
  (or_raise OSError (result_files st !! path), st).

Record best_config (F : Type) : Type := BestConfig {
  best_threshold : Z;
  best_delay : Z;
  best_accuracy : F;
}.
Arguments BestConfig {F} _ _ _.
Arguments best_threshold {F} _.
Arguments best_delay {F} _.
Arguments best_accuracy {F} _.

Section main.
Context `{PyFloat}.
Variable env : environment.

Definition results_path (gate : string) : string :=
  "grid-search-results/" +:+ Str.lower gate +:+ "_results.txt".

(** Lines 94-96. *)
Definition header : string :=
  foldl (λ h delay, h +:+ Str.ljust 10 (pretty delay))
    (Str.ljust 10 "T\D") DELAYS.

(** Lines 88-97. *)
Definition open_result_files : M sweep_state () :=
  for_each GATE_NAMES (λ _ gate,
    open_result_file (results_path gate);;
    write_result (results_path gate)
      ("# Results for " +:+ gate +:+ " gate" +:+ Str.nl);;
    write_result (results_path gate) (header +:+ Str.nl)) ().

(** Line 110. *)
Definition new_rows (threshold : Z) : gmap string string :=
  list_to_map ((λ gate, (gate, Str.ljust 10 (pretty threshold))) <$> GATE_NAMES).

(** [f"{accuracy:.1f}"] for [gate_accuracies.get(gate, 0)] *)
Definition cell_text (gate_accuracies : gmap string float) (gate : string)
  : string :=
  format_1f (default float_zero (gate_accuracies !! gate)).

(** [f"{accuracy:.1f}".ljust(10)] *)
Definition cell (gate_accuracies : gmap string float) (gate : string)
  : string :=
  Str.ljust 10 (cell_text gate_accuracies gate).

(** Lines 128-130. *)
Definition add_cells (gate_accuracies : gmap string float)
    (rows : gmap string string) : gmap string string :=
  foldl (λ rows gate, alter (λ row, row +:+ cell gate_accuracies gate) gate rows)
    rows GATE_NAMES.

(** Lines 133-135. *)
Definition flush_rows (rows : gmap string string) : M sweep_state () :=
  for_each GATE_NAMES (λ _ gate,
    row ← lift_result (or_raise KeyError (rows !! gate));
    write_result (results_path gate) (row +:+ Str.nl)) ().

(** Lines 108-135, one threshold. *)
Definition sweep_row (threshold : Z) : M sweep_state () :=
  rows ← for_each DELAYS (λ rows delay,
            gate_accuracies ← lift_os (test_parameters env threshold delay);
            mret (add_cells gate_accuracies rows))
          (new_rows threshold);
  flush_rows rows.

Definition sweep : M sweep_state () :=
  for_each THRESHOLDS (λ _ threshold, sweep_row threshold) ().

(** Lines 170-174: the scan of one row. *)
Fixpoint scan_row (threshold : Z) (i : nat) (accuracies : list float)
    (best : best_config float) : best_config float :=
  match accuracies with
  | [] => best
  | accuracy :: rest =>
      scan_row threshold (S i) rest
        (match DELAYS !! i with
         | Some delay =>
             if float_gt accuracy (best_accuracy best)
             then BestConfig threshold delay accuracy
             else best
         | None => best
         end)
  end.

(** Lines 155-174: one line of a result file. *)
Definition select_line (best : best_config float) (line : string)
  : result (best_config float) :=
  match Str.split (Str.strip line) with
  | [] => Ok best
  | first :: values =>
      threshold ← or_raise ValueError (Str.to_int first);
      Ok (scan_row threshold 0 (omap float_of_str values) best)
  end.

Fixpoint select_lines (lines : list string) (best : best_config float)
  : result (best_config float) :=
  match lines with
  | [] => Ok best
  | line :: lines' => best' ← select_line best line; select_lines lines' best'
  end.

(** Lines 147-174: the best configuration of one result file. *)
Definition select_best (text : string) : result (best_config float) :=
  select_lines (drop 2 (Str.readlines text)) (BestConfig 0 0 float_zero).

(** Line 176. *)
Definition result_line (gate : string) (best : best_config float) : string :=
  gate +:+ ": Threshold=" +:+ pretty (best_threshold best) +:+
  ", Delay=" +:+ pretty (best_delay best) +:+
  ", Accuracy=" +:+ format_1f (best_accuracy best) +:+ "%".

(** Lines 144-178. *)
Definition select_all : M sweep_state (list (string * best_config float)) :=
  for_each GATE_NAMES (λ best_configs gate,
    text ← read_result (results_path gate);
    best ← lift_result (select_best text);
    mret (best_configs ++ [(gate, best)])) [].

(** Lines 181-184. *)
Definition summary (best_configs : list (string * best_config float))
  : string :=
  foldl (λ text '(gate, best), text +:+ result_line gate best +:+ Str.nl)
    ("Best configurations for each gate:" +:+ Str.nl) best_configs.

Definition main : M sweep_state (list (string * best_config float)) :=
  open_result_files;;
  sweep;;
  best_configs ← select_all;
  lift_os (write_file "output.txt" (summary best_configs));;
  mret best_configs.

End main.


(** ** Auxiliary definitions for the statements *)

(** The longest prefix of [s] made of characters of [cls], and what follows. *)
Fixpoint span (cls : ascii → bool) (s : string) : string * string :=
match s with
| EmptyString => (EmptyString, EmptyString)
| String c s' =>
    if cls c then (String c (span cls s').1, (span cls s').2)
    else (EmptyString, s)
end.

(** The run of digits and points that stands between an opening parenthesis
    at the head of [s] and a percent sign, if there is one. *)
Definition paren_run_at (s : string) : option string :=
match s with
| String p s' =>
    if Str.eqb_char p "(" then
      match span Re.is_digit_or_dot s' with
      | (String c run, String y _) =>
          if Str.eqb_char y "%" then Some (String c run) else None
      | _ => None
      end
    else None
| EmptyString => None
end.

(** The first run of digits and points in [line] that stands between an
    opening parenthesis and a percent sign. *)
Fixpoint first_paren_number (line : string) : option string :=
match paren_run_at line with
| Some run => Some run
| None =>
    match line with
    | EmptyString => None
    | String _ line' => first_paren_number line'
    end
end.

(** Following the words of the specification: the first decimal number in
    [line] that stands immediately before a percent sign, whatever comes
    before it. *)
Definition spec_first_percent_number (line : string) : option string :=
match Re.search [Re.Plus Re.is_digit_or_dot; Re.Chr "%"] line with
| Some (i, n) => Some (String.substring i (n - 1) line)
| None => None
end.

(** The gate a line preceding a marker stands for: the first gate of the
    catalogue whose header the line contains. *)
Definition matching_gate (prev : string) : option string :=
List.find (λ gate, Str.contains (gate_header gate) prev) GATE_NAMES.

(** [[f x for x in l]] with an effectful [f]. *)
Fixpoint map_m {St A B} (f : A → M St B) (l : list A) : M St (list B) :=
match l with
| [] => mret []
| x :: l' => y ← f x; ys ← map_m f l'; mret (y :: ys)
end.

Section matrices.
Context `{PyFloat}.
Variable env : environment.

(** The mappings measured along one row of the grid, delay after delay. *)
Definition measure_row (threshold : Z)
  : M os_state (list (gmap string float)) :=
map_m (test_parameters env threshold) DELAYS.

(** The mappings measured over the grid, threshold after threshold. *)
Definition measure_grid : M os_state (list (Z * list (gmap string float))) :=
map_m (λ threshold, row ← measure_row threshold; mret (threshold, row))
  THRESHOLDS.

(** The line of a result file for one measured row. *)
Definition row_text (gate : string) (row : Z * list (gmap string float))
  : string :=
foldl (λ text gate_accuracies, text +:+ cell gate_accuracies gate)
  (Str.ljust 10 (pretty row.1)) row.2 +:+ Str.nl.

(** The two header lines of a result file. *)
Definition file_head (gate : string) : string :=
("# Results for " +:+ gate +:+ " gate" +:+ Str.nl) +:+ (header +:+ Str.nl).

(** A result file holding the measured rows [grid]. *)
Definition matrix_text (gate : string)
    (grid : list (Z * list (gmap string float))) : string :=
foldl (λ text row, text +:+ row_text gate row) (file_head gate) grid.

(** What the selector reads from one line of a result file: nothing on a
    blank line, else a threshold and the values that parse as floats. *)
Definition parse_row (line : string) : result (option (Z * list float)) :=
match Str.split (Str.strip line) with
| [] => Ok None
| first :: values =>
    threshold ← or_raise ValueError (Str.to_int first);
    Ok (Some (threshold, omap float_of_str values))
end.

Fixpoint parse_rows (lines : list string) : result (list (Z * list float)) :=
match lines with
| [] => Ok []
| line :: lines' =>
    row ← parse_row line;
    rows ← parse_rows lines';
    Ok (match row with Some r => r :: rows | None => rows end)
end.

(** The matrix persisted in a result file: its rows after the two header
    lines. *)
Definition matrix_of (text : string) : result (list (Z * list float)) :=
parse_rows (drop 2 (Str.readlines text)).

(** The grid points of a matrix with their accuracies, in row-major order:
    the values of a row are paired with the delays, in list order. *)
Definition cells (rows : list (Z * list float)) : list (best_config float) :=
rows ≫= λ row, zip_with (λ delay accuracy, BestConfig row.1 delay accuracy)
                 DELAYS row.2.

(** One step of the running maximum: a cell replaces the best so far only
    when its accuracy is strictly greater. *)
Definition better (best c : best_config float) : best_config float :=
if float_gt (best_accuracy c) (best_accuracy best) then c else best.

End matrices.

(** ** Auxiliary definitions for the generator

    What a pattern can read: the characters an atom accepts, and texts in
    which no match of a pattern starts whatever follows them. *)

Definition accepts_atom (a : Re.atom) (c : ascii) : bool :=
match a with
| Re.Chr x => Str.eqb_char c x
| Re.Dot => negb (Str.eqb_char c "010")
| Re.Plus cls => cls c
end.

Definition accepts (body : list Re.atom) (c : ascii) : bool :=
existsb (λ a, accepts_atom a c) body.

Fixpoint all_chars (P : ascii → bool) (s : string) : bool :=
match s with
| EmptyString => true
| String c s' => P c && all_chars P s'
end.

(** A text that [ljust(10)] pads by at least one space and that [split()]
    reads as one token: not empty, without blanks, shorter than 10. *)
Definition fits_cell (s : string) : bool :=
negb (String.eqb s EmptyString)
&& all_chars (λ c, negb (Str.is_space c)) s
&& (String.length s <? 10)%nat.

(** No match of [p] starts at any position of [x], whatever follows [x]. *)
Fixpoint opaque (p : list Re.atom) (x : string) : Prop :=
match x with
| EmptyString => True
| String c x' =>
    (∀ y, Re.match_here p (String c x' +:+ y) = None) ∧ opaque p x'
end.

Definition head_char (s : string) : option ascii :=
match s with
| EmptyString => None
| String c _ => Some c
end.

(** The word shared by the three placeholders of the main template. *)
Definition placeholder_mark : string := "PLACEHOLDER".

(** ** The builds of all optimal binaries (create-optimal-binaries.py, [main])

    Lines 106-112 of [main]: the loop over [BEST_CONFIGS] and its count of
    the builds that returned [True], with the number of configurations. The
    rest of [main] prints, from these two numbers and from a listing of the
    directory of the binaries, and is outside the model. *)

Module Binaries.
Section main.
Variable env : environment.

Definition main_builds : M os_state (nat * nat) :=
successful_builds ←
  for_each BEST_CONFIGS
    (λ successful_builds '(gate_name, (threshold, delay)),
       success ← create_optimized_binary env gate_name threshold delay;
       mret (if success : bool then S successful_builds
             else successful_builds))
    0%nat;
mret (successful_builds, length BEST_CONFIGS).

End main.
End Binaries.

(** ** What is assumed of the commands in some statements *)

(** Every command can be started. *)
Definition launches (env : environment) : Prop :=
∀ n argv fs, (env n argv fs).1 ≠ NotLaunched.

(** The command run as number [n] exits with status 0, whatever it is. *)
Definition exits_zero (env : environment) (n : nat) : Prop :=
∀ argv fs, ∃ stdout, (env n argv fs).1 = Exited 0 stdout.

(** The command run as number [n] exits with a nonzero status. *)
Definition exits_nonzero (env : environment) (n : nat) : Prop :=
∀ argv fs, ∃ status stdout,
  (env n argv fs).1 = Exited status stdout ∧ status ≠ 0.

(** No command changes the file at [path], or creates one there. *)
Definition keeps (env : environment) (path : string) : Prop :=
∀ n argv fs, (env n argv fs).2 !! path = fs !! path.

(** A computation that leaves the file at [path] as it found it, however it
    ends. *)
Definition leaves {A} (path : string) (m : M os_state A) : Prop :=
∀ st, files (m st).2 !! path = files st !! path.

(** A line the selector can read: blank, or with an integer as its first
    token. *)
Definition readable_row (line : string) : Prop :=
match Str.split (Str.strip line) with
| [] => True
| first :: _ => is_Some (Str.to_int first)
end.

(** What the selector reads back from the row written for [row]: its
    threshold, and the formatted accuracies that [float()] accepts. *)
Definition row_read_back `{PyFloat} (gate : string)
    (row : Z * list (gmap string float)) : Z * list float :=
(row.1, omap (λ measured, float_of_str (cell_text measured gate)) row.2).

(** A measured grid whose thresholds are those of the sweep and whose
    formatted accuracies fit their cells, for [gate]. *)
Definition fits_grid `{PyFloat} (gate : string)
    (grid : list (Z * list (gmap string float))) : Prop :=
Forall (λ row, row.1 ∈ THRESHOLDS ∧
               Forall (λ measured, fits_cell (cell_text measured gate) = true)
                 row.2) grid.

(** ** A working directory and some environments to run the scripts in *)

Module Demo.

Definition compose_cpp : string :=
"#define THRESHOLD 200" +:+ Str.nl +:+ "#define DELAY 64" +:+ Str.nl +:+
"void compose() {}" +:+ Str.nl.

Definition main_cpp : string :=
"#define THRESHOLD 200" +:+ Str.nl +:+ "#define DELAY 64" +:+ Str.nl +:+
"#include " +:+ dquote +:+ "gates/compose.cpp" +:+ dquote +:+ Str.nl +:+
"int main() { " +:+ placeholder_call +:+ " }" +:+ Str.nl.

Definition workdir : gmap string string :=
<["main.cpp" := main_cpp]> (<["gates/compose.cpp" := compose_cpp]> ∅).

Definition start : os_state := OsState workdir 0.

(** What follows [-o] in an argument vector. *)
Fixpoint output_of (argv : list string) : option string :=
match argv with
| "-o" :: path :: _ => Some path
| _ :: argv' => output_of argv'
| [] => None
end.

(** [make] succeeds; [g++] exits with [gxx_status], leaving its output file
    when that is zero; the executable behaves as [run] says, given the number
    of commands run before it. No command touches another file. *)
Definition commands (gxx_status : nat → Z) (run : nat → outcome)
  : environment := λ n argv fs,
match argv with
| "make" :: _ => (Exited 0 EmptyString, fs)
| "g++" :: _ =>
    (Exited (gxx_status n) EmptyString,
     match output_of argv with
     | Some path => if gxx_status n =? 0 then <[path := "binary"]> fs else fs
     | None => fs
     end)
| _ => (run n, fs)
end.

Definition report (gate percent : string) : string :=
"=== " +:+ gate +:+ " gate ===" +:+ Str.nl +:+
"Correct rate: (avg, std) (" +:+ percent +:+ "%, 0.0%)" +:+ Str.nl.

(** A result file with two rows in which 87.3 is reached twice. *)
Definition two_maxima : string :=
"# Results for AND gate" +:+ Str.nl +:+
"T\D       32        48        " +:+ Str.nl +:+
"100       50.0      87.3      " +:+ Str.nl +:+
"125       87.3      10.0      " +:+ Str.nl.

(** Commands that touch no file and end as [run] says, given the number of
    commands run before them. *)
Definition idle (run : nat → outcome) : environment :=
λ n _ fs, (run n, fs).

(** A build that succeeds and an executable that reports for AND and exits
    with status 1. *)
Definition crashing_run (n : nat) : outcome :=
if (n <? 3)%nat then Exited 0 EmptyString
else Exited 1 (report "AND" "50.0").

(** Two measured rows for AND; the greatest accuracy, 87.3, is in the
    first. *)
Definition measured_rows : list (Z * list (gmap string Dec.t)) :=
[(100, [{[ "AND" := Dec.mk 500 1 ]}; {[ "AND" := Dec.mk 873 1 ]}]);
 (125, [{[ "AND" := Dec.mk 8725 2 ]}; ∅])].


End Demo.

(** * Properties *)

(** ** The result parser *)

Arguments Re.match_here : simpl never.

Section parser_facts.
Context `{PyFloat}.

Lemma record_gate_find gates prev line acc :
  record_gate gates prev line acc =
  match List.find (λ gate, Str.contains (gate_header gate) prev) gates with
  | Some gate => accuracy ← line_accuracy line; Ok (<[gate := accuracy]> acc)
  | None => Ok acc
  end.
Proof.
  induction gates as [|g gates IH]; simpl; [done|].
  destruct (Str.contains (gate_header g) prev); [done|apply IH].
Qed.

Lemma getitem_minus_one {A} (x : A) (l : list A) :
  Str.getitem (x :: l) (-1) = last (x :: l).
Proof.
  unfold Str.getitem.
  destruct (decide (0 <= -1)) as [?|_]; [lia|].
  destruct (decide (0 <= -1 + Z.of_nat (length (x :: l)))) as [_|Hn].
  - rewrite last_lookup. f_equal. simpl. lia.
  - simpl in Hn. lia.
Qed.

(** C9. When the first line of the capture holds the marker, the line the
    parser looks back to is the last line of the capture, and the marker is
    recorded for the gate whose header that last line holds. *)
Theorem first_line_marker_wraps_to_last_line line rest acc :
  Str.contains marker line = true →
  ∃ final, last (line :: rest) = Some final ∧
    prev_line (line :: rest) line = Ok final ∧
    parse_line (line :: rest) line acc =
      match matching_gate final with
      | Some gate =>
          accuracy ← line_accuracy line; Ok (<[gate := accuracy]> acc)
      | None => Ok acc
      end.
Proof.
  intros Hm.
  destruct (last (line :: rest)) as [final|] eqn:Hl.
  2:{ apply last_None in Hl. discriminate. }
  assert (Hp : prev_line (line :: rest) line = Ok final).
  { unfold prev_line. simpl. rewrite decide_True by done. simpl.
    change (0 - 1) with (-1). rewrite getitem_minus_one, Hl. done. }
  exists final. split; [done|]. split; [done|].
  unfold parse_line. rewrite Hm, Hp.
  unfold mbind at 1, result_bind at 1.
  apply record_gate_find.
Qed.

(** *** The regular expression engine, equation by equation *)

Lemma match_here_nil s : Re.match_here [] s = Some 0%nat.
Proof. by destruct s. Qed.

Lemma match_here_chr c p s :
  Re.match_here (Re.Chr c :: p) s =
  match s with
  | String a s' =>
      if Str.eqb_char a c then S <$> Re.match_here p s' else None
  | EmptyString => None
  end.
Proof. by destruct s. Qed.

Lemma match_here_plus cls p s :
  Re.match_here (Re.Plus cls :: p) s =
  match s with
  | String a s' =>
      if cls a then
        match Re.match_here (Re.Plus cls :: p) s' with
        | Some n => Some (S n)
        | None => S <$> Re.match_here p s'
        end
      else None
  | EmptyString => None
  end.
Proof. by destruct s. Qed.

(** A greedy run followed by a character outside its class takes the whole
    run: giving characters back never helps. *)
Lemma match_here_plus_chr cls x s :
  cls x = false →
  Re.match_here [Re.Plus cls; Re.Chr x] s =
  match span cls s with
  | (String c run, String y _) =>
      if Str.eqb_char y x then Some (S (String.length (String c run)))
      else None
  | _ => None
  end.
Proof.
  intros Hx. induction s as [|a s IH]; [done|].
  rewrite match_here_plus, IH, match_here_chr. simpl.
  destruct (cls a) eqn:Ha; [|done]. simpl.
  destruct (span cls s) as [run rest] eqn:Hs. simpl.
  assert (Hhead : ∀ b s', s = String b s' → cls b = true →
                  Str.eqb_char b x = false).
  { intros b s' _ Hb. destruct (Str.eqb_char b x) eqn:Hbx; [|done].
    apply Ascii.eqb_eq in Hbx. congruence. }
  destruct run as [|c run].
  - destruct s as [|b s]; simpl in *; [by inversion Hs|].
    destruct (cls b) eqn:Hb; [by inversion Hs|]. inversion Hs; subst.
    by destruct (Str.eqb_char b x).
  - destruct s as [|b s]; [by inversion Hs|]. simpl in Hs.
    destruct (cls b) eqn:Hb; [|by inversion Hs].
    rewrite (Hhead b s eq_refl Hb).
    destruct rest as [|y rest]; [done|].
    by destruct (Str.eqb_char y x).
Qed.

Lemma span_substring cls s :
  String.substring 0 (String.length (span cls s).1) s = (span cls s).1.
Proof.
  induction s as [|a s IH]; [done|]. simpl.
  destruct (cls a); [|done]. simpl. by rewrite IH.
Qed.

Lemma match_here_accuracy_re s :
  Re.match_here accuracy_re s =
  (λ run, S (S (String.length run))) <$> paren_run_at s.
Proof.
  unfold accuracy_re. rewrite match_here_chr. destruct s as [|p s]; [done|].
  simpl. destruct (Str.eqb_char p "("); [|done].
  rewrite match_here_plus_chr by done.
  destruct (span Re.is_digit_or_dot s) as [[|c run] [|y rest]]; try done.
  by destruct (Str.eqb_char y "%").
Qed.

Lemma paren_run_at_substring s run :
  paren_run_at s = Some run →
  String.substring 1 (String.length run) s = run.
Proof.
  destruct s as [|p s]; [done|]. simpl.
  destruct (Str.eqb_char p "("); [|done].
  pose proof (span_substring Re.is_digit_or_dot s) as Hs.
  destruct (span Re.is_digit_or_dot s) as [[|c r] [|y rest]]; try done.
  destruct (Str.eqb_char y "%"); [|done]. intros [= <-]. exact Hs.
Qed.

Lemma substring_S i n c s :
  String.substring (S i) n (String c s) = String.substring i n s.
Proof. done. Qed.

(** The search of [accuracy_re] finds the first parenthesised run. *)
Lemma search_accuracy_re line :
  match Re.search accuracy_re line with
  | Some (i, n) =>
      first_paren_number line = Some (String.substring (S i) (n - 2) line)
  | None => first_paren_number line = None
  end.
Proof.
  induction line as [|c line IH].
  - done.
  - cbn [Re.search first_paren_number].
    rewrite match_here_accuracy_re.
    destruct (paren_run_at (String c line)) as [run|] eqn:Hr.
    + cbn [fmap option_fmap option_map]. f_equal. symmetry.
      replace (S (S (String.length run)) - 2)%nat with (String.length run) by lia.
      by apply paren_run_at_substring.
    + cbn [fmap option_fmap option_map].
      destruct (Re.search accuracy_re line) as [[i n]|]; [|done].
      cbn [fmap option_fmap option_map]. by rewrite substring_S.
Qed.

Lemma line_accuracy_first_paren_number line :
  line_accuracy line =
  match first_paren_number line with
  | Some run => or_raise ValueError (float_of_str run)
  | None => Raise AttributeError
  end.
Proof.
  unfold line_accuracy. pose proof (search_accuracy_re line) as Hs.
  destruct (Re.search accuracy_re line) as [[i n]|]; by rewrite Hs.
Qed.

(** C5, amended. For a marker line recorded for a gate, the accuracy is the
    float read from the first run of digits and points that stands between
    an opening parenthesis and a percent sign, as it is read, without
    rounding; the capture of the XOR example yields the mapping from XOR to
    the float of 87.3. *)
Theorem marker_line_records_first_parenthesised_percentage
    (prev line gate : string) (acc : gmap string float) :
  matching_gate prev = Some gate →
  record_gate GATE_NAMES prev line acc =
    match first_paren_number line with
    | Some run =>
        accuracy ← or_raise ValueError (float_of_str run);
        Ok (<[gate := accuracy]> acc)
    | None => Raise AttributeError
    end ∧
  ∀ v, float_of_str "87.3" = Some v →
    parse_output
      ("=== XOR gate ===" +:+ Str.nl +:+
       "Correct rate: (avg, std) (87.3%, 2.1%)") = Ok {[ "XOR" := v ]}.
Proof.
  intros Hg. split.
  - rewrite record_gate_find. fold (matching_gate prev). rewrite Hg.
    rewrite line_accuracy_first_paren_number.
    by destruct (first_paren_number line).
  - intros v Hv. vm_compute. vm_compute in Hv. rewrite Hv. reflexivity.
Qed.

End parser_facts.

(** *** The parser on concrete captures *)

Lemma first_line_marker_wraps_witness :
  let line := "Correct rate: (avg, std) (50.0%, 1.0%)" in
  let rest := ["noise"; "=== XOR gate ==="] in
  Str.contains marker line = true ∧
  ∃ final, last (line :: rest) = Some final ∧
    prev_line (line :: rest) line = Ok final ∧
    parse_line (line :: rest) line (∅ : gmap string Dec.t) =
      match matching_gate final with
      | Some gate =>
          accuracy ← line_accuracy line; Ok (<[gate := accuracy]> ∅)
      | None => Ok ∅
      end.
Proof.
  split; [reflexivity|].
  apply (first_line_marker_wraps_to_last_line
           "Correct rate: (avg, std) (50.0%, 1.0%)"
           ["noise"; "=== XOR gate ==="] ∅).
  reflexivity.
Defined.

Lemma marker_line_records_witness :
  let prev := "=== XOR gate ===" in
  let line := "Correct rate: (avg, std) (87.3%, 2.1%)" in
  matching_gate prev = Some "XOR" ∧
  (record_gate GATE_NAMES prev line (∅ : gmap string Dec.t) =
     match first_paren_number line with
     | Some run =>
         accuracy ← or_raise ValueError (float_of_str run);
         Ok (<["XOR" := accuracy]> ∅)
     | None => Raise AttributeError
     end ∧
   ∀ v, float_of_str "87.3" = Some v →
     parse_output
       ("=== XOR gate ===" +:+ Str.nl +:+
        "Correct rate: (avg, std) (87.3%, 2.1%)") = Ok {[ "XOR" := v ]}).
Proof.
  split; [reflexivity|].
  apply (marker_line_records_first_parenthesised_percentage
           "=== XOR gate ===" "Correct rate: (avg, std) (87.3%, 2.1%)"
           "XOR" ∅).
  reflexivity.
Defined.

(** C5, as stated, fails: on this marker line the first number before a
    percent sign is 50, yet the parser records 87.35, which is the number in
    parentheses and is kept with its two decimals. *)
Lemma first_percent_number_is_not_the_recorded_one :
  let line := "Correct rate: (avg, std) 50% (87.35%, 2.1%)" in
  let recorded := Dec.mk 8735 2 in
  spec_first_percent_number line = Some "50" ∧
  parse_output ("=== XOR gate ===" +:+ Str.nl +:+ line)
    = Ok {[ "XOR" := recorded ]} ∧
  float_of_str "50" ≠ Some recorded ∧
  float_gt recorded (Dec.mk 873 1) = true ∧
  float_gt (Dec.mk 874 1) recorded = true.
Proof. repeat split; try reflexivity. discriminate. Qed.

(** C3, on a capture the parser mishandles: two gates report the same
    marker line; the second marker is looked up where the first one stands,
    so it is recorded for AND again and OR gets no entry. *)
Theorem repeated_marker_line_is_read_at_its_first_occurrence :
  let capture := Demo.report "AND" "100.0" +:+ Demo.report "OR" "100.0" in
  let lines := Str.splitlines capture in
  let marker_line := "Correct rate: (avg, std) (100.0%, 0.0%)" in
  lines = ["=== AND gate ==="; marker_line; "=== OR gate ==="; marker_line] ∧
  prev_line lines marker_line = Ok "=== AND gate ===" ∧
  parse_output capture = Ok ({[ "AND" := Dec.mk 1000 1 ]} : gmap string Dec.t).
Proof. repeat split; reflexivity. Qed.

(** C10. A marker line under a gate header that holds no parenthesised
    percentage makes the parse raise [AttributeError]; the handler of
    [test_parameters] lets it through, so no mapping is returned. *)
Theorem parse_failure_escapes_test_parameters `{PyFloat}
    (threshold delay status : Z) :
  let capture :=
    "=== AND gate ===" +:+ Str.nl +:+ "Correct rate: (avg, std) n/a" +:+ Str.nl in
  let env := Demo.commands (λ _, 0) (λ _, Exited status capture) in
  parse_output capture = Raise AttributeError ∧
  (test_parameters env threshold delay Demo.start).1 = Raise AttributeError.
Proof. split; reflexivity. Qed.

(** C2, on runs the script does not contain: an executable that prints a
    report and exits with status 1 still has its report parsed, and an
    executable that cannot be started makes [test_parameters] raise. *)
Theorem failed_run_is_not_an_empty_capture :
  let crashed := Demo.commands (λ _, 0) (λ _, Exited 1 (Demo.report "AND" "50.0")) in
  let unlaunched := Demo.commands (λ _, 0) (λ _, NotLaunched) in
  (test_parameters crashed 100 32 Demo.start).1
    = Ok ({[ "AND" := Dec.mk 500 1 ]} : gmap string Dec.t) ∧
  (test_parameters (H := Dec.py_float) unlaunched 100 32 Demo.start).1
    = Raise OSError.
Proof. split; reflexivity. Qed.

(** ** Temporary files *)

Section temporaries.
Context `{PyFloat}.
Variable env : environment.

Lemma remove_if_exists_delete path st :
  remove_if_exists path st =
  (Ok (), OsState (delete path (files st)) (clock st)).
Proof.
  unfold remove_if_exists. destruct (decide (is_Some (files st !! path))) as [|Hn].
  - done.
  - rewrite delete_id; [by destruct st|].
    by apply eq_None_not_Some.
Qed.

Lemma bind_eq {St A B} (m : M St A) (f : A → M St B) st :
  (m ≫= f) st =
  match m st with
  | (Ok a, st') => f a st'
  | (Raise e, st') => (Raise e, st')
  end.
Proof. done. Qed.

Lemma bind_ok {St A B} (m : M St A) (f : A → M St B) st a st' :
  m st = (Ok a, st') → (m ≫= f) st = f a st'.
Proof. intros Hm. unfold mbind, M_bind. by rewrite Hm. Qed.

Lemma bind_raise {St A B} (m : M St A) (f : A → M St B) st e st' :
  m st = (Raise e, st') → (m ≫= f) st = (Raise e, st').
Proof. intros Hm. unfold mbind, M_bind. by rewrite Hm. Qed.

Lemma clean_up_deletes st :
  clean_up st =
  (Ok (), OsState (delete "gates/compose_temp.cpp"
                     (delete "main_temp.elf"
                        (delete "main_temp.cpp" (files st)))) (clock st)).
Proof.
  unfold clean_up.
  erewrite bind_ok by apply remove_if_exists_delete.
  erewrite bind_ok by apply remove_if_exists_delete.
  by rewrite remove_if_exists_delete.
Qed.

Lemma clean_up_binary_deletes gate_name st :
  clean_up_binary gate_name st =
  (Ok (), OsState (delete (temp_compose_file gate_name)
                     (delete (temp_main_file gate_name) (files st)))
            (clock st)).
Proof.
  unfold clean_up_binary.
  erewrite bind_ok by apply remove_if_exists_delete.
  by rewrite remove_if_exists_delete.
Qed.

Lemma try_finally_state {St A} (body : M St A) (cleanup : M St ()) st f :
  (∀ st', cleanup st' = (Ok (), f st')) →
  try_finally body cleanup st = ((body st).1, f (body st).2).
Proof.
  intros Hc. unfold try_finally. destruct (body st) as [r st'].
  by rewrite Hc.
Qed.

Lemma write_variant_ok threshold delay st content_compose content_main :
  files st !! "gates/compose.cpp" = Some content_compose →
  files st !! "main.cpp" = Some content_main →
  write_variant threshold delay st =
  (Ok (),
   OsState
     (<["main_temp.cpp" :=
          Re.sub include_re temp_include
            (set_parameters threshold delay content_main)]>
        (<["gates/compose_temp.cpp" :=
             set_parameters threshold delay content_compose]> (files st)))
     (clock st)).
Proof.
  intros Hc Hm. unfold write_variant.
  erewrite bind_ok; [|unfold read_file; by rewrite Hc].
  erewrite bind_ok; [|reflexivity].
  erewrite bind_ok; [|unfold read_file; simpl;
                      by rewrite lookup_insert_ne, Hm].
  reflexivity.
Qed.

Lemma temp_files_differ gate_name :
  temp_compose_file gate_name ≠ temp_main_file gate_name.
Proof. unfold temp_compose_file, temp_main_file. simpl. discriminate. Qed.

(** X26. Once both templates have been read (and, for an optimal binary,
    the gate is in the catalogue), the [try] is entered, and the generated
    sources and the temporary executable are gone when the operation is
    left, whatever the commands and the parse do: on success, on a failed
    build, on a failed run and on a parse error alike. *)
Theorem temporaries_are_deleted
    st content_compose content_main gate_name threshold delay :
  files st !! "gates/compose.cpp" = Some content_compose →
  files st !! "main.cpp" = Some content_main →
  is_Some (GATE_FUNCTIONS !! gate_name) →
  (let after := (test_parameters env threshold delay st).2 in
   files after !! "main_temp.cpp" = None ∧
   files after !! "main_temp.elf" = None ∧
   files after !! "gates/compose_temp.cpp" = None) ∧
  (let after := (create_optimized_binary env gate_name threshold delay st).2 in
   files after !! temp_main_file gate_name = None ∧
   files after !! temp_compose_file gate_name = None).
Proof.
  intros Hc Hm [[gate_function input_count] Hg]. split.
  - unfold test_parameters.
    erewrite bind_ok by (eapply write_variant_ok; eassumption).
    rewrite (try_finally_state _ _ _ _ clean_up_deletes). simpl.
    repeat split.
    + rewrite lookup_delete_ne, lookup_delete_ne by done.
      apply lookup_delete_eq.
    + rewrite lookup_delete_ne by done. apply lookup_delete_eq.
    + apply lookup_delete_eq.
  - unfold create_optimized_binary.
    erewrite bind_ok; [|unfold lift_result; by rewrite Hg].
    cbv beta iota.
    erewrite bind_ok; [|unfold read_file; by rewrite Hc].
    erewrite bind_ok; [|reflexivity].
    erewrite bind_ok.
    2:{ unfold read_file. cbn [files].
        rewrite lookup_insert_ne, Hm; [done|].
        unfold temp_compose_file. simpl. discriminate. }
    erewrite bind_ok; [|reflexivity].
    rewrite (try_finally_state _ _ _ _ (clean_up_binary_deletes gate_name)).
    simpl. split.
    + rewrite lookup_delete_ne by apply temp_files_differ.
      apply lookup_delete_eq.
    + apply lookup_delete_eq.
Qed.

End temporaries.

Lemma temporaries_are_deleted_witness :
  let env := Demo.commands (λ _, 1) (λ _, NotLaunched) in
  Demo.workdir !! "gates/compose.cpp" = Some Demo.compose_cpp ∧
  Demo.workdir !! "main.cpp" = Some Demo.main_cpp ∧
  is_Some (GATE_FUNCTIONS !! "NOT") ∧
  (let after :=
     (test_parameters (H := Dec.py_float) env 150 512 Demo.start).2 in
   files after !! "main_temp.cpp" = None ∧
   files after !! "main_temp.elf" = None ∧
   files after !! "gates/compose_temp.cpp" = None) ∧
  (let after := (create_optimized_binary env "NOT" 150 512 Demo.start).2 in
   files after !! temp_main_file "NOT" = None ∧
   files after !! temp_compose_file "NOT" = None).
Proof.
  split; [reflexivity|]. split; [reflexivity|]. split; [by eexists|].
  apply (temporaries_are_deleted (H := Dec.py_float)
           (Demo.commands (λ _, 1) (λ _, NotLaunched)) Demo.start
           Demo.compose_cpp Demo.main_cpp "NOT" 150 512);
    [reflexivity|reflexivity|by eexists].
Defined.

(** C6. The clean-up misses one exit path: both operations write the
    generated composition source before they enter the [try] whose [finally]
    removes it. When [main.cpp] cannot be read, each of them is left with an
    [OSError] before any command is run, and the composition source it has
    just created, which was not there before, stays behind. *)
Theorem generated_source_left_when_main_template_is_missing :
  let env := Demo.commands (λ _, 0) (λ _, Exited 0 EmptyString) in
  let st := OsState (<["gates/compose.cpp" := Demo.compose_cpp]> ∅) 0 in
  (let '(outcome, after) :=
     test_parameters (H := Dec.py_float) env 150 512 st in
   files st !! "gates/compose_temp.cpp" = None ∧
   outcome = Raise OSError ∧
   is_Some (files after !! "gates/compose_temp.cpp") ∧
   files after !! "gates/compose_temp.cpp"
     = Some (set_parameters 150 512 Demo.compose_cpp) ∧
   clock after = clock st) ∧
  (let '(outcome, after) := create_optimized_binary env "NOT" 150 512 st in
   files st !! temp_compose_file "NOT" = None ∧
   outcome = Raise OSError ∧
   is_Some (files after !! temp_compose_file "NOT") ∧
   files after !! temp_compose_file "NOT"
     = Some (optimized_compose 150 512 Demo.compose_cpp) ∧
   clock after = clock st).
Proof.
  split; vm_compute; (split; [done|]); (split; [done|]);
    (split; [by eexists|]); split; reflexivity.
Qed.

(** ** The selection of the best configuration *)

Section selector_facts.
Context `{PyFloatOrder}.

Lemma scan_row_zip threshold i accuracies best :
  scan_row threshold i accuracies best =
  foldl better best
    (zip_with (λ delay accuracy, BestConfig threshold delay accuracy)
       (drop i DELAYS) accuracies).
Proof.
  revert i best. induction accuracies as [|a rest IH]; intros i best.
  - by destruct (drop i DELAYS).
  - cbn [scan_row]. rewrite IH. destruct (DELAYS !! i) as [d|] eqn:Hd.
    + by rewrite (drop_S _ _ _ Hd).
    + apply lookup_ge_None in Hd.
      rewrite !drop_ge by lia. done.
Qed.

Lemma select_line_parse_row best line :
  select_line best line =
  match parse_row line with
  | Ok (Some row) => Ok (foldl better best (cells [row]))
  | Ok None => Ok best
  | Raise e => Raise e
  end.
Proof.
  unfold select_line, parse_row.
  destruct (Str.split (Str.strip line)) as [|first values]; [done|].
  destruct (Str.to_int first) as [threshold|]; [|done]. simpl.
  by rewrite scan_row_zip, app_nil_r.
Qed.

Lemma cells_cons row rows : cells (row :: rows) = cells [row] ++ cells rows.
Proof. unfold cells. simpl. by rewrite app_nil_r. Qed.

Lemma select_lines_parse_rows lines best :
  select_lines lines best =
  rows ← parse_rows lines; Ok (foldl better best (cells rows)).
Proof.
  revert best. induction lines as [|line lines IH]; intros best; [done|].
  cbn [select_lines parse_rows]. rewrite select_line_parse_row.
  destruct (parse_row line) as [[row|]|e]; [| |done].
  - cbn [mbind result_bind]. rewrite IH.
    destruct (parse_rows lines) as [rows|e]; [|done].
    cbn [mbind result_bind].
    by rewrite (cells_cons row rows), foldl_app.
  - cbn [mbind result_bind]. rewrite IH. by destruct (parse_rows lines).
Qed.

(** The running maximum over a list of cells: either nothing beats the
    starting value, or the result is the first cell of greatest accuracy. *)
Lemma foldl_better_first_maximum cs best :
  (Forall (λ c, float_gt (best_accuracy c) (best_accuracy best) = false) cs ∧
   foldl better best cs = best) ∨
  ∃ before after, cs = before ++ foldl better best cs :: after ∧
    float_gt (best_accuracy (foldl better best cs)) (best_accuracy best) = true ∧
    Forall (λ c, float_gt (best_accuracy (foldl better best cs))
                   (best_accuracy c) = true) before ∧
    Forall (λ c, float_gt (best_accuracy c)
                   (best_accuracy (foldl better best cs)) = false) after.
Proof.
  revert best. induction cs as [|c cs IH]; intros best.
  - left. by split.
  - cbn [foldl]. unfold better at 2 4 6 8 10.
    destruct (float_gt (best_accuracy c) (best_accuracy best)) eqn:Hc.
    + right. destruct (IH c) as [[Hall Hr]|(before & after & Hcs & Hgt & Hb & Ha)].
      * exists [], cs. rewrite Hr. split; [done|]. split; [done|].
        split; [constructor|done].
      * exists (c :: before), after. split; [by rewrite Hcs at 1|].
        split; [by eapply float_gt_trans|].
        split; [by constructor|done].
    + destruct (IH best) as [[Hall Hr]|(before & after & Hcs & Hgt & Hb & Ha)].
      * left. split; [by constructor|done].
      * right. exists (c :: before), after. split; [by rewrite Hcs at 1|].
        split; [done|]. split; [|done]. constructor; [|done].
        destruct (float_gt_cotrans _ (best_accuracy c) _ Hgt) as [?|Hcon];
          [done|congruence].
Qed.

Lemma cells_are_grid_points (rows : list (Z * list float)) c :
  c ∈ cells rows →
  best_threshold c ∈ rows.*1 ∧ best_delay c ∈ DELAYS.
Proof.
  unfold cells. intros Hc. apply list_elem_of_bind in Hc as (row & Hc & Hrow).
  apply elem_of_lookup_zip_with in Hc as (i & d & a & -> & Hd & _).
  split; simpl.
  - apply list_elem_of_fmap. by exists row.
  - by eapply list_elem_of_lookup_2.
Qed.

(** C1, amended. When some accuracy of the persisted matrix is greater than
    zero, the selected record is a grid point of the matrix, of maximal
    accuracy, and the first such point in row-major order: every cell before
    it is strictly smaller. When no accuracy is greater than zero, the record
    is threshold 0, delay 0, accuracy 0. *)
Theorem selector_picks_first_maximum text rows :
  matrix_of text = Ok rows →
  ∃ best, select_best text = Ok best ∧
    ((Forall (λ c, float_gt (best_accuracy c) float_zero = false) (cells rows) ∧
      best = BestConfig 0 0 float_zero) ∨
     (∃ before after, cells rows = before ++ best :: after ∧
        best_threshold best ∈ rows.*1 ∧ best_delay best ∈ DELAYS ∧
        float_gt (best_accuracy best) float_zero = true ∧
        Forall (λ c, float_gt (best_accuracy best) (best_accuracy c) = true)
          before ∧
        Forall (λ c, float_gt (best_accuracy c) (best_accuracy best) = false)
          after)).
Proof.
  intros Hrows. unfold matrix_of in Hrows. unfold select_best.
  rewrite select_lines_parse_rows, Hrows. simpl.
  eexists. split; [done|].
  destruct (foldl_better_first_maximum (cells rows) (BestConfig 0 0 float_zero))
    as [[Hall Hr]|(before & after & Hcs & Hgt & Hb & Ha)].
  - left. by split.
  - right. exists before, after. split; [done|].
    assert (Hin : foldl better (BestConfig 0 0 float_zero) (cells rows)
                  ∈ cells rows).
    { rewrite Hcs at 2. apply elem_of_app. right. by left. }
    apply cells_are_grid_points in Hin as [??]. by repeat split.
Qed.

End selector_facts.

(** *** The exact decimals are ordered as the selector needs *)

Lemma dec_pow_pos (n : nat) : (0 < 10 ^ N.of_nat n)%N.
Proof. apply N.neq_0_lt_0, N.pow_nonzero. done. Qed.

#[global] Instance dec_float_order : PyFloatOrder (H := Dec.py_float).
Proof.
  split.
  - intros a. apply N.ltb_irrefl.
  - intros [ma sa] [mb sb] [mc sc]. simpl. unfold Dec.gt. simpl.
    rewrite !N.ltb_lt.
    pose proof (dec_pow_pos sa). pose proof (dec_pow_pos sb).
    pose proof (dec_pow_pos sc).
    generalize dependent (10 ^ N.of_nat sa)%N.
    generalize dependent (10 ^ N.of_nat sb)%N.
    generalize dependent (10 ^ N.of_nat sc)%N.
    intros pc Hpc pb Hpb pa Hpa H1 H2.
    assert (mc * pa * pb < ma * pc * pb)%N by nia. nia.
  - intros [ma sa] [mb sb] [mc sc]. simpl. unfold Dec.gt. simpl.
    rewrite !N.ltb_lt.
    pose proof (dec_pow_pos sa). pose proof (dec_pow_pos sb).
    pose proof (dec_pow_pos sc).
    generalize dependent (10 ^ N.of_nat sa)%N.
    generalize dependent (10 ^ N.of_nat sb)%N.
    generalize dependent (10 ^ N.of_nat sc)%N.
    intros pc Hpc pb Hpb pa Hpa H1.
    destruct (N.lt_ge_cases (mb * pa) (ma * pb)) as [|Hab]; [by left|].
    right.
    destruct (N.lt_ge_cases (mc * pb) (mb * pc)) as [|Hbc]; [done|].
    exfalso.
    assert (ma * pb * pc <= mc * pb * pa)%N by nia. nia.
Qed.

Example two_maxima_first_wins :
  select_best Demo.two_maxima = Ok (BestConfig 100 48 (Dec.mk 873 1)).
Proof. reflexivity. Qed.

Lemma selector_picks_first_maximum_witness :
  let rows := [(100, [Dec.mk 500 1; Dec.mk 873 1]);
               (125, [Dec.mk 873 1; Dec.mk 100 1])] in
  matrix_of Demo.two_maxima = Ok rows ∧
  ∃ best, select_best Demo.two_maxima = Ok best ∧
    ((Forall (λ c, float_gt (best_accuracy c) float_zero = false) (cells rows) ∧
      best = BestConfig 0 0 float_zero) ∨
     (∃ before after, cells rows = before ++ best :: after ∧
        best_threshold best ∈ rows.*1 ∧ best_delay best ∈ DELAYS ∧
        float_gt (best_accuracy best) float_zero = true ∧
        Forall (λ c, float_gt (best_accuracy best) (best_accuracy c) = true)
          before ∧
        Forall (λ c, float_gt (best_accuracy c) (best_accuracy best) = false)
          after)).
Proof.
  split; [reflexivity|].
  apply (selector_picks_first_maximum (H := Dec.py_float) Demo.two_maxima).
  reflexivity.
Defined.

(** C1, as stated, fails: after a sweep in which every build fails, each
    matrix holds 0.0 everywhere and the record selected for a gate is
    threshold 0 and delay 0, which is no grid point. *)
Lemma all_zero_matrix_selects_no_grid_point :
  let env := Demo.commands (λ _, 1) (λ _, NotLaunched) in
  let run := main (H := Dec.py_float) env (SweepState Demo.start ∅) in
  run.1 = Ok ((λ gate, (gate, BestConfig 0 0 (Dec.mk 0 0))) <$> GATE_NAMES) ∧
  matrix_of <$> (result_files run.2 !! results_path "AND") =
    Some (Ok ((λ threshold, (threshold, replicate 9 (Dec.mk 0 1)))
                <$> THRESHOLDS)) ∧
  (0 ∉ THRESHOLDS) ∧ (0 ∉ DELAYS).
Proof.
  split; [vm_compute; reflexivity|]. split; [vm_compute; reflexivity|].
  split; intros Hin; vm_compute in Hin;
    repeat (apply elem_of_cons in Hin as [Hin|Hin]; [done|]);
    by apply elem_of_nil in Hin.
Qed.

(** ** The sweep *)

Lemma gate_names_nodup : NoDup GATE_NAMES.
Proof. apply (bool_decide_unpack _). by vm_compute. Qed.

Lemma results_paths_nodup : NoDup (results_path <$> GATE_NAMES).
Proof. apply (bool_decide_unpack _). by vm_compute. Qed.

Lemma map_m_length {St A B} (f : A → M St B) l st ys st' :
  map_m f l st = (Ok ys, st') → length ys = length l.
Proof.
  revert st ys st'. induction l as [|x l IH]; intros st ys st'; simpl.
  - by intros [= <- _].
  - unfold mbind, M_bind. destruct (f x st) as [[y|e] st1]; [|done].
    destruct (map_m f l st1) as [[ys'|e] st2] eqn:Hl; [|done].
    intros [= <- _]. simpl. f_equal. by eapply IH.
Qed.


Lemma foldl_alter_lookup (f : string → string → string) gates
    (rows : gmap string string) gate :
  NoDup gates →
  foldl (λ rows g, alter (f g) g rows) rows gates !! gate =
  if decide (gate ∈ gates) then f gate <$> rows !! gate else rows !! gate.
Proof.
  revert rows. induction gates as [|g gates IH]; intros rows Hnd; [done|].
  apply NoDup_cons in Hnd as [Hg Hnd]. simpl. rewrite IH by done.
  destruct (decide (gate = g)) as [->|Hne].
  - rewrite decide_False by done. rewrite decide_True by left.
    apply lookup_alter_eq.
  - rewrite lookup_alter_ne by done.
    destruct (decide (gate ∈ gates)).
    + by rewrite decide_True by by right.
    + rewrite decide_False; [done|]. by intros [?|?]%elem_of_cons.
Qed.

Section sweep_facts.
Context `{PyFloat}.
Variable env : environment.

Lemma add_cells_lookup gate_accuracies rows gate :
  gate ∈ GATE_NAMES →
  add_cells gate_accuracies rows !! gate =
  (λ row, row +:+ cell gate_accuracies gate) <$> rows !! gate.
Proof.
  intros Hg. unfold add_cells.
  rewrite (foldl_alter_lookup (λ g row, row +:+ cell gate_accuracies g))
    by apply gate_names_nodup.
  by rewrite decide_True.
Qed.

Lemma rows_lookup res rows row gate :
  gate ∈ GATE_NAMES → rows !! gate = Some row →
  foldl (λ rows gate_accuracies, add_cells gate_accuracies rows) rows res !! gate
  = Some (foldl (λ text gate_accuracies, text +:+ cell gate_accuracies gate)
            row res).
Proof.
  intros Hg. revert rows row. induction res as [|ga res IH]; intros rows row Hr.
  - done.
  - simpl. apply IH. by rewrite add_cells_lookup, Hr.
Qed.

Lemma new_rows_lookup threshold gate :
  gate ∈ GATE_NAMES →
  new_rows threshold !! gate = Some (Str.ljust 10 (pretty threshold)).
Proof.
  intros Hg. unfold new_rows. apply elem_of_list_to_map_1.
  - exact gate_names_nodup.
  - apply list_elem_of_fmap. by exists gate.
Qed.

(** The loop over the delays runs one measurement per delay, in order, and
    leaves the result files alone. *)
Lemma row_loop threshold delays rows o rf :
  for_each delays
    (λ rows delay,
       gate_accuracies ← lift_os (test_parameters env threshold delay);
       mret (add_cells gate_accuracies rows)) rows (SweepState o rf) =
  match map_m (test_parameters env threshold) delays o with
  | (Ok res, o') =>
      (Ok (foldl (λ rows ga, add_cells ga rows) rows res), SweepState o' rf)
  | (Raise e, o') => (Raise e, SweepState o' rf)
  end.
Proof.
  revert rows o. induction delays as [|delay delays IH]; intros rows o; [done|].
  cbn [for_each map_m]. rewrite !bind_eq. unfold lift_os at 1. cbn [os result_files].
  destruct (test_parameters env threshold delay o) as [[ga|e] o1]; [|done].
  cbn [mret M_ret]. rewrite IH, bind_eq.
  by destruct (map_m (test_parameters env threshold) delays o1) as [[res|e] o2].
Qed.

(** A loop over the gates that rewrites each gate's file once. *)
Lemma gate_loop (upd : string → option string → string) gates
    (body : () → string → M sweep_state ()) o rf :
  (∀ gate o rf, gate ∈ gates →
     body () gate (SweepState o rf) =
     (Ok (), SweepState o
               (<[results_path gate := upd gate (rf !! results_path gate)]> rf))) →
  NoDup (results_path <$> gates) →
  ∃ rf', for_each gates body () (SweepState o rf) = (Ok (), SweepState o rf') ∧
    (∀ gate, gate ∈ gates →
       rf' !! results_path gate = Some (upd gate (rf !! results_path gate))) ∧
    (∀ path, path ∉ results_path <$> gates → rf' !! path = rf !! path).
Proof.
  revert rf. induction gates as [|g gates IH]; intros rf Hbody Hnd.
  - exists rf. split; [done|]. split; [|done]. by intros gate ?%elem_of_nil.
  - rewrite fmap_cons in Hnd. apply NoDup_cons in Hnd as [Hg Hnd].
    destruct (IH (<[results_path g := upd g (rf !! results_path g)]> rf))
      as (rf' & Hrun & Hin & Hout).
    { intros gate o' rf0 Hgate. apply Hbody. by right. }
    { done. }
    exists rf'. split; [|split].
    + cbn [for_each].
      erewrite bind_ok by (apply Hbody; left). exact Hrun.
    + intros gate [->|Hgate]%elem_of_cons.
      * rewrite Hout by done. apply lookup_insert_eq.
      * rewrite (Hin gate Hgate). rewrite lookup_insert_ne; [done|].
        intros Heq. apply Hg. rewrite Heq. by apply list_elem_of_fmap_2.
    + intros path Hpath. rewrite fmap_cons in Hpath.
      apply not_elem_of_cons in Hpath as [Hne Hpath].
      rewrite (Hout path Hpath). by rewrite lookup_insert_ne.
Qed.

Lemma open_result_files_heads st :
  ∃ rf, open_result_files st = (Ok (), SweepState (os st) rf) ∧
    ∀ gate, gate ∈ GATE_NAMES → rf !! results_path gate = Some (file_head gate).
Proof.
  destruct st as [o rf0].
  destruct (gate_loop (λ gate _, file_head gate) GATE_NAMES
              (λ _ gate,
                 open_result_file (results_path gate);;
                 write_result (results_path gate)
                   ("# Results for " +:+ gate +:+ " gate" +:+ Str.nl);;
                 write_result (results_path gate) (header +:+ Str.nl)) o rf0)
    as (rf & Hrun & Hin & _).
  - intros gate o' rf' _.
    unfold mbind, M_bind, open_result_file, write_result. simpl.
    rewrite !lookup_insert_eq, !insert_insert_eq. done.
  - apply results_paths_nodup.
  - exists rf. split; [exact Hrun|]. intros gate Hg. by rewrite (Hin gate Hg).
Qed.

Lemma flush_rows_appends rows (row_of : string → string) o rf :
  (∀ gate, gate ∈ GATE_NAMES → rows !! gate = Some (row_of gate)) →
  ∃ rf', flush_rows rows (SweepState o rf) = (Ok (), SweepState o rf') ∧
    ∀ gate, gate ∈ GATE_NAMES →
      rf' !! results_path gate =
      Some (default EmptyString (rf !! results_path gate) +:+
            (row_of gate +:+ Str.nl)).
Proof.
  intros Hrows.
  destruct (gate_loop
              (λ gate old, default EmptyString old +:+ (row_of gate +:+ Str.nl))
              GATE_NAMES
              (λ _ gate,
                 row ← lift_result (or_raise KeyError (rows !! gate));
                 write_result (results_path gate) (row +:+ Str.nl)) o rf)
    as (rf' & Hrun & Hin & _).
  - intros gate o' rf0 Hg.
    unfold mbind, M_bind, lift_result. by rewrite (Hrows gate Hg).
  - apply results_paths_nodup.
  - exists rf'. by split.
Qed.

Lemma sweep_row_ok threshold o rf st' :
  sweep_row env threshold (SweepState o rf) = (Ok (), st') →
  ∃ res, measure_row env threshold o = (Ok res, os st') ∧
    length res = length DELAYS ∧
    ∀ gate, gate ∈ GATE_NAMES →
      result_files st' !! results_path gate =
      Some (default EmptyString (rf !! results_path gate) +:+
            row_text gate (threshold, res)).
Proof.
  unfold sweep_row, measure_row. unfold mbind at 1, M_bind at 1.
  rewrite row_loop.
  destruct (map_m (test_parameters env threshold) DELAYS o)
    as [[res|e] o'] eqn:Hm; [|done].
  destruct (flush_rows_appends
              (foldl (λ rows ga, add_cells ga rows) (new_rows threshold) res)
              (λ gate, foldl (λ text ga, text +:+ cell ga gate)
                         (Str.ljust 10 (pretty threshold)) res) o' rf)
    as (rf' & Hrun & Hin).
  { intros gate Hg. apply rows_lookup; [done|]. by apply new_rows_lookup. }
  rewrite Hrun. intros [= <-]. exists res. split; [done|].
  split; [by eapply map_m_length|]. exact Hin.
Qed.

Lemma sweep_ok thresholds (heads : string → string) o rf st' :
  (∀ gate, gate ∈ GATE_NAMES → rf !! results_path gate = Some (heads gate)) →
  for_each thresholds (λ _ threshold, sweep_row env threshold) ()
    (SweepState o rf) = (Ok (), st') →
  ∃ grid,
    map_m (λ threshold, row ← measure_row env threshold; mret (threshold, row))
      thresholds o = (Ok grid, os st') ∧
    Forall (λ row, length row.2 = length DELAYS) grid ∧
    ∀ gate, gate ∈ GATE_NAMES →
      result_files st' !! results_path gate =
      Some (foldl (λ text row, text +:+ row_text gate row) (heads gate) grid).
Proof.
  revert heads o rf. induction thresholds as [|t ts IH]; intros heads o rf Hh.
  - intros [= <-]. exists []. split; [done|]. split; [constructor|done].
  - cbn [for_each]. unfold mbind at 1, M_bind at 1.
    destruct (sweep_row env t (SweepState o rf)) as [[[]|e] [o1 rf1]] eqn:Hrow;
      [|done].
    apply sweep_row_ok in Hrow as (res & Hres & Hlen & Hrf1). simpl in *.
    intros Hrest.
    apply (IH (λ gate, heads gate +:+ row_text gate (t, res))) in Hrest
      as (grid & Hgrid & Hlens & Hfiles).
    2:{ intros gate Hg. by rewrite (Hrf1 gate Hg), (Hh gate Hg). }
    exists ((t, res) :: grid). split; [|split].
    + cbn [map_m]. unfold mbind, M_bind, mret, M_ret in *.
      by rewrite Hres, Hgrid.
    + by constructor.
    + intros gate Hg. by rewrite (Hfiles gate Hg).
Qed.

End sweep_facts.

(** *** Reading a row back *)

Lemma str_app_cons x (a b : string) : String x a +:+ b = String x (a +:+ b).
Proof. done. Qed.

Lemma str_app_nil_l (a : string) : EmptyString +:+ a = a.
Proof. done. Qed.

Lemma str_app_assoc (a b c : string) : (a +:+ b) +:+ c = a +:+ (b +:+ c).
Proof. induction a as [|x a IH]; [done|]. rewrite !str_app_cons. by f_equal. Qed.

Lemma str_app_nil_r (a : string) : a +:+ EmptyString = a.
Proof. induction a as [|x a IH]; [done|]. rewrite str_app_cons. by f_equal. Qed.

Lemma foldl_append {A} (f : A → string) (l : list A) (init : string) :
  foldl (λ text x, text +:+ f x) init l =
  init +:+ foldl (λ text x, text +:+ f x) EmptyString l.
Proof.
  revert init. induction l as [|x l IH]; intros init; simpl.
  - by rewrite str_app_nil_r.
  - rewrite IH, (IH (_ +:+ f x)), str_app_nil_l. by rewrite str_app_assoc.
Qed.

Lemma split_go_cons c s :
  Str.is_space c = false →
  Str.split_go (String c s) =
  (String c (Str.split_go s).1, (Str.split_go s).2).
Proof. intros Hc. simpl. rewrite Hc. by destruct (Str.split_go s). Qed.

Lemma split_go_blank c s :
  Str.is_space c = true →
  Str.split_go (String c s) =
  (EmptyString, Str.push_token (Str.split_go s).1 (Str.split_go s).2).
Proof. intros Hc. simpl. rewrite Hc. by destruct (Str.split_go s). Qed.

Lemma split_cons_blank c s :
  Str.is_space c = true → Str.split (String c s) = Str.split s.
Proof.
  intros Hc. unfold Str.split. rewrite split_go_blank by done.
  by destruct (Str.split_go s) as [[|] rest].
Qed.

Lemma split_blank_prefix sp s :
  all_chars Str.is_space sp = true → Str.split (sp +:+ s) = Str.split s.
Proof.
  induction sp as [|c sp IH]; [done|]. cbn [all_chars].
  intros [Hc Hsp]%andb_prop.
  rewrite str_app_cons, split_cons_blank by done. auto.
Qed.

Lemma split_lstrip s : Str.split (Str.lstrip s) = Str.split s.
Proof.
  induction s as [|c s IH]; [done|]. simpl.
  destruct (Str.is_space c) eqn:Hc; [|done].
  by rewrite split_cons_blank.
Qed.

Lemma split_go_rstrip s : Str.split_go (Str.rstrip s) = Str.split_go s.
Proof.
  induction s as [|c s IH]; [done|]. cbn [Str.rstrip].
  destruct (Str.rstrip s) as [|d r] eqn:Hr.
  - destruct (Str.is_space c) eqn:Hc.
    + rewrite split_go_blank, <- IH by done. done.
    + rewrite (split_go_cons c s), <- IH by done. simpl. by rewrite Hc.
  - destruct (Str.is_space c) eqn:Hc.
    + rewrite (split_go_blank c (String d r)), (split_go_blank c s) by done.
      by rewrite IH.
    + rewrite (split_go_cons c (String d r)), (split_go_cons c s) by done.
      by rewrite IH.
Qed.

(** Blanks around a line do not change its tokens. *)
Lemma split_strip s : Str.split (Str.strip s) = Str.split s.
Proof.
  unfold Str.strip, Str.split at 1. rewrite split_go_rstrip.
  apply split_lstrip.
Qed.

Lemma split_go_token tok s :
  all_chars (λ c, negb (Str.is_space c)) tok = true →
  Str.split_go (tok +:+ s) =
  (tok +:+ (Str.split_go s).1, (Str.split_go s).2).
Proof.
  induction tok as [|c tok IH].
  { intros _. rewrite !str_app_nil_l. by destruct (Str.split_go s). }
  cbn [all_chars]. intros [Hc Htok]%andb_prop.
  apply negb_true_iff in Hc.
  rewrite str_app_cons, split_go_cons, IH by done. done.
Qed.

(** A token followed by a blank is the first one read. *)
Lemma split_token tok c s :
  tok ≠ EmptyString →
  all_chars (λ c, negb (Str.is_space c)) tok = true →
  Str.is_space c = true →
  Str.split (tok +:+ String c s) = tok :: Str.split s.
Proof.
  intros Hne Htok Hc. rewrite <- (split_cons_blank c s) by done.
  unfold Str.split. rewrite split_go_token, split_go_blank by done.
  cbn [fst snd]. rewrite str_app_nil_r.
  by destruct tok.
Qed.

Lemma blank_padding n :
  all_chars Str.is_space (string_of_list_ascii (replicate n " "%char)) = true.
Proof. induction n as [|n IH]; [done|]. simpl. exact IH. Qed.

(** A cell whose text fits is read back as that text. *)
Lemma split_ljust s rest :
  fits_cell s = true →
  Str.split (Str.ljust 10 s +:+ rest) = s :: Str.split rest.
Proof.
  unfold fits_cell. intros [[Hne Htok]%andb_prop Hlen]%andb_prop.
  apply Nat.ltb_lt in Hlen.
  unfold Str.ljust. rewrite str_app_assoc.
  destruct (10 - String.length s)%nat as [|n] eqn:Hn; [lia|].
  cbn [replicate string_of_list_ascii]. rewrite str_app_cons.
  rewrite split_token, split_blank_prefix; [done|apply blank_padding| |done..].
  by destruct s.
Qed.

Lemma foldl_foldr_append {A} (f : A → string) (l : list A) (init tail : string) :
  foldl (λ text x, text +:+ f x) init l +:+ tail =
  init +:+ foldr (λ x acc, f x +:+ acc) tail l.
Proof.
  revert init. induction l as [|x l IH]; intros init; simpl; [done|].
  by rewrite IH, str_app_assoc.
Qed.

Lemma split_cells {A} (f : A → string) (l : list A) :
  Forall (λ x, fits_cell (f x) = true) l →
  Str.split (foldr (λ x acc, Str.ljust 10 (f x) +:+ acc) Str.nl l) = f <$> l.
Proof.
  induction 1 as [|x l Hx Hl IH]; [done|]. simpl.
  by rewrite split_ljust, IH.
Qed.

Lemma thresholds_listed :
  THRESHOLDS = [100; 125; 150; 175; 200; 225; 250; 275; 300].
Proof. reflexivity. Qed.

Section matrix_facts.
Context `{PyFloat}.
Variable env : environment.

Lemma threshold_fits t : t ∈ THRESHOLDS → fits_cell (pretty t) = true.
Proof.
  rewrite thresholds_listed. intros Ht.
  repeat (apply elem_of_cons in Ht as [->|Ht]; [by vm_compute|]).
  by apply elem_of_nil in Ht.
Qed.

Lemma threshold_reads_back t :
  t ∈ THRESHOLDS → Str.to_int (pretty t) = Some t.
Proof.
  rewrite thresholds_listed. intros Ht.
  repeat (apply elem_of_cons in Ht as [->|Ht]; [by vm_compute|]).
  by apply elem_of_nil in Ht.
Qed.

Lemma row_reads_back gate (row : Z * list (gmap string float)) :
  row.1 ∈ THRESHOLDS →
  (∃ values,
     Str.split (Str.strip (row_text gate row)) = pretty row.1 :: values ∧
     Str.to_int (pretty row.1) = Some row.1) ∧
  (Forall (λ measured, fits_cell (cell_text measured gate) = true) row.2 →
   Str.split (Str.strip (row_text gate row)) =
   pretty row.1 :: ((λ measured, cell_text measured gate) <$> row.2)).
Proof.
  destruct row as [t res]. cbn [fst snd]. intros Ht.
  rewrite split_strip. unfold row_text. cbn [fst snd].
  rewrite (foldl_foldr_append (λ measured, cell measured gate)).
  rewrite split_ljust by by apply threshold_fits.
  split.
  - eexists. split; [done|]. by apply threshold_reads_back.
  - intros Hfit. f_equal. by apply (split_cells (λ m, cell_text m gate)).
Qed.


End matrix_facts.


(** ** What the handler of [test_parameters] contains *)

Section handler.
Context `{PyFloat}.
Variable env : environment.

(** Only a checked command that exits with a nonzero status is turned into
    an empty mapping; every other outcome of the build, the run and the
    parse is the outcome of [test_parameters]. *)
Lemma test_parameters_outcome st content_compose content_main threshold delay :
  files st !! "gates/compose.cpp" = Some content_compose →
  files st !! "main.cpp" = Some content_main →
  ∃ st1, write_variant threshold delay st = (Ok (), st1) ∧
    (test_parameters env threshold delay st).1 =
    match (build_run_parse env st1).1 with
    | Raise CalledProcessError => Ok ∅
    | outcome => outcome
    end.
Proof.
  intros Hc Hm. eexists. split; [by eapply write_variant_ok|].
  unfold test_parameters.
  erewrite bind_ok by (by eapply write_variant_ok).
  rewrite (try_finally_state _ _ _ _ clean_up_deletes).
  unfold try_except_called_process_error. cbn [fst].
  destruct (build_run_parse env _) as [[m|[]] st2]; done.
Qed.

End handler.

(** C4, on runs the sweep does not contain: when the executable of the first
    grid point prints a report and exits with status 1, the reported value,
    not 0.0, is written for that grid point; when it cannot be started, the
    sweep is left with [OSError] after four commands, with no row written. *)
Theorem failed_run_is_neither_zeroed_nor_contained :
  let crashed := Demo.commands (λ _, 0)
    (λ n, if decide (n = 3%nat) then Exited 1 (Demo.report "AND" "50.0")
          else Exited 0 EmptyString) in
  let unlaunched := Demo.commands (λ _, 0)
    (λ n, if decide (n = 3%nat) then NotLaunched else Exited 0 EmptyString) in
  let st := SweepState Demo.start ∅ in
  matrix_of (H := Dec.py_float)
    <$> (result_files (main (H := Dec.py_float) crashed st).2
           !! results_path "AND") =
    Some (Ok ((100, Dec.mk 500 1 :: replicate 8 (Dec.mk 0 1)) ::
              ((λ t, (t, replicate 9 (Dec.mk 0 1))) <$> tail THRESHOLDS))) ∧
  (main (H := Dec.py_float) unlaunched st).1 = Raise OSError ∧
  clock (os (main (H := Dec.py_float) unlaunched st).2) = 4%nat ∧
  result_files (main (H := Dec.py_float) unlaunched st).2 !! results_path "AND"
    = Some (file_head "AND").
Proof. repeat split; vm_compute; reflexivity. Qed.

(** ** The generated texts *)

Lemma match_here_dot p s :
  Re.match_here (Re.Dot :: p) s =
  match s with
  | String a s' =>
      if Str.eqb_char a "010" then None else S <$> Re.match_here p s'
  | EmptyString => None
  end.
Proof. by destruct s. Qed.

Lemma str_length_app (a b : string) :
  String.length (a +:+ b) = (String.length a + String.length b)%nat.
Proof. induction a as [|x a IH]; [done|]. rewrite str_app_cons. simpl. lia. Qed.

(** A match covers a prefix whose characters past the first atom's are all accepted. *)
Lemma match_here_accepted body s n :
  Re.match_here body s = Some n →
  ∃ w rest, s = w +:+ rest ∧ String.length w = n ∧
            all_chars (accepts body) w = true.
Proof.
  revert s n. induction body as [|at_ body IH]; intros s n.
  - rewrite match_here_nil. intros [= <-]. by exists EmptyString, s.
  - assert (Hmono : ∀ w, all_chars (accepts body) w = true →
                         all_chars (accepts (at_ :: body)) w = true).
    { intros w. induction w as [|c w IHw]; [done|]. simpl.
      intros [Hc Hw]%andb_prop. rewrite Hc, orb_true_r. simpl. by apply IHw. }
    destruct at_ as [x| |cls].
    + rewrite match_here_chr. destruct s as [|c s]; [done|].
      destruct (Str.eqb_char c x) eqn:Hc; [|done].
      destruct (Re.match_here body s) as [n'|] eqn:Hm; [|done].
      intros [= <-]. apply IH in Hm as (w & rest & -> & Hlen & Hall).
      exists (String c w), rest. split; [done|]. split; [simpl; lia|].
      simpl. rewrite Hc. simpl. by apply Hmono.
    + rewrite match_here_dot. destruct s as [|c s]; [done|].
      destruct (Str.eqb_char c "010") eqn:Hc; [done|].
      destruct (Re.match_here body s) as [n'|] eqn:Hm; [|done].
      intros [= <-]. apply IH in Hm as (w & rest & -> & Hlen & Hall).
      exists (String c w), rest. split; [done|]. split; [simpl; lia|].
      simpl. rewrite Hc. simpl. by apply Hmono.
    + revert n. induction s as [|c s IHs]; intros n; rewrite match_here_plus; [done|].
      destruct (cls c) eqn:Hc; [|done].
      destruct (Re.match_here (Re.Plus cls :: body) s) as [n1|] eqn:Hrun.
      * intros [= <-]. destruct (IHs n1 eq_refl) as (w & rest & -> & Hlen & Hall).
        exists (String c w), rest. split; [done|]. split; [simpl; lia|].
        simpl. by rewrite Hc, Hall.
      * destruct (Re.match_here body s) as [n'|] eqn:Hm; [|done].
        intros [= <-]. apply IH in Hm as (w & rest & -> & Hlen & Hall).
        exists (String c w), rest. split; [done|]. split; [simpl; lia|].
        simpl. rewrite Hc. simpl. by apply Hmono.
Qed.

Lemma sub_from_skip p r x y :
  Re.sub_from p r (String.length x) (x +:+ y) = Re.sub_from p r 0 y.
Proof. induction x as [|c x IH]; [done|]. rewrite str_app_cons. simpl. exact IH. Qed.

Lemma findall_from_skip p x y :
  Re.findall_from p (String.length x) (x +:+ y) = Re.findall_from p 0 y.
Proof. induction x as [|c x IH]; [done|]. rewrite str_app_cons. simpl. exact IH. Qed.

Lemma substring_app_l x y : String.substring 0 (String.length x) (x +:+ y) = x.
Proof.
  induction x as [|c x IH]; [by destruct y|].
  rewrite str_app_cons. simpl. by rewrite IH.
Qed.

Lemma sub_match p r x y :
  x ≠ EmptyString → Re.match_here p (x +:+ y) = Some (String.length x) →
  Re.sub p r (x +:+ y) = r +:+ Re.sub p r y.
Proof.
  destruct x as [|c x]; [done|]. intros _ Hm. unfold Re.sub.
  rewrite str_app_cons in *. cbn [Re.sub_from]. rewrite Hm. cbn [String.length].
  by rewrite sub_from_skip.
Qed.

Lemma sub_nomatch p r c s :
  Re.match_here p (String c s) = None →
  Re.sub p r (String c s) = String c (Re.sub p r s).
Proof. intros Hm. unfold Re.sub. cbn [Re.sub_from]. by rewrite Hm. Qed.

Lemma findall_match p x y :
  x ≠ EmptyString → Re.match_here p (x +:+ y) = Some (String.length x) →
  Re.findall p (x +:+ y) = x :: Re.findall p y.
Proof.
  destruct x as [|c x]; [done|]. intros _ Hm. unfold Re.findall.
  pose proof (substring_app_l (String c x) y) as Hsub.
  rewrite str_app_cons in *. cbn [Re.findall_from]. rewrite Hm.
  cbn [String.length] in *. rewrite Hsub. by rewrite findall_from_skip.
Qed.

Lemma findall_nomatch p c s :
  Re.match_here p (String c s) = None →
  Re.findall p (String c s) = Re.findall p s.
Proof. intros Hm. unfold Re.findall. cbn [Re.findall_from]. by rewrite Hm. Qed.

Lemma opaque_app p a b : opaque p a → opaque p b → opaque p (a +:+ b).
Proof.
  induction a as [|c a IH]; [done|]. intros [Hc Ha] Hb.
  rewrite str_app_cons. split; [|by apply IH].
  intros y. specialize (Hc (b +:+ y)).
  by rewrite !str_app_cons, <- str_app_assoc in *.
Qed.

Lemma opaque_chars a body x :
  all_chars (λ c, negb (Str.eqb_char c a)) x = true →
  opaque (Re.Chr a :: body) x.
Proof.
  induction x as [|c x IH]; [done|]. simpl. intros [Hc Hx]%andb_prop.
  split; [|by apply IH]. intros y. rewrite str_app_cons, match_here_chr.
  by destruct (Str.eqb_char c a).
Qed.

Lemma sub_skip q r x y : opaque q x → Re.sub q r (x +:+ y) = x +:+ Re.sub q r y.
Proof.
  induction x as [|c x IH]; [done|]. intros [Hc Hx].
  rewrite !str_app_cons. rewrite sub_nomatch.
  - by rewrite IH.
  - rewrite <- str_app_cons. apply Hc.
Qed.

Lemma findall_skip p x y : opaque p x → Re.findall p (x +:+ y) = Re.findall p y.
Proof.
  induction x as [|c x IH]; [done|]. intros [Hc Hx].
  rewrite !str_app_cons. rewrite findall_nomatch; [by apply IH|].
  rewrite <- str_app_cons. apply Hc.
Qed.

Lemma match_here_chr_head a body s n :
  Re.match_here (Re.Chr a :: body) s = Some n →
  ∃ s' n', s = String a s' ∧ n = S n' ∧ Re.match_here body s' = Some n'.
Proof.
  rewrite match_here_chr. destruct s as [|c s]; [done|].
  destruct (Str.eqb_char c a) eqn:Hc; [|done].
  apply Ascii.eqb_eq in Hc as ->.
  destruct (Re.match_here body s) as [n'|] eqn:Hb; simpl; [|done].
  intros [= <-]. exists s, n'. by repeat split.
Qed.

Lemma sub_head a body r' s :
  head_char (Re.sub (Re.Chr a :: body) (String a r') s) = head_char s.
Proof.
  destruct s as [|c s]; [done|]. unfold Re.sub. cbn [Re.sub_from].
  destruct (Re.match_here (Re.Chr a :: body) (String c s)) as [[|n]|] eqn:Hm; [done| |done].
  apply match_here_chr_head in Hm as (s' & n' & [= -> ->] & _). done.
Qed.

(** The head of a string that no atom of [body] accepts stops every suffix of [body]. *)
Lemma match_here_rejected body b s :
  accepts body b = false → body ≠ [] → Re.match_here body (String b s) = None.
Proof.
  destruct body as [|at_ body]; [done|]. unfold accepts. simpl.
  intros [Hb _]%orb_false_elim _. destruct at_ as [x| |cls]; simpl in Hb.
  - rewrite match_here_chr. by rewrite Hb.
  - rewrite match_here_dot. by destruct (Str.eqb_char b "010").
  - rewrite match_here_plus. by rewrite Hb.
Qed.

Lemma accepts_drop body k b : accepts body b = false → accepts (drop k body) b = false.
Proof.
  revert k. induction body as [|at_ body IH]; intros k; [by destruct k|].
  destruct k; [done|]. unfold accepts. simpl. intros [_ ?]%orb_false_elim. by apply IH.
Qed.

(** Substituting in the tail of a string does not change how [body] matches,
    as long as a match of [q] and the replacement look the same to every
    suffix of [body]. *)
Lemma match_here_sub q r body :
  (∀ k s n Z, Re.match_here q s = Some (S n) →
     Re.match_here (drop k body) (r +:+ Z) = Re.match_here (drop k body) s) →
  ∀ s, Re.match_here body (Re.sub q r s) = Re.match_here body s.
Proof.
  induction body as [|at_ body IH]; intros Hst s.
  - by rewrite !match_here_nil.
  - assert (IH' := IH (λ k, Hst (S k))). clear IH.
    induction s as [|c s IHs]; [done|].
    unfold Re.sub. cbn [Re.sub_from].
    destruct (Re.match_here q (String c s)) as [[|n]|] eqn:Hq.
    + fold (Re.sub q r s). destruct at_ as [x| |cls].
      * rewrite !match_here_chr. by rewrite IH'.
      * rewrite !match_here_dot. by rewrite IH'.
      * rewrite (match_here_plus cls body (String c (Re.sub q r s))),
          (match_here_plus cls body (String c s)). by rewrite IHs, IH'.
    + exact (Hst 0%nat _ _ _ Hq).
    + fold (Re.sub q r s). destruct at_ as [x| |cls].
      * rewrite !match_here_chr. by rewrite IH'.
      * rewrite !match_here_dot. by rewrite IH'.
      * rewrite (match_here_plus cls body (String c (Re.sub q r s))),
          (match_here_plus cls body (String c s)). by rewrite IHs, IH'.
Qed.

Lemma stable_by_head b qbody r' body :
  accepts body b = false →
  ∀ k s n Z, Re.match_here (Re.Chr b :: qbody) s = Some (S n) →
    Re.match_here (drop k body) (String b r' +:+ Z) = Re.match_here (drop k body) s.
Proof.
  intros Hb k s n Z Hq. apply match_here_chr_head in Hq as (s' & n' & -> & _ & _).
  rewrite str_app_cons. destruct (drop k body) as [|at_ rest] eqn:Hd.
  - by rewrite !match_here_nil.
  - rewrite <- Hd. rewrite !match_here_rejected; try done.
    all: try (by apply accepts_drop). all: by rewrite Hd.
Qed.

Lemma all_chars_impl (P Q : ascii → bool) s :
  (∀ c, P c = true → Q c = true) → all_chars P s = true → all_chars Q s = true.
Proof.
  intros HPQ. induction s as [|c s IH]; [done|]. simpl.
  intros [Hc Hs]%andb_prop. by rewrite (HPQ c Hc), IH.
Qed.

Lemma accepted_is_not_rejected body b c :
  accepts body b = false → accepts body c = true →
  negb (Str.eqb_char c b) = true.
Proof.
  intros Hb Hc. destruct (Str.eqb_char c b) eqn:Heq; [|done].
  apply Ascii.eqb_eq in Heq as ->. congruence.
Qed.

(** A match of [Chr a :: body], split into the matched text and the rest. *)
Lemma match_here_text a body s n :
  Re.match_here (Re.Chr a :: body) s = Some n →
  ∃ w rest, s = String a w +:+ rest ∧ n = String.length (String a w) ∧
            all_chars (accepts body) w = true.
Proof.
  intros (s' & n' & -> & -> & Hb)%match_here_chr_head.
  apply match_here_accepted in Hb as (w & rest & -> & <- & Hall).
  by exists w, rest.
Qed.

Section substitution.
Variables (a b : ascii) (pbody qbody : list Re.atom) (r' : string).
Local Abbreviation p := (Re.Chr a :: pbody).
Local Abbreviation q := (Re.Chr b :: qbody).
Local Abbreviation r := (String b r').
Hypothesis Hb : accepts pbody b = false.

Lemma match_here_sub_cons c s :
  Re.match_here p (String c (Re.sub q r s)) = Re.match_here p (String c s).
Proof.
  rewrite !match_here_chr.
  rewrite (match_here_sub q r pbody); [done|].
  by apply stable_by_head.
Qed.

Lemma sub_through_match s n :
  Re.match_here p s = Some n → Re.match_here q s = None →
  ∃ w rest, s = w +:+ rest ∧ w ≠ EmptyString ∧ n = String.length w ∧
    Re.sub q r s = w +:+ Re.sub q r rest ∧
    Re.findall q s = Re.findall q rest ∧
    Re.match_here p (w +:+ Re.sub q r rest) = Some (String.length w).
Proof.
  intros Hp Hq. pose proof Hp as (w & rest & -> & -> & Hall)%match_here_text.
  exists (String a w), rest. split; [done|]. split; [done|]. split; [done|].
  assert (Hop : opaque q w).
  { apply opaque_chars. eapply all_chars_impl; [|exact Hall].
    intros c. by apply accepted_is_not_rejected. }
  rewrite str_app_cons in *.
  assert (Hsub : Re.sub q r (String a (w +:+ rest)) = String a (w +:+ Re.sub q r rest)).
  { rewrite sub_nomatch by done. by rewrite sub_skip. }
  split; [done|]. split.
  - rewrite findall_nomatch by done. by apply findall_skip.
  - rewrite str_app_cons, <- (sub_skip q r w rest Hop), match_here_sub_cons.
    exact Hp.
Qed.

(** Matches of [p] are neither made nor lost by substituting [r] for
    matches of [q] that hold [k] matches of [p] each. *)
Lemma findall_sub_count k :
  (∀ s n, Re.match_here q s = Some n → ∃ m post, s = m +:+ post ∧
     String.length m = n ∧
     ∃ inside, length inside = k ∧
       Re.findall p (m +:+ post) = inside ++ Re.findall p post) →
  opaque p r →
  ∀ s, length (Re.findall p s) =
       (length (Re.findall p (Re.sub q r s)) + k * length (Re.findall q s))%nat.
Proof.
  intros Hm Hr s.
  remember (String.length s) as len eqn:Hlen.
  revert s Hlen. induction len as [len IH] using lt_wf_ind. intros s ->.
  destruct s as [|c s]; [simpl; lia|].
  destruct (Re.match_here q (String c s)) as [n|] eqn:Hq.
  - pose proof Hq as (m & post & Hs & Hn & inside & Hk & Hin)%Hm.
    pose proof Hq as (? & n' & _ & -> & _)%match_here_chr_head.
    rewrite Hs in *. assert (m ≠ EmptyString) by (by destruct m).
    rewrite <- Hn in Hq.
    rewrite sub_match, (findall_match q), Hin by done.
    rewrite (findall_skip p r) by done. rewrite length_app, Hk. cbn [length].
    rewrite (IH (String.length post)) with (s := post); [lia| |done].
    rewrite str_length_app. lia.
  - rewrite sub_nomatch, (findall_nomatch q) by done.
    destruct (Re.match_here p (String c s)) as [n|] eqn:Hp.
    + destruct (sub_through_match _ _ Hp Hq)
        as (w & rest & Hs & Hw & -> & Hsub & Hfq & Hpm).
      rewrite <- (sub_nomatch q r) by done. rewrite Hsub.
      rewrite <- (findall_nomatch q c s) by done. rewrite Hfq.
      rewrite Hs in *. rewrite !findall_match by done. cbn [length].
      rewrite (IH (String.length rest)) with (s := rest); [lia| |done].
      rewrite str_length_app. destruct w; [done|]. simpl. lia.
    + rewrite (findall_nomatch p c s) by done.
      rewrite (findall_nomatch p c (Re.sub q r s))
        by (by rewrite match_here_sub_cons).
      by apply (IH (String.length s)); [simpl; lia|].
Qed.

(** Matches of [p] are left as they are by substituting [r] for matches of
    [q], when neither a match of [q] nor [r] holds the start of one. *)
Lemma findall_sub_indep :
  (∀ s n, Re.match_here q s = Some n → ∃ m post, s = m +:+ post ∧
     String.length m = n ∧ opaque p m) →
  opaque p r →
  ∀ s, Re.findall p (Re.sub q r s) = Re.findall p s.
Proof.
  intros Hm Hr s.
  remember (String.length s) as len eqn:Hlen.
  revert s Hlen. induction len as [len IH] using lt_wf_ind. intros s ->.
  destruct s as [|c s]; [done|].
  destruct (Re.match_here q (String c s)) as [n|] eqn:Hq.
  - pose proof Hq as (m & post & Hs & Hn & Hop)%Hm.
    pose proof Hq as (? & n' & _ & -> & _)%match_here_chr_head.
    rewrite Hs in *. assert (m ≠ EmptyString) by (by destruct m).
    rewrite <- Hn in Hq.
    rewrite sub_match, !findall_skip by done.
    apply (IH (String.length post)); [|done].
    rewrite str_length_app. lia.
  - rewrite sub_nomatch by done.
    destruct (Re.match_here p (String c s)) as [n|] eqn:Hp.
    + destruct (sub_through_match _ _ Hp Hq)
        as (w & rest & Hs & Hw & -> & Hsub & Hfq & Hpm).
      rewrite <- (sub_nomatch q r) by done. rewrite Hsub.
      rewrite Hs in *. rewrite !findall_match by done. f_equal.
      apply (IH (String.length rest)); [|done].
      rewrite str_length_app. destruct w; [done|]. simpl. lia.
    + rewrite (findall_nomatch p c s) by done.
      rewrite (findall_nomatch p c (Re.sub q r s))
        by (by rewrite match_here_sub_cons).
      by apply (IH (String.length s)); [simpl; lia|].
Qed.

End substitution.

Section self_substitution.
Variables (a : ascii) (body : list Re.atom) (r : string).
Local Abbreviation p := (Re.Chr a :: body).

(** After substituting for the matches of [p] a text that every suffix of
    [p] tells apart from a match no more than from the replacement, and in
    which no match starts, no match of [p] is left. *)
Lemma findall_sub_erase :
  (∀ k s n Z, Re.match_here p s = Some (S n) →
     Re.match_here (drop k body) (r +:+ Z) = Re.match_here (drop k body) s) →
  opaque p r →
  ∀ s, Re.findall p (Re.sub p r s) = [].
Proof.
  intros Hst Hr s.
  remember (String.length s) as len eqn:Hlen.
  revert s Hlen. induction len as [len IH] using lt_wf_ind. intros s ->.
  destruct s as [|c s]; [done|].
  destruct (Re.match_here p (String c s)) as [n|] eqn:Hp.
  - pose proof Hp as (w & rest & Hs & -> & _)%match_here_text.
    rewrite Hs in *. rewrite sub_match, findall_skip by done.
    apply (IH (String.length rest)); [|done].
    rewrite str_length_app. simpl. lia.
  - rewrite sub_nomatch by done. rewrite findall_nomatch.
    + by apply (IH (String.length s)); [simpl; lia|].
    + rewrite match_here_chr in *.
      by rewrite (match_here_sub p r body Hst).
Qed.

(** Substituting for the matches of [p] a text that itself matches [p]
    puts that text in place of every match. *)
Lemma findall_sub_self r' :
  r = String a r' →
  accepts body a = false →
  (∀ s n, Re.match_here p s = Some n → ∃ m post, s = m +:+ post ∧
     String.length m = n ∧
     ∀ Z, head_char Z = head_char post →
          Re.match_here p (r +:+ Z) = Some (String.length r)) →
  ∀ s, Re.findall p (Re.sub p r s) = (λ _, r) <$> Re.findall p s.
Proof.
  intros -> Ha Hm s.
  remember (String.length s) as len eqn:Hlen.
  revert s Hlen. induction len as [len IH] using lt_wf_ind. intros s ->.
  destruct s as [|c s]; [done|].
  destruct (Re.match_here p (String c s)) as [n|] eqn:Hp.
  - pose proof Hp as (m & post & Hs & Hn & Hre)%Hm.
    pose proof Hp as (? & n' & _ & -> & _)%match_here_chr_head.
    rewrite Hs in *. assert (m ≠ EmptyString) by (by destruct m).
    rewrite <- Hn in Hp.
    rewrite sub_match, (findall_match p m) by done.
    rewrite findall_match; [|done|apply Hre, sub_head].
    rewrite fmap_cons. f_equal.
    apply (IH (String.length post)); [|done].
    rewrite str_length_app. lia.
  - rewrite sub_nomatch by done. rewrite !findall_nomatch.
    + by apply (IH (String.length s)); [simpl; lia|].
    + done.
    + rewrite match_here_sub_cons; done.
Qed.

End self_substitution.

(** *** The shapes of the matches *)

Lemma lit_cons c L : Re.lit (String c L) = Re.Chr c :: Re.lit L.
Proof. done. Qed.

Lemma match_here_lit_app L body s n :
  Re.match_here (Re.lit L ++ body) s = Some n →
  ∃ s' n', s = L +:+ s' ∧ Re.match_here body s' = Some n' ∧
           n = (String.length L + n')%nat.
Proof.
  revert s n. induction L as [|c L IH]; intros s n.
  - intros Hm. by exists s, n.
  - rewrite lit_cons. cbn [app].
    intros (s1 & n1 & -> & -> & Hm)%match_here_chr_head.
    apply IH in Hm as (s' & n' & -> & Hm & ->). by exists s', n'.
Qed.

Lemma match_here_lit_app_eq L body s' :
  Re.match_here (Re.lit L ++ body) (L +:+ s') =
  (λ n, (String.length L + n)%nat) <$> Re.match_here body s'.
Proof.
  induction L as [|c L IH].
  - change (Re.match_here body s' = (λ n : nat, n) <$> Re.match_here body s').
    by destruct (Re.match_here body s').
  - rewrite lit_cons, str_app_cons. cbn [app]. rewrite match_here_chr.
    unfold Str.eqb_char. rewrite Ascii.eqb_refl, IH.
    by destruct (Re.match_here body s').
Qed.

Lemma match_here_run cls s n :
  Re.match_here [Re.Plus cls] s = Some n →
  ∃ ds post, s = ds +:+ post ∧ ds ≠ EmptyString ∧ String.length ds = n ∧
    all_chars cls ds = true ∧ (∀ c, head_char post = Some c → cls c = false).
Proof.
  revert n. induction s as [|c s IH]; intros n; rewrite match_here_plus; [done|].
  destruct (cls c) eqn:Hc; [|done].
  destruct (Re.match_here [Re.Plus cls] s) as [n1|] eqn:Hrun.
  - intros [= <-]. destruct (IH n1 eq_refl) as (ds & post & -> & _ & <- & Hall & Hpost).
    exists (String c ds), post. repeat split; try done. simpl. by rewrite Hc.
  - rewrite match_here_nil. intros [= <-].
    exists (String c EmptyString), s. repeat split; try done.
    + simpl. by rewrite Hc.
    + intros d Hd. destruct s as [|d' s]; [done|]. injection Hd as ->.
      rewrite match_here_plus in Hrun. destruct (cls d); [|done].
      by destruct (Re.match_here [Re.Plus cls] s).
Qed.

Lemma match_here_run_eq cls ds post :
  ds ≠ EmptyString → all_chars cls ds = true →
  (∀ c, head_char post = Some c → cls c = false) →
  Re.match_here [Re.Plus cls] (ds +:+ post) = Some (String.length ds).
Proof.
  intros Hne Hall Hpost. induction ds as [|c ds IH]; [done|].
  simpl in Hall. apply andb_prop in Hall as [Hc Hall].
  rewrite str_app_cons, match_here_plus, Hc.
  destruct ds as [|d ds].
  - rewrite !str_app_nil_l, match_here_nil.
    destruct post as [|e post].
    + by rewrite match_here_plus.
    + rewrite match_here_plus. by rewrite (Hpost e eq_refl).
  - by rewrite IH.
Qed.

(** A match of a directive: the literal, a run of digits, and something
    that is no digit. *)
Lemma directive_match L cls s n :
  Re.match_here (Re.lit L ++ [Re.Plus cls]) s = Some n →
  ∃ ds post, s = (L +:+ ds) +:+ post ∧ n = String.length (L +:+ ds) ∧
    all_chars cls ds = true ∧ (∀ c, head_char post = Some c → cls c = false).
Proof.
  intros (s' & n' & -> & Hrun & ->)%match_here_lit_app.
  apply match_here_run in Hrun as (ds & post & -> & _ & <- & Hall & Hpost).
  exists ds, post. rewrite str_app_assoc, str_length_app. by repeat split.
Qed.

Lemma directive_rematch L cls ds Z :
  ds ≠ EmptyString → all_chars cls ds = true →
  (∀ c, head_char Z = Some c → cls c = false) →
  Re.match_here (Re.lit L ++ [Re.Plus cls]) ((L +:+ ds) +:+ Z) =
  Some (String.length (L +:+ ds)).
Proof.
  intros Hne Hall HZ. rewrite str_app_assoc, match_here_lit_app_eq.
  rewrite match_here_run_eq by done. by rewrite str_length_app.
Qed.

Lemma include_match s n :
  Re.match_here include_re s = Some n →
  ∃ c post,
    s = (("#include " +:+ dquote +:+ "gates/compose") +:+
         String c ("cpp" +:+ dquote)) +:+ post ∧
    n = String.length (("#include " +:+ dquote +:+ "gates/compose") +:+
                       String c ("cpp" +:+ dquote)).
Proof.
  unfold include_re.
  intros (s1 & n1 & -> & Hm & ->)%match_here_lit_app.
  cbn [app] in Hm. rewrite match_here_dot in Hm.
  destruct s1 as [|c s1]; [done|].
  destruct (Str.eqb_char c "010"); [done|].
  destruct (Re.match_here (Re.lit ("cpp" +:+ dquote)) s1) as [n2|] eqn:Hm2; [|done].
  injection Hm as <-.
  rewrite <- (app_nil_r (Re.lit _)) in Hm2.
  apply match_here_lit_app in Hm2 as (post & n3 & -> & Hn & ->).
  rewrite match_here_nil in Hn. injection Hn as <-.
  exists c, post. split.
  - by rewrite !str_app_assoc, str_app_cons.
  - rewrite !str_length_app. simpl. lia.
Qed.

Lemma placeholder_match s n :
  Re.match_here placeholder_re s = Some n →
  ∃ post, s = placeholder_call +:+ post ∧ n = String.length placeholder_call.
Proof.
  unfold placeholder_re. rewrite <- (app_nil_r (Re.lit _)).
  intros (post & n' & -> & Hn & ->)%match_here_lit_app.
  rewrite match_here_nil in Hn. injection Hn as <-.
  exists post. split; [done|lia].
Qed.

(** *** The substitutions of the generator do not disturb one another *)

Lemma cls_excludes (cls : ascii → bool) x c :
  cls x = false → cls c = true → negb (Str.eqb_char c x) = true.
Proof.
  intros Hx Hc. destruct (Str.eqb_char c x) eqn:Heq; [|done].
  apply Ascii.eqb_eq in Heq as ->. congruence.
Qed.

Lemma opaque_directive a pbody L cls ds :
  opaque (Re.Chr a :: pbody) L → cls a = false → all_chars cls ds = true →
  opaque (Re.Chr a :: pbody) (L +:+ ds).
Proof.
  intros HL Ha Hall. apply opaque_app; [done|]. apply opaque_chars.
  eapply all_chars_impl; [|exact Hall]. intros c. by apply cls_excludes.
Qed.

Ltac opaque_text := cbn [opaque]; repeat split; intros; reflexivity.

(** What is observed: the two directives and the placeholder mark. *)
Local Abbreviation tbody := (Re.lit "define THRESHOLD " ++ [Re.Plus Re.is_digit]).
Local Abbreviation dbody := (Re.lit "define DELAY " ++ [Re.Plus Re.is_digit]).
Local Abbreviation mbody := (Re.lit "LACEHOLDER").

Section observers.
Variables (a : ascii) (pbody : list Re.atom).
Local Abbreviation p := (Re.Chr a :: pbody).

(** Hypotheses that hold of the three observers, checked by computation
    where the section is used. *)
Hypothesis Hsharp : accepts pbody "#" = false.
Hypothesis Ht : accepts pbody "t" = false.
Hypothesis Hdigit : Re.is_digit a = false.
Hypothesis Hthreshold : opaque p "#define THRESHOLD ".
Hypothesis Hdelay : opaque p "#define DELAY ".
Hypothesis Hinclude : opaque p ("#include " +:+ dquote +:+ "gates/compose").
Hypothesis Hcpp : ∀ c, opaque p (String c ("cpp" +:+ dquote)).
Hypothesis Hcall : opaque p placeholder_call.

Lemma observer_threshold r' s :
  opaque p (String "#" r') →
  Re.findall p (Re.sub threshold_re (String "#" r') s) = Re.findall p s.
Proof.
  intros Hr. apply (findall_sub_indep a "#" pbody tbody r'); try done.
  intros s0 n Hm.
  change (Re.match_here (Re.lit "#define THRESHOLD " ++ [Re.Plus Re.is_digit]) s0
          = Some n) in Hm.
  apply directive_match in Hm as (ds & post & -> & -> & Hall & _).
  exists ("#define THRESHOLD " +:+ ds), post. split; [done|]. split; [done|].
  by apply (opaque_directive a pbody _ Re.is_digit).
Qed.

Lemma observer_delay r' s :
  opaque p (String "#" r') →
  Re.findall p (Re.sub delay_re (String "#" r') s) = Re.findall p s.
Proof.
  intros Hr. apply (findall_sub_indep a "#" pbody dbody r'); try done.
  intros s0 n Hm.
  change (Re.match_here (Re.lit "#define DELAY " ++ [Re.Plus Re.is_digit]) s0
          = Some n) in Hm.
  apply directive_match in Hm as (ds & post & -> & -> & Hall & _).
  exists ("#define DELAY " +:+ ds), post. split; [done|]. split; [done|].
  by apply (opaque_directive a pbody _ Re.is_digit).
Qed.

Lemma observer_include r' s :
  opaque p (String "#" r') →
  Re.findall p (Re.sub include_re (String "#" r') s) = Re.findall p s.
Proof.
  intros Hr.
  apply (findall_sub_indep a "#" pbody
           (Re.lit ("include " +:+ dquote +:+ "gates/compose") ++ [Re.Dot] ++
            Re.lit ("cpp" +:+ dquote)) r'); try done.
  intros s0 n Hm. change (Re.match_here include_re s0 = Some n) in Hm.
  apply include_match in Hm as (c & post & -> & ->).
  eexists _, post. split; [done|]. split; [done|]. by apply opaque_app.
Qed.

Lemma observer_placeholder r' s :
  opaque p (String "t" r') →
  Re.findall p (Re.sub placeholder_re (String "t" r') s) = Re.findall p s.
Proof.
  intros Hr.
  apply (findall_sub_indep a "t" pbody (tail placeholder_re) r'); try done.
  intros s0 n Hm. change (Re.match_here placeholder_re s0 = Some n) in Hm.
  apply placeholder_match in Hm as (post & -> & ->).
  by exists placeholder_call, post.
Qed.

End observers.

Ltac opaque_after_any c :=
  cbn [opaque]; split;
  [intros; rewrite str_app_cons, match_here_chr;
   destruct (Str.eqb_char c _); reflexivity
  |opaque_text].

Lemma threshold_after_delay r' s :
  opaque threshold_re (String "#" r') →
  Re.findall threshold_re (Re.sub delay_re (String "#" r') s)
  = Re.findall threshold_re s.
Proof. apply (observer_delay "#" tbody); [done|done|opaque_text]. Qed.

Lemma threshold_after_include r' s :
  opaque threshold_re (String "#" r') →
  Re.findall threshold_re (Re.sub include_re (String "#" r') s)
  = Re.findall threshold_re s.
Proof.
  apply (observer_include "#" tbody); [done|opaque_text|].
  intros c. opaque_after_any c.
Qed.

Lemma threshold_after_placeholder r' s :
  opaque threshold_re (String "t" r') →
  Re.findall threshold_re (Re.sub placeholder_re (String "t" r') s)
  = Re.findall threshold_re s.
Proof. apply (observer_placeholder "#" tbody); [done|opaque_text]. Qed.

Lemma delay_after_threshold r' s :
  opaque delay_re (String "#" r') →
  Re.findall delay_re (Re.sub threshold_re (String "#" r') s)
  = Re.findall delay_re s.
Proof. apply (observer_threshold "#" dbody); [done|done|opaque_text]. Qed.

Lemma delay_after_include r' s :
  opaque delay_re (String "#" r') →
  Re.findall delay_re (Re.sub include_re (String "#" r') s)
  = Re.findall delay_re s.
Proof.
  apply (observer_include "#" dbody); [done|opaque_text|].
  intros c. opaque_after_any c.
Qed.

Lemma delay_after_placeholder r' s :
  opaque delay_re (String "t" r') →
  Re.findall delay_re (Re.sub placeholder_re (String "t" r') s)
  = Re.findall delay_re s.
Proof. apply (observer_placeholder "#" dbody); [done|opaque_text]. Qed.

Lemma call_after_parameters_and_include r1 r2 r3 s :
  opaque placeholder_re (String "#" r1) →
  opaque placeholder_re (String "#" r2) →
  opaque placeholder_re (String "#" r3) →
  Re.findall placeholder_re
    (Re.sub include_re (String "#" r3)
       (Re.sub delay_re (String "#" r2)
          (Re.sub threshold_re (String "#" r1) s)))
  = Re.findall placeholder_re s.
Proof.
  intros H1 H2 H3.
  rewrite (observer_include "t" (tail placeholder_re)); [|done|opaque_text| |done].
  2:{ intros c. opaque_after_any c. }
  rewrite (observer_delay "t" (tail placeholder_re)); [|done|done|opaque_text|done].
  rewrite (observer_threshold "t" (tail placeholder_re)); [done|done|done|opaque_text|done].
Qed.

Lemma mark_after_parameters_and_include r1 r2 r3 s :
  opaque (Re.lit placeholder_mark) (String "#" r1) →
  opaque (Re.lit placeholder_mark) (String "#" r2) →
  opaque (Re.lit placeholder_mark) (String "#" r3) →
  Re.findall (Re.lit placeholder_mark)
    (Re.sub include_re (String "#" r3)
       (Re.sub delay_re (String "#" r2)
          (Re.sub threshold_re (String "#" r1) s)))
  = Re.findall (Re.lit placeholder_mark) s.
Proof.
  intros H1 H2 H3.
  rewrite (observer_include "P" mbody); [|done|opaque_text| |done].
  2:{ intros c. opaque_after_any c. }
  rewrite (observer_delay "P" mbody); [|done|done|opaque_text|done].
  rewrite (observer_threshold "P" mbody); [done|done|done|opaque_text|done].
Qed.

Lemma digits_end (Z post : string) :
  (∀ c, head_char post = Some c → Re.is_digit c = false) →
  head_char Z = head_char post →
  ∀ c, head_char Z = Some c → Re.is_digit c = false.
Proof. intros Hpost ->. exact Hpost. Qed.

Lemma threshold_rewritten ds s :
  ds ≠ EmptyString → all_chars Re.is_digit ds = true →
  Re.findall threshold_re
    (Re.sub threshold_re ("#define THRESHOLD " +:+ ds) s)
  = (λ _, "#define THRESHOLD " +:+ ds) <$> Re.findall threshold_re s.
Proof.
  intros Hne Hall.
  apply (findall_sub_self "#" tbody _ ("define THRESHOLD " +:+ ds)); [done|done|].
  intros s0 n Hm.
  change (Re.match_here (Re.lit "#define THRESHOLD " ++ [Re.Plus Re.is_digit]) s0
          = Some n) in Hm.
  apply directive_match in Hm as (ds0 & post & -> & -> & _ & Hpost).
  eexists _, post. split; [done|]. split; [done|]. intros Z HZ.
  apply (directive_rematch "#define THRESHOLD " Re.is_digit ds Z); try done.
  by eapply digits_end.
Qed.

Lemma delay_rewritten ds s :
  ds ≠ EmptyString → all_chars Re.is_digit ds = true →
  Re.findall delay_re (Re.sub delay_re ("#define DELAY " +:+ ds) s)
  = (λ _, "#define DELAY " +:+ ds) <$> Re.findall delay_re s.
Proof.
  intros Hne Hall.
  apply (findall_sub_self "#" dbody _ ("define DELAY " +:+ ds)); [done|done|].
  intros s0 n Hm.
  change (Re.match_here (Re.lit "#define DELAY " ++ [Re.Plus Re.is_digit]) s0
          = Some n) in Hm.
  apply directive_match in Hm as (ds0 & post & -> & -> & _ & Hpost).
  eexists _, post. split; [done|]. split; [done|]. intros Z HZ.
  apply (directive_rematch "#define DELAY " Re.is_digit ds Z); try done.
  by eapply digits_end.
Qed.

(** The call generated for NOT, with nothing of the placeholder in it. *)
Lemma no_placeholder_left s :
  Re.findall placeholder_re
    (Re.sub placeholder_re (gate_call "NOT" "do_not_gate" 1) s) = [].
Proof.
  let v := eval vm_compute in (gate_call "NOT" "do_not_gate" 1) in
  change (gate_call "NOT" "do_not_gate" 1) with v.
  apply (findall_sub_erase "t" (tail placeholder_re)); [|opaque_text].
  intros k s0 n Z Hm. change (Re.match_here placeholder_re s0 = Some (S n)) in Hm.
  apply placeholder_match in Hm as (post & -> & _).
  do 90 (destruct k as [|k]; [reflexivity|]).
  reflexivity.
Qed.

(** The placeholder call holds the placeholder mark three times, and the
    call generated for NOT does not hold it. *)
Lemma marks_taken_with_the_call s :
  length (Re.findall (Re.lit placeholder_mark) s) =
  (length (Re.findall (Re.lit placeholder_mark)
             (Re.sub placeholder_re (gate_call "NOT" "do_not_gate" 1) s))
   + 3 * length (Re.findall placeholder_re s))%nat.
Proof.
  let v := eval vm_compute in (gate_call "NOT" "do_not_gate" 1) in
  change (gate_call "NOT" "do_not_gate" 1) with v.
  apply (findall_sub_count "P" "t" mbody (tail placeholder_re)); [done| |opaque_text].
  intros s0 n Hm. change (Re.match_here placeholder_re s0 = Some n) in Hm.
  apply placeholder_match in Hm as (post & -> & ->).
  exists placeholder_call, post. split; [done|]. split; [done|].
  exists [placeholder_mark; placeholder_mark; placeholder_mark].
  split; [done|]. reflexivity.
Qed.

Lemma fmap_singleton_length {A B} (f : A → B) (l : list A) y :
  length l = 1%nat → (∀ x, f x = y) → f <$> l = [y].
Proof.
  destruct l as [|x [|??]]; try done. intros _ Hf. simpl. by rewrite Hf.
Qed.

(** C8. When each template holds exactly one threshold directive and one
    delay directive, and the main template one placeholder call, the texts
    generated for NOT with threshold 150 and delay 512 hold exactly one
    threshold directive, which reads 150, and exactly one delay directive,
    which reads 512; no placeholder call is left in the main text, and the
    placeholder word occurs there three times less than in the template,
    that is, only where the template had it outside the call. *)
Theorem variant_for_NOT content_compose content_main :
  length (Re.findall threshold_re content_compose) = 1%nat →
  length (Re.findall delay_re content_compose) = 1%nat →
  length (Re.findall threshold_re content_main) = 1%nat →
  length (Re.findall delay_re content_main) = 1%nat →
  length (Re.findall placeholder_re content_main) = 1%nat →
  GATE_FUNCTIONS !! "NOT" = Some ("do_not_gate", 1) ∧
  (let compose := optimized_compose 150 512 content_compose in
   Re.findall threshold_re compose = ["#define THRESHOLD 150"] ∧
   Re.findall delay_re compose = ["#define DELAY 512"]) ∧
  (let main := optimized_main "NOT" "do_not_gate" 1 150 512 content_main in
   Re.findall threshold_re main = ["#define THRESHOLD 150"] ∧
   Re.findall delay_re main = ["#define DELAY 512"] ∧
   Re.findall placeholder_re main = [] ∧
   (length (Re.findall (Re.lit placeholder_mark) main) + 3)%nat
     = length (Re.findall (Re.lit placeholder_mark) content_main)) ∧
  (let main :=
     Re.sub include_re temp_include (set_parameters 150 512 content_main) in
   Re.findall threshold_re main = ["#define THRESHOLD 150"] ∧
   Re.findall delay_re main = ["#define DELAY 512"]).
Proof.
  intros Hct Hcd Hmt Hmd Hmp.
  assert (Hparams : ∀ content,
    length (Re.findall threshold_re content) = 1%nat →
    length (Re.findall delay_re content) = 1%nat →
    Re.findall threshold_re (set_parameters 150 512 content)
      = ["#define THRESHOLD 150"] ∧
    Re.findall delay_re (set_parameters 150 512 content)
      = ["#define DELAY 512"]).
  { intros content Ht Hd. unfold set_parameters.
    change (threshold_directive 150) with ("#define THRESHOLD " +:+ "150").
    change (delay_directive 512) with ("#define DELAY " +:+ "512").
    split.
    - rewrite (threshold_after_delay "define DELAY 512") by opaque_text.
      rewrite threshold_rewritten by done.
      by apply fmap_singleton_length.
    - rewrite delay_rewritten by done.
      apply fmap_singleton_length; [|done].
      by rewrite (delay_after_threshold "define THRESHOLD 150") by opaque_text. }
  split; [reflexivity|]. split; [by apply Hparams|].
  destruct (Hparams content_main Hmt Hmd) as [Ht Hd]. split.
  - cbv zeta. unfold optimized_main.
    let v := eval vm_compute in (gate_call "NOT" "do_not_gate" 1) in
    change (gate_call "NOT" "do_not_gate" 1) with v.
    let v := eval vm_compute in (gate_include "NOT") in
    change (gate_include "NOT") with v.
    rewrite threshold_after_placeholder, threshold_after_include by opaque_text.
    rewrite delay_after_placeholder, delay_after_include by opaque_text.
    split; [done|]. split; [done|]. split.
    + match goal with
      | |- Re.findall _ (Re.sub _ ?r _) = _ =>
          change r with (gate_call "NOT" "do_not_gate" 1)
      end.
      apply no_placeholder_left.
    + match goal with
      | |- context [Re.sub placeholder_re ?r _] =>
          change r with (gate_call "NOT" "do_not_gate" 1)
      end.
      pose proof (marks_taken_with_the_call
                    (Re.sub include_re (gate_include "NOT")
                       (set_parameters 150 512 content_main))) as Hmarks.
      revert Hmarks. unfold set_parameters.
      change (threshold_directive 150) with "#define THRESHOLD 150".
      change (delay_directive 512) with "#define DELAY 512".
      let v := eval vm_compute in (gate_include "NOT") in
      change (gate_include "NOT") with v.
      rewrite call_after_parameters_and_include by opaque_text.
      rewrite mark_after_parameters_and_include by opaque_text.
      rewrite Hmp. lia.
  - cbv zeta.
    let v := eval vm_compute in temp_include in change temp_include with v.
    rewrite threshold_after_include by opaque_text.
    by rewrite delay_after_include by opaque_text.
Qed.

Lemma variant_for_NOT_witness :
  length (Re.findall threshold_re Demo.compose_cpp) = 1%nat ∧
  length (Re.findall delay_re Demo.compose_cpp) = 1%nat ∧
  length (Re.findall threshold_re Demo.main_cpp) = 1%nat ∧
  length (Re.findall delay_re Demo.main_cpp) = 1%nat ∧
  length (Re.findall placeholder_re Demo.main_cpp) = 1%nat ∧
  (GATE_FUNCTIONS !! "NOT" = Some ("do_not_gate", 1) ∧
   (let compose := optimized_compose 150 512 Demo.compose_cpp in
    Re.findall threshold_re compose = ["#define THRESHOLD 150"] ∧
    Re.findall delay_re compose = ["#define DELAY 512"]) ∧
   (let main := optimized_main "NOT" "do_not_gate" 1 150 512 Demo.main_cpp in
    Re.findall threshold_re main = ["#define THRESHOLD 150"] ∧
    Re.findall delay_re main = ["#define DELAY 512"] ∧
    Re.findall placeholder_re main = [] ∧
    (length (Re.findall (Re.lit placeholder_mark) main) + 3)%nat
      = length (Re.findall (Re.lit placeholder_mark) Demo.main_cpp)) ∧
   (let main :=
      Re.sub include_re temp_include (set_parameters 150 512 Demo.main_cpp) in
    Re.findall threshold_re main = ["#define THRESHOLD 150"] ∧
    Re.findall delay_re main = ["#define DELAY 512"])).
Proof.
  do 5 (split; [reflexivity|]).
  apply (variant_for_NOT Demo.compose_cpp Demo.main_cpp); reflexivity.
Defined.

Example generated_main_for_NOT :
  optimized_main "NOT" "do_not_gate" 1 150 512 Demo.main_cpp =
  "#define THRESHOLD 150" +:+ Str.nl +:+ "#define DELAY 512" +:+ Str.nl +:+
  "#include " +:+ dquote +:+ "gates/compose_not.cpp" +:+ dquote +:+ Str.nl +:+
  "int main() { test_gate(" +:+ dquote +:+ "NOT" +:+ dquote +:+
  ", do_not_gate, 1); }" +:+ Str.nl.
Proof. reflexivity. Qed.

(** ** What the two operations leave alone *)

Lemma leaves_bind {A B} path (m : M os_state A) (f : A → M os_state B) :
  leaves path m → (∀ a, leaves path (f a)) → leaves path (m ≫= f).
Proof.
  intros Hm Hf st. rewrite bind_eq. specialize (Hm st).
  destruct (m st) as [[a|e] st1]; [|done].
  rewrite <- Hm. apply Hf.
Qed.

Lemma leaves_ret {A} path (a : A) : leaves path (mret a : M os_state A).
Proof. done. Qed.

Lemma leaves_lift_result {A} path (r : result A) :
  leaves path (lift_result r : M os_state A).
Proof. done. Qed.

Lemma leaves_read_file path path' : leaves path (read_file path').
Proof. done. Qed.

Lemma leaves_write_file path path' content :
  path ≠ path' → leaves path (write_file path' content).
Proof. intros Hne st. simpl. by rewrite lookup_insert_ne. Qed.

Lemma leaves_remove_if_exists path path' :
  path ≠ path' → leaves path (remove_if_exists path').
Proof.
  intros Hne st. rewrite remove_if_exists_delete. simpl.
  by rewrite lookup_delete_ne.
Qed.

Lemma leaves_subprocess_run env path check argv :
  keeps env path → leaves path (subprocess_run env check argv).
Proof.
  intros Hk st. unfold subprocess_run. specialize (Hk (clock st) argv (files st)).
  destruct (env (clock st) argv (files st)) as [[status stdout|] fs]; simpl in *.
  - by destruct (check && negb (status =? 0)).
  - done.
Qed.

Lemma leaves_try_except {A} path (body handler : M os_state A) :
  leaves path body → leaves path handler →
  leaves path (try_except_called_process_error body handler).
Proof.
  intros Hb Hh st. unfold try_except_called_process_error. specialize (Hb st).
  destruct (body st) as [[a|[]] st1]; try done.
  rewrite <- Hb. apply Hh.
Qed.

Lemma leaves_try_finally {A} path (body : M os_state A) cleanup :
  leaves path body → leaves path cleanup →
  leaves path (try_finally body cleanup).
Proof.
  intros Hb Hc st. unfold try_finally. specialize (Hb st).
  destruct (body st) as [r st1]. specialize (Hc st1).
  destruct (cleanup st1) as [[[]|e] st2]; simpl in *; congruence.
Qed.

Ltac leaves_step :=
  first
    [ apply leaves_bind; [|intros ?]
    | apply leaves_try_finally
    | apply leaves_try_except
    | apply leaves_ret
    | apply leaves_lift_result
    | apply leaves_read_file
    | apply leaves_write_file; assumption
    | apply leaves_remove_if_exists; assumption
    | apply leaves_subprocess_run; assumption ].

(** X1. Whatever the commands and the parse do, [test_parameters]
    changes no file but its three temporaries: a file elsewhere that no
    command touches is afterwards what it was before, the two templates
    among them. *)
Theorem test_parameters_touches_only_its_temporaries `{PyFloat}
    (env : environment) (threshold delay : Z) (path : string) (st : os_state) :
  path ∉ ["main_temp.cpp"; "main_temp.elf"; "gates/compose_temp.cpp"] →
  keeps env path →
  files (test_parameters env threshold delay st).2 !! path = files st !! path.
Proof.
  intros Hpath Hk.
  assert (path ≠ "main_temp.cpp" ∧ path ≠ "main_temp.elf" ∧
          path ≠ "gates/compose_temp.cpp") as (H1 & H2 & H3).
  { repeat split; intros ->; apply Hpath; repeat first [by left | right]. }
  revert st. change (leaves path (test_parameters env threshold delay)).
  unfold test_parameters, write_variant, build_run_parse, clean_up.
  repeat leaves_step.
Qed.

Lemma temp_compose_is_no_template gate_name :
  temp_compose_file gate_name ≠ "gates/compose.cpp" ∧
  temp_compose_file gate_name ≠ "main.cpp".
Proof. unfold temp_compose_file. simpl. split; discriminate. Qed.

Lemma temp_main_is_no_template gate_name :
  temp_main_file gate_name ≠ "gates/compose.cpp" ∧
  temp_main_file gate_name ≠ "main.cpp".
Proof. unfold temp_main_file. simpl. split; discriminate. Qed.

Lemma create_optimized_binary_leaves env gate_name threshold delay path :
  path ≠ temp_main_file gate_name → path ≠ temp_compose_file gate_name →
  keeps env path →
  leaves path (create_optimized_binary env gate_name threshold delay).
Proof.
  intros H1 H2 Hk.
  unfold create_optimized_binary, build_binary, clean_up_binary.
  apply leaves_bind; [apply leaves_lift_result|intros [gate_function input_count]].
  repeat leaves_step.
Qed.

(** X2. Whatever the commands do, [create_optimized_binary] changes
    no file but its two temporaries: a file elsewhere that no command
    touches is afterwards what it was before. *)
Theorem create_optimized_binary_touches_only_its_temporaries
    (env : environment) (gate_name : string) (threshold delay : Z)
    (path : string) (st : os_state) :
  path ∉ [temp_main_file gate_name; temp_compose_file gate_name] →
  keeps env path →
  files (create_optimized_binary env gate_name threshold delay st).2 !! path
  = files st !! path.
Proof.
  intros Hpath Hk. apply create_optimized_binary_leaves; [| |done].
  - intros ->. apply Hpath. by left.
  - intros ->. apply Hpath. right. by left.
Qed.

(** ** How a build ends *)

(** One checked command and what follows it. *)
Lemma checked_step {A} env argv (rest : M os_state A) st :
  launches env →
  ∃ fs status stdout,
    env (clock st) argv (files st) = (Exited status stdout, fs) ∧
    (subprocess_run env true argv ≫= λ _, rest) st =
    if decide (status = 0) then rest (OsState fs (S (clock st)))
    else (Raise CalledProcessError, OsState fs (S (clock st))).
Proof.
  intros Hl. rewrite bind_eq. unfold subprocess_run.
  specialize (Hl (clock st) argv (files st)).
  destruct (env (clock st) argv (files st)) as [[status stdout|] fs];
    [|done]. exists fs, status, stdout. split; [done|]. simpl.
  destruct (decide (status = 0)) as [->|Hne]; [done|].
  apply Z.eqb_neq in Hne. by rewrite Hne.
Qed.

Lemma exit_statuses_differ env n argv fs status stdout :
  exits_zero env n → (env n argv fs).1 = Exited status stdout → status = 0.
Proof. intros Hz He. destruct (Hz argv fs) as [out Ho]. congruence. Qed.

Lemma exit_status_nonzero env n argv fs stdout :
  exits_nonzero env n → (env n argv fs).1 = Exited 0 stdout → False.
Proof.
  intros Hz He. destruct (Hz argv fs) as (status & out & Ho & Hne). congruence.
Qed.

(** Three checked commands in a row, then [rest]: either all three exit with
    status 0 and [rest] runs as the fourth step, or the first that does not
    ends the sequence with [CalledProcessError]. *)
Lemma three_checked_steps {A} env argv0 argv1 argv2 (rest : M os_state A) st :
  launches env →
  let m := subprocess_run env true argv0 ≫= λ _,
           subprocess_run env true argv1 ≫= λ _,
           subprocess_run env true argv2 ≫= λ _, rest in
  (∃ fs, m st = rest (OsState fs (3 + clock st)%nat) ∧
     ¬ (∃ k, (k < 3)%nat ∧ exits_nonzero env (k + clock st))) ∨
  (∃ fs k, (k < 3)%nat ∧
     m st = (Raise CalledProcessError, OsState fs (S k + clock st)%nat) ∧
     ¬ (∀ k, (k < 3)%nat → exits_zero env (k + clock st))).
Proof.
  intros Hl m. subst m.
  destruct (checked_step env argv0
              (subprocess_run env true argv1 ≫= λ _,
               subprocess_run env true argv2 ≫= λ _, rest) st Hl)
    as (fs0 & s0 & o0 & He0 & ->).
  destruct (decide (s0 = 0)) as [->|Hne0].
  2:{ right. exists fs0, 0%nat. split; [lia|]. split; [done|].
      intros Hz. apply Hne0.
      eapply (exit_statuses_differ env (0 + clock st)); [apply Hz; lia|].
      cbn [Nat.add]. by rewrite He0. }
  destruct (checked_step env argv1
              (subprocess_run env true argv2 ≫= λ _, rest)
              (OsState fs0 (S (clock st))) Hl)
    as (fs1 & s1 & o1 & He1 & ->). cbn [clock files] in *.
  destruct (decide (s1 = 0)) as [->|Hne1].
  2:{ right. exists fs1, 1%nat. split; [lia|]. split; [done|].
      intros Hz. apply Hne1.
      eapply (exit_statuses_differ env (1 + clock st)); [apply Hz; lia|].
      cbn [Nat.add]. by rewrite He1. }
  destruct (checked_step env argv2 rest (OsState fs1 (S (S (clock st)))) Hl)
    as (fs2 & s2 & o2 & He2 & ->). cbn [clock files] in *.
  destruct (decide (s2 = 0)) as [->|Hne2].
  2:{ right. exists fs2, 2%nat. split; [lia|]. split; [done|].
      intros Hz. apply Hne2.
      eapply (exit_statuses_differ env (2 + clock st)); [apply Hz; lia|].
      cbn [Nat.add]. by rewrite He2. }
  left. exists fs2. split; [done|].
  intros (k & Hk & Hnz).
  assert (k = 0 ∨ k = 1 ∨ k = 2)%nat as [->|[->| ->]] by lia;
    (eapply exit_status_nonzero; [exact Hnz|]); cbn [Nat.add].
  - by rewrite He0.
  - by rewrite He1.
  - by rewrite He2.
Qed.

Lemma create_optimized_binary_launched env gate_name threshold delay st
    content_compose content_main :
  launches env →
  files st !! "gates/compose.cpp" = Some content_compose →
  files st !! "main.cpp" = Some content_main →
  is_Some (GATE_FUNCTIONS !! gate_name) →
  ∃ success st',
    create_optimized_binary env gate_name threshold delay st
    = (Ok success, st') ∧
    (clock st < clock st' ≤ clock st + 3)%nat ∧
    ((∀ k, (k < 3)%nat → exits_zero env (k + clock st)) →
     success = true ∧ clock st' = (clock st + 3)%nat) ∧
    ((∃ k, (k < 3)%nat ∧ exits_nonzero env (k + clock st)) → success = false).
Proof.
  intros Hl Hc Hm [[gate_function input_count] Hg].
  unfold create_optimized_binary.
  erewrite bind_ok; [|unfold lift_result; by rewrite Hg].
  cbv beta iota.
  erewrite bind_ok; [|unfold read_file; by rewrite Hc].
  erewrite bind_ok; [|reflexivity].
  erewrite bind_ok.
  2:{ unfold read_file. cbn [files].
      rewrite lookup_insert_ne, Hm; [done|].
      unfold temp_compose_file. simpl. discriminate. }
  erewrite bind_ok; [|reflexivity].
  rewrite (try_finally_state _ _ _ _ (clean_up_binary_deletes gate_name)).
  unfold try_except_called_process_error, build_binary.
  match goal with |- context [(subprocess_run env true ?a0 ≫= λ _,
                               subprocess_run env true ?a1 ≫= λ _,
                               subprocess_run env true ?a2 ≫= λ _, ?rest) ?s] =>
    destruct (three_checked_steps env a0 a1 a2 rest s Hl)
      as [(fs & -> & Hnz)|(fs & k & Hk & -> & Hz)]
  end; cbn [fst snd clock mret M_ret] in *.
  - exists true. eexists. split; [done|]. cbn [clock]. split; [lia|]. split.
    + intros _. split; [done|lia].
    + intros Hk. by destruct Hnz.
  - exists false. eexists. split; [done|]. cbn [clock]. split; [lia|]. split.
    + intros Hall. by destruct Hz.
    + done.
Qed.

(** X6. With both templates in place and a gate of the catalogue, when
    every command can be started [create_optimized_binary] returns a
    boolean: [True] when its three commands exit with status 0, [False] when
    one of them exits with a nonzero status. *)
Theorem create_optimized_binary_returns_a_boolean
    (env : environment) (gate_name : string) (threshold delay : Z)
    (st : os_state) (content_compose content_main : string) :
  launches env →
  files st !! "gates/compose.cpp" = Some content_compose →
  files st !! "main.cpp" = Some content_main →
  is_Some (GATE_FUNCTIONS !! gate_name) →
  ∃ success,
    (create_optimized_binary env gate_name threshold delay st).1 = Ok success ∧
    ((∀ k, (k < 3)%nat → exits_zero env (k + clock st)) → success = true) ∧
    ((∃ k, (k < 3)%nat ∧ exits_nonzero env (k + clock st)) → success = false).
Proof.
  intros Hl Hc Hm Hg.
  destruct (create_optimized_binary_launched env gate_name threshold delay st
              _ _ Hl Hc Hm Hg) as (success & st' & -> & _ & Hz & Hnz).
  exists success. split; [done|]. split; [|done].
  intros Hall. by destruct (Hz Hall).
Qed.

(** X3. When one of the three build commands of a grid point exits
    with a nonzero status, [test_parameters] returns the empty mapping and
    the executable is not run: at most three commands have been run. *)
Theorem failed_build_step_yields_the_empty_mapping `{PyFloat}
    (env : environment) (threshold delay : Z)
    (st : os_state) (content_compose content_main : string) :
  launches env →
  files st !! "gates/compose.cpp" = Some content_compose →
  files st !! "main.cpp" = Some content_main →
  (∃ k, (k < 3)%nat ∧ exits_nonzero env (k + clock st)) →
  (test_parameters env threshold delay st).1 = Ok ∅ ∧
  (clock (test_parameters env threshold delay st).2 ≤ clock st + 3)%nat.
Proof.
  intros Hl Hc Hm Hk. unfold test_parameters.
  erewrite bind_ok by (by eapply write_variant_ok).
  rewrite (try_finally_state _ _ _ _ clean_up_deletes).
  unfold try_except_called_process_error, build_run_parse.
  match goal with |- context [(subprocess_run env true ?a0 ≫= λ _,
                               subprocess_run env true ?a1 ≫= λ _,
                               subprocess_run env true ?a2 ≫= λ _, ?rest) ?s] =>
    destruct (three_checked_steps env a0 a1 a2 rest s Hl)
      as [(fs & _ & Hnz)|(fs & k & Hlt & -> & Hz)]
  end; cbn [fst snd clock mret M_ret] in *.
  - by destruct Hnz.
  - split; [done|lia].
Qed.

(** ** The builds of all optimal binaries *)

Lemma best_configs_are_known :
  Forall (λ config, is_Some (GATE_FUNCTIONS !! config.1)) BEST_CONFIGS.
Proof. repeat constructor; by eexists. Qed.

Lemma builds_loop env configs (count : nat) st content_compose content_main :
  launches env →
  keeps env "gates/compose.cpp" → keeps env "main.cpp" →
  files st !! "gates/compose.cpp" = Some content_compose →
  files st !! "main.cpp" = Some content_main →
  Forall (λ config, is_Some (GATE_FUNCTIONS !! config.1)) configs →
  ∃ count' st',
    for_each configs
      (λ successful_builds '(gate_name, (threshold, delay)),
         success ← create_optimized_binary env gate_name threshold delay;
         mret (if success : bool then S successful_builds
               else successful_builds))
      count st = (Ok count', st') ∧
    (count ≤ count' ≤ count + length configs)%nat ∧
    (clock st + length configs ≤ clock st')%nat ∧
    ((∀ n, exits_zero env n) → count' = (count + length configs)%nat) ∧
    ((∀ n, exits_nonzero env n) → count' = count).
Proof.
  intros Hl Hkc Hkm Hc Hm Hknown. revert count st Hc Hm.
  induction Hknown as [|[gate_name [threshold delay]] configs Hg _ IH];
    intros count st Hc Hm.
  - exists count, st. simpl. repeat split; lia.
  - cbn [for_each]. rewrite bind_eq.
    destruct (create_optimized_binary_launched env gate_name threshold delay
                st _ _ Hl Hc Hm Hg) as (success & st1 & Hrun & Hclock & Hz & Hnz).
    rewrite bind_eq, Hrun. cbn [mret M_ret].
    pose proof (create_optimized_binary_leaves env gate_name threshold delay
                  "gates/compose.cpp"
                  (λ Heq, proj1 (temp_main_is_no_template gate_name) (eq_sym Heq))
                  (λ Heq, proj1 (temp_compose_is_no_template gate_name) (eq_sym Heq))
                  Hkc st) as Hc1.
    pose proof (create_optimized_binary_leaves env gate_name threshold delay
                  "main.cpp"
                  (λ Heq, proj2 (temp_main_is_no_template gate_name) (eq_sym Heq))
                  (λ Heq, proj2 (temp_compose_is_no_template gate_name) (eq_sym Heq))
                  Hkm st) as Hm1.
    rewrite Hrun in Hc1, Hm1. cbn [snd] in Hc1, Hm1.
    rewrite Hc in Hc1. rewrite Hm in Hm1.
    destruct (IH (if success then S count else count) st1 Hc1 Hm1)
      as (count' & st' & Hloop & Hcount & Hclock' & Hz' & Hnz').
    exists count', st'. split; [exact Hloop|]. cbn [length].
    split; [destruct success; lia|]. split; [lia|]. split.
    + intros Hall. rewrite (Hz' Hall).
      destruct (Hz (λ k _, Hall _)) as [-> _]. lia.
    + intros Hall. rewrite (Hnz' Hall).
      rewrite Hnz; [done|]. exists 0%nat. split; [lia|apply Hall].
Qed.

(** X7. With both templates in place and kept by the commands, and
    every command startable, the loop of [main] attempts every configured
    gate, running at least one command for each, and counts at most 7
    successes out of 7: 7 when every command exits with status 0, none when
    every command exits with a nonzero status. *)
Theorem every_configured_binary_is_attempted
    (env : environment) (st : os_state) (content_compose content_main : string) :
  launches env →
  keeps env "gates/compose.cpp" → keeps env "main.cpp" →
  files st !! "gates/compose.cpp" = Some content_compose →
  files st !! "main.cpp" = Some content_main →
  ∃ successful_builds st',
    Binaries.main_builds env st = (Ok (successful_builds, 7%nat), st') ∧
    (successful_builds ≤ 7)%nat ∧
    (clock st + 7 ≤ clock st')%nat ∧
    ((∀ n, exits_zero env n) → successful_builds = 7%nat) ∧
    ((∀ n, exits_nonzero env n) → successful_builds = 0%nat).
Proof.
  intros Hl Hkc Hkm Hc Hm.
  destruct (builds_loop env BEST_CONFIGS 0 st _ _ Hl Hkc Hkm Hc Hm
              best_configs_are_known)
    as (count & st' & Hloop & Hcount & Hclock & Hz & Hnz).
  exists count, st'. unfold Binaries.main_builds. rewrite bind_eq, Hloop.
  split; [done|]. simpl in *. repeat split; try lia; auto.
Qed.

(** ** The parser on whole captures *)

Section capture_facts.
Context `{PyFloat}.

Lemma find_gate_in_catalogue prev gate :
  matching_gate prev = Some gate →
  gate ∈ GATE_NAMES ∧ Str.contains (gate_header gate) prev = true.
Proof.
  unfold matching_gate. intros Hf. apply find_some in Hf as [Hin Hc].
  split; [by apply list_elem_of_In|done].
Qed.

(** What one turn of the loop can do to the mapping. *)
Lemma parse_line_cases lines line acc acc' :
  parse_line lines line acc = Ok acc' →
  acc' = acc ∨
  ∃ prev gate accuracy,
    Str.contains marker line = true ∧
    prev_line lines line = Ok prev ∧
    matching_gate prev = Some gate ∧
    line_accuracy line = Ok accuracy ∧
    acc' = <[gate := accuracy]> acc.
Proof.
  unfold parse_line. destruct (Str.contains marker line) eqn:Hm.
  2:{ intros [= <-]. by left. }
  destruct (prev_line lines line) as [prev|e] eqn:Hp; [|done].
  unfold mbind at 1, result_bind at 1. rewrite record_gate_find.
  fold (matching_gate prev).
  destruct (matching_gate prev) as [gate|] eqn:Hg.
  2:{ intros [= <-]. by left. }
  destruct (line_accuracy line) as [accuracy|e] eqn:Ha; [|done].
  intros [= <-]. right. by exists prev, gate, accuracy.
Qed.

Lemma parse_lines_sound lines todo acc m gate accuracy :
  parse_lines lines todo acc = Ok m →
  m !! gate = Some accuracy →
  acc !! gate = Some accuracy ∨
  gate ∈ GATE_NAMES ∧
  ∃ line, line ∈ todo ∧ Str.contains marker line = true ∧
          line_accuracy line = Ok accuracy.
Proof.
  revert acc. induction todo as [|line todo IH]; intros acc.
  - intros [= <-]. by left.
  - cbn [parse_lines].
    destruct (parse_line lines line acc) as [acc'|e] eqn:Hl; [|done].
    unfold mbind, result_bind. intros Hrest Hm.
    destruct (IH acc' Hrest Hm) as [Hacc|(Hg & l & Hin & Hmark & Hval)].
    2:{ right. split; [done|]. exists l. split; [by right|done]. }
    apply parse_line_cases in Hl
      as [->|(prev & g & v & Hmark & _ & Hg & Hv & ->)]; [by left|].
    destruct (decide (g = gate)) as [->|Hne].
    + rewrite lookup_insert_eq in Hacc. injection Hacc as ->.
      right. split; [by apply (find_gate_in_catalogue prev)|].
      exists line. split; [by left|done].
    + rewrite lookup_insert_ne in Hacc by done. by left.
Qed.

(** X9. Every entry of the parsed mapping is for a gate of the
    catalogue, and its accuracy is the one read from some marker line of
    the capture. *)
Theorem recorded_accuracies_come_from_marker_lines
    (stdout : string) (m : gmap string float) (gate : string) (accuracy : float) :
  parse_output stdout = Ok m →
  m !! gate = Some accuracy →
  gate ∈ GATE_NAMES ∧
  ∃ line, line ∈ Str.splitlines stdout ∧
          Str.contains marker line = true ∧
          line_accuracy line = Ok accuracy.
Proof.
  unfold parse_output. intros Hp Hm.
  by destruct (parse_lines_sound _ _ _ _ _ _ Hp Hm) as [?|?].
Qed.

Lemma parse_lines_without_marker lines todo acc :
  Forall (λ line, Str.contains marker line = false) todo →
  parse_lines lines todo acc = Ok acc.
Proof.
  induction 1 as [|line todo Hl _ IH]; [done|].
  cbn [parse_lines]. unfold parse_line. by rewrite Hl.
Qed.

(** X8. A capture in which no line holds the marker, the empty capture
    among them, parses to the empty mapping. *)
Theorem capture_without_marker_gives_the_empty_mapping (stdout : string) :
  Forall (λ line, Str.contains marker line = false) (Str.splitlines stdout) →
  parse_output stdout = Ok ∅.
Proof. apply parse_lines_without_marker. Qed.

(** In a list without repetition, the position found for a line is its
    own. *)
Lemma index_nodup (lines : list string) i line :
  NoDup lines → lines !! i = Some line → Str.index line lines = Some i.
Proof.
  intros Hnd. revert i. induction Hnd as [|x l Hx _ IH]; intros i; [done|].
  destruct i as [|i]; simpl.
  - intros [= ->]. by rewrite decide_True.
  - intros Hi. rewrite decide_False.
    + by rewrite (IH i Hi).
    + intros ->. apply Hx. by eapply list_elem_of_lookup_2.
Qed.

Lemma getitem_nat {A} (l : list A) (i : nat) : Str.getitem l (Z.of_nat i) = l !! i.
Proof.
  unfold Str.getitem. rewrite decide_True by lia. by rewrite Nat2Z.id.
Qed.

Lemma prev_line_nodup (lines : list string) i prev line :
  NoDup lines → lines !! i = Some prev → lines !! S i = Some line →
  prev_line lines line = Ok prev.
Proof.
  intros Hnd Hprev Hline.
  unfold prev_line. rewrite (index_nodup lines (S i) line Hnd Hline). simpl.
  replace (Z.of_nat (S i) - 1) with (Z.of_nat i) by lia.
  by rewrite getitem_nat, Hprev.
Qed.

(** X10. When no two lines of the capture are equal, the line looked
    at for a line that is not the first is the line just before it. *)
Theorem distinct_lines_are_read_with_their_predecessor
    (lines : list string) (i : nat) (prev line : string)
    (acc : gmap string float) :
  NoDup lines →
  lines !! i = Some prev →
  lines !! S i = Some line →
  prev_line lines line = Ok prev ∧
  parse_line lines line acc =
    if Str.contains marker line
    then record_gate GATE_NAMES prev line acc
    else Ok acc.
Proof.
  intros Hnd Hprev Hline.
  pose proof (prev_line_nodup lines i prev line Hnd Hprev Hline) as Hp.
  split; [done|]. unfold parse_line. by rewrite Hp.
Qed.




End capture_facts.

(** ** What the selector reads and what it rejects *)

Section selector_edges.
Context `{PyFloat}.

Lemma zip_with_take_l {A B C} (f : A → B → C) (l : list A) (k : list B) :
  zip_with f l (take (length l) k) = zip_with f l k.
Proof.
  revert k. induction l as [|x l IH]; intros [|y k]; simpl; try done.
  by rewrite IH.
Qed.

(** X12. The scan of a row looks at no more values than there are
    delays. *)
Theorem values_beyond_the_last_delay_are_ignored
    (threshold : Z) (accuracies : list float) (best : best_config float) :
  scan_row threshold 0 accuracies best =
  scan_row threshold 0 (take (length DELAYS) accuracies) best.
Proof. by rewrite !scan_row_zip, zip_with_take_l. Qed.

Lemma select_line_readable best line :
  (∃ best', select_line best line = Ok best') ↔ readable_row line.
Proof.
  unfold select_line, readable_row.
  destruct (Str.split (Str.strip line)) as [|first values].
  - split; [done|]. intros _. by eexists.
  - destruct (Str.to_int first) as [threshold|]; simpl.
    + split; [by eexists|]. intros _. by eexists.
    + split; [by intros [? ?]|]. by intros [? ?].
Qed.

Lemma select_line_raises best line e :
  select_line best line = Raise e → e = ValueError.
Proof.
  unfold select_line.
  destruct (Str.split (Str.strip line)) as [|first values]; [done|].
  destruct (Str.to_int first) as [threshold|]; simpl; [done|]. by intros [= <-].
Qed.

Lemma select_lines_readable lines best :
  (∃ best', select_lines lines best = Ok best') ↔ Forall readable_row lines.
Proof.
  revert best. induction lines as [|line lines IH]; intros best.
  - split; [constructor|]. intros _. by eexists.
  - cbn [select_lines]. rewrite Forall_cons.
    rewrite <- (select_line_readable best line). split.
    + intros [best' Hb].
      destruct (select_line best line) as [best1|e] eqn:Hl; [|done].
      split; [by eexists|]. apply (IH best1). by exists best'.
    + intros [[best1 Hl] Hrest]. rewrite Hl.
      apply (IH best1) in Hrest as [best' Hb]. by exists best'.
Qed.

Lemma select_lines_raises lines best e :
  select_lines lines best = Raise e → e = ValueError.
Proof.
  revert best. induction lines as [|line lines IH]; intros best; [done|].
  cbn [select_lines].
  destruct (select_line best line) as [best1|e1] eqn:Hl.
  - apply IH.
  - intros [= <-]. by eapply select_line_raises.
Qed.

(** X13. The selector returns a record exactly when every line after
    the first two is blank or starts with an integer; when it raises, it
    raises [ValueError]. *)
Theorem selector_raises_only_on_an_unreadable_threshold (text : string) :
  ((∃ best, select_best text = Ok best) ↔
   Forall readable_row (drop 2 (Str.readlines text))) ∧
  ∀ e, select_best text = Raise e → e = ValueError.
Proof.
  split; [apply select_lines_readable|].
  intros e. apply select_lines_raises.
Qed.

End selector_edges.

(** ** Reading back what the sweep wrote *)

Lemma all_chars_app P a b :
  all_chars P (a +:+ b) = all_chars P a && all_chars P b.
Proof.
  induction a as [|c a IH]; [done|]. rewrite str_app_cons. simpl.
  by rewrite IH, andb_assoc.
Qed.

Lemma blank_is_no_line_end c :
  Str.eqb_char c "010" || Str.eqb_char c "013" = true → Str.is_space c = true.
Proof.
  intros [Hc|Hc]%orb_prop; apply Ascii.eqb_eq in Hc as ->; reflexivity.
Qed.

(** A line without line ends, then a line feed: [readlines] gives it as one
    line and goes on after it. *)
Lemma read_segments_line line rest :
  all_chars (λ c, negb (Str.eqb_char c "010" || Str.eqb_char c "013")) line
    = true →
  Str.read_segments (line +:+ Str.nl +:+ rest) =
  (line +:+ Str.nl) :: Str.read_segments rest.
Proof.
  induction line as [|c line IH]; [done|]. cbn [all_chars].
  intros [Hc Hline]%andb_prop. apply negb_true_iff, orb_false_elim in Hc as [H1 H2].
  rewrite !str_app_cons. cbn [Str.read_segments]. rewrite H1, H2.
  by rewrite (IH Hline).
Qed.

Lemma readlines_line line rest :
  all_chars (λ c, negb (Str.eqb_char c "010" || Str.eqb_char c "013")) line
    = true →
  Str.readlines (line +:+ Str.nl +:+ rest) =
  (line +:+ Str.nl) :: Str.readlines rest.
Proof.
  intros Hline. unfold Str.readlines. rewrite read_segments_line by done.
  destruct line; [done|]. by rewrite str_app_cons.
Qed.

Local Abbreviation no_line_end :=
  (λ c, negb (Str.eqb_char c "010" || Str.eqb_char c "013")).

Lemma padding_has_no_line_end n :
  all_chars no_line_end (string_of_list_ascii (replicate n " "%char)) = true.
Proof. induction n as [|n IH]; [done|]. simpl. exact IH. Qed.

Lemma fitting_text_has_no_line_end s :
  fits_cell s = true → all_chars no_line_end (Str.ljust 10 s) = true.
Proof.
  unfold fits_cell. intros [[_ Hs]%andb_prop _]%andb_prop.
  unfold Str.ljust. rewrite all_chars_app, padding_has_no_line_end, andb_true_r.
  eapply all_chars_impl; [|exact Hs]. intros c Hc. cbv beta in *.
  destruct (Str.eqb_char c "010" || Str.eqb_char c "013") eqn:Hle; [|done].
  apply blank_is_no_line_end in Hle. by rewrite Hle in Hc.
Qed.

Lemma foldl_append_all_chars {A} P (f : A → string) (l : list A) init :
  all_chars P init = true → Forall (λ x, all_chars P (f x) = true) l →
  all_chars P (foldl (λ text x, text +:+ f x) init l) = true.
Proof.
  intros Hinit Hl. revert init Hinit.
  induction Hl as [|x l Hx _ IH]; intros init Hinit; [done|].
  simpl. apply IH. by rewrite all_chars_app, Hinit, Hx.
Qed.

Lemma omap_fmap_compose {A B C} (f : B → option C) (g : A → B) (l : list A) :
  omap f (g <$> l) = omap (λ x, f (g x)) l.
Proof.
  induction l as [|x l IH]; [done|]. cbn [fmap list_fmap omap list_omap].
  fold (g <$> l). by rewrite IH.
Qed.

Section read_back.
Context `{PyFloat}.

Lemma readlines_file_head gate rest :
  gate ∈ GATE_NAMES →
  drop 2 (Str.readlines (file_head gate +:+ rest)) = Str.readlines rest.
Proof.
  intros Hg. unfold file_head.
  rewrite !str_app_assoc.
  assert (Hgate : all_chars no_line_end gate = true).
  { repeat (apply elem_of_cons in Hg as [->|Hg]; [reflexivity|]).
    by apply elem_of_nil in Hg. }
  rewrite <- (str_app_assoc "# Results for " gate).
  rewrite <- (str_app_assoc _ " gate").
  rewrite readlines_line.
  2:{ by rewrite !all_chars_app, Hgate. }
  rewrite readlines_line; [done|reflexivity].
Qed.

Lemma readlines_rows gate (grid : list (Z * list (gmap string float))) :
  fits_grid gate grid →
  Str.readlines (foldr (λ row text, row_text gate row +:+ text) EmptyString grid)
  = row_text gate <$> grid.
Proof.
  induction 1 as [|[t res] grid [Ht Hres] _ IH]; [done|].
  cbn [foldr fmap list_fmap]. unfold row_text at 1. cbn [fst snd] in *.
  rewrite str_app_assoc, readlines_line, IH; [done|].
  apply foldl_append_all_chars.
  - by apply fitting_text_has_no_line_end, threshold_fits.
  - eapply Forall_impl; [exact Hres|]. intros m Hm.
    by apply fitting_text_has_no_line_end.
Qed.

Lemma parse_row_row_text gate (row : Z * list (gmap string float)) :
  row.1 ∈ THRESHOLDS →
  Forall (λ measured, fits_cell (cell_text measured gate) = true) row.2 →
  parse_row (row_text gate row) =
  Ok (Some (row_read_back gate row)).
Proof.
  intros Ht Hfit. unfold parse_row.
  destruct (row_reads_back gate row Ht) as [_ Hsplit].
  rewrite (Hsplit Hfit), (threshold_reads_back _ Ht).
  cbn [or_raise mbind result_bind]. unfold row_read_back.
  by rewrite omap_fmap_compose.
Qed.

Lemma parse_rows_row_texts gate (grid : list (Z * list (gmap string float))) :
  fits_grid gate grid →
  parse_rows (row_text gate <$> grid) =
  Ok (row_read_back gate <$> grid).
Proof.
  induction 1 as [|row grid [Ht Hres] _ IH]; [done|].
  cbn [fmap list_fmap parse_rows].
  rewrite (parse_row_row_text gate row Ht Hres).
  change (list_fmap _ _ (row_text gate) grid) with (row_text gate <$> grid).
  rewrite IH. done.
Qed.

Lemma matrix_text_rows gate grid :
  matrix_text gate grid =
  file_head gate +:+
  foldr (λ row text, row_text gate row +:+ text) EmptyString grid.
Proof.
  unfold matrix_text.
  rewrite <- (str_app_nil_r (foldl _ _ _)).
  apply (foldl_foldr_append (row_text gate)).
Qed.

Lemma matrix_of_matrix_text gate grid :
  gate ∈ GATE_NAMES →
  fits_grid gate grid →
  matrix_of (matrix_text gate grid) =
  Ok (row_read_back gate <$> grid).
Proof.
  intros Hg Hgrid. unfold matrix_of.
  rewrite matrix_text_rows, readlines_file_head, readlines_rows by done.
  by apply parse_rows_row_texts.
Qed.

(** X15. A result file written for a gate of the catalogue, from rows
    whose formatted accuracies fit their cells, reads back as these rows:
    the thresholds, each with the formatted accuracies that [float()]
    accepts. *)
Theorem written_matrix_reads_back
    (gate : string) (grid : list (Z * list (gmap string float))) :
  gate ∈ GATE_NAMES →
  fits_grid gate grid →
  matrix_of (matrix_text gate grid) =
  Ok (row_read_back gate <$> grid).
Proof. apply matrix_of_matrix_text. Qed.

End read_back.

(** ** The sweep when it is cut short, and the selection after it *)

Section main_facts.
Context `{PyFloat}.
Variable env : environment.





(** The loop of the selection reads the result files and changes nothing. *)
Lemma select_loop gates (acc : list (string * best_config float)) st bc st' :
  for_each gates
    (λ best_configs gate,
       text ← read_result (results_path gate);
       best ← lift_result (select_best text);
       mret (best_configs ++ [(gate, best)])) acc st = (Ok bc, st') →
  st' = st ∧
  ∃ new, bc = acc ++ new ∧ new.*1 = gates ∧
    Forall (λ '(gate, best),
              ∃ text, result_files st !! results_path gate = Some text ∧
                      select_best text = Ok best) new.
Proof.
  revert acc. induction gates as [|gate gates IH]; intros acc.
  - intros [= <- <-]. split; [done|]. exists []. by rewrite app_nil_r.
  - cbn [for_each]. rewrite !bind_eq. unfold read_result at 1.
    destruct (result_files st !! results_path gate) as [text|] eqn:Hf; [|done].
    cbn [or_raise]. rewrite bind_eq. unfold lift_result at 1.
    destruct (select_best text) as [best|e] eqn:Hs; [|done].
    cbn [mret M_ret]. intros Hrest.
    apply IH in Hrest as (-> & new & -> & Hfst & Hnew).
    split; [done|]. exists ((gate, best) :: new).
    split; [by rewrite <- app_assoc|]. split; [simpl; by f_equal|].
    constructor; [|done]. by exists text.
Qed.

(** X19. When [main] returns, it returns one record per gate, in
    catalogue order; each record is what the selector reads from the file
    the sweep wrote for the gate; and [output.txt] holds the summary of
    these records. *)
Theorem main_reports_what_it_selects_from_its_files
    (st st' : sweep_state) (best_configs : list (string * best_config float)) :
  main env st = (Ok best_configs, st') →
  ∃ grid o,
    measure_grid env (os st) = (Ok grid, o) ∧
    os st' = OsState (<["output.txt" := summary best_configs]> (files o))
               (clock o) ∧
    best_configs.*1 = GATE_NAMES ∧
    Forall (λ '(gate, best),
              result_files st' !! results_path gate
                = Some (matrix_text gate grid) ∧
              select_best (matrix_text gate grid) = Ok best) best_configs.
Proof.
  unfold main. rewrite bind_eq.
  destruct (open_result_files_heads st) as (rf & -> & Hheads).
  rewrite bind_eq.
  destruct (sweep env (SweepState (os st) rf)) as [[[]|e] st1] eqn:Hsweep;
    [|done].
  unfold sweep in Hsweep.
  apply (sweep_ok env THRESHOLDS file_head) in Hsweep
    as (grid & Hgrid & Hlens & Hfiles); [|done].
  rewrite bind_eq.
  destruct (select_all st1) as [[bc|e] st2] eqn:Hsel; [|done].
  apply select_loop in Hsel as (-> & new & -> & Hfst & Hnew).
  rewrite bind_eq. unfold lift_os, write_file. cbn [mret M_ret].
  intros [= <- <-]. exists grid, (os st1). cbn [os result_files].
  split; [done|]. split; [done|]. split; [done|].
  change ([] ++ new) with new in *.
  assert (Hin : Forall (λ gate, gate ∈ GATE_NAMES) new.*1).
  { rewrite Hfst. by apply Forall_forall. }
  clear Hfst. induction Hnew as [|[gate best] new (text & Htext & Hbest) _ IH];
    [constructor|].
  apply Forall_cons in Hin as [Hg Hin]. constructor; [|by apply IH].
  rewrite (Hfiles gate Hg) in Htext. injection Htext as <-.
  split; [by apply Hfiles|done].
Qed.

(** X5. Neither operation is ever left with [CalledProcessError]. *)
Theorem called_process_error_never_escapes
    (threshold delay : Z) (gate_name : string) (st : os_state) :
  (test_parameters env threshold delay st).1 ≠ Raise CalledProcessError ∧
  (create_optimized_binary env gate_name threshold delay st).1
    ≠ Raise CalledProcessError.
Proof.
  split.
  - unfold test_parameters, write_variant. rewrite !bind_eq.
    unfold read_file at 1.
    destruct (files st !! "gates/compose.cpp") as [cc|]; [|done].
    cbn [or_raise]. rewrite bind_eq. unfold write_file at 1.
    rewrite bind_eq. unfold read_file at 1. cbn [files].
    destruct (_ !! "main.cpp") as [cm|]; [|done].
    cbn [or_raise]. unfold write_file at 1.
    rewrite (try_finally_state _ _ _ _ clean_up_deletes).
    unfold try_except_called_process_error. cbn [fst].
    by destruct (build_run_parse env _) as [[m|[]] st2].
  - unfold create_optimized_binary. rewrite bind_eq. unfold lift_result at 1.
    destruct (GATE_FUNCTIONS !! gate_name) as [[gate_function input_count]|];
      [|done].
    cbn [or_raise]. rewrite bind_eq. unfold read_file at 1.
    destruct (files st !! "gates/compose.cpp") as [cc|]; [|done].
    cbn [or_raise]. rewrite bind_eq. unfold write_file at 1.
    rewrite bind_eq. unfold read_file at 1. cbn [files].
    destruct (_ !! "main.cpp") as [cm|]; [|done].
    cbn [or_raise]. rewrite bind_eq. unfold write_file at 1.
    rewrite (try_finally_state _ _ _ _ (clean_up_binary_deletes gate_name)).
    unfold try_except_called_process_error. cbn [fst].
    by destruct (build_binary env gate_name _) as [[m|[]] st2].
Qed.

End main_facts.

(** ** Decimal numerals *)

Lemma pretty_N_char_digit x : Re.is_digit (pretty_N_char x) = true.
Proof. unfold pretty_N_char. by repeat case_match. Qed.

Lemma pretty_N_go_digits x s :
  all_chars Re.is_digit s = true →
  all_chars Re.is_digit (pretty_N_go x s) = true.
Proof.
  revert s. induction (N.lt_wf_0 x) as [x _ IH]; intros s Hs.
  assert (x = 0 ∨ 0 < x)%N as [->|Hx] by lia; [done|].
  rewrite pretty_N_go_step by done. apply IH; [by apply N.div_lt|].
  simpl. by rewrite pretty_N_char_digit.
Qed.

Lemma pretty_N_go_nonempty x s :
  (0 < x)%N → pretty_N_go x s ≠ EmptyString.
Proof.
  revert s. induction (N.lt_wf_0 x) as [x _ IH]; intros s Hx.
  rewrite pretty_N_go_step by done.
  destruct (N.eq_0_gt_0_cases (x `div` 10)) as [->|Hd]; [done|].
  apply IH; [by apply N.div_lt|done].
Qed.

(** The numeral of an integer that is not negative: digits, at least one. *)
Lemma pretty_digits (t : Z) :
  0 <= t →
  pretty t ≠ EmptyString ∧ all_chars Re.is_digit (pretty t) = true.
Proof.
  intros Ht. destruct t as [|p|p]; [done| |lia].
  change (pretty (Z.pos p)) with (pretty_N_go (N.pos p) EmptyString).
  split; [by apply pretty_N_go_nonempty|by apply pretty_N_go_digits].
Qed.

Lemma pretty_N_char_value x :
  (x < 10)%N →
  Z.of_nat (nat_of_ascii (pretty_N_char x) - 48) = Z.of_N x.
Proof.
  intros Hx.
  assert (x = 0 ∨ x = 1 ∨ x = 2 ∨ x = 3 ∨ x = 4 ∨ x = 5 ∨ x = 6 ∨ x = 7 ∨
          x = 8 ∨ x = 9)%N as Hc by lia.
  repeat (destruct Hc as [->|Hc]; [reflexivity|]). by subst.
Qed.

Lemma int_digits_digit c s acc after :
  Re.is_digit c = true →
  Str.int_digits (String c s) acc after =
  Str.int_digits s (10 * acc + Z.of_nat (nat_of_ascii c - 48)) true.
Proof. intros Hc. cbn [Str.int_digits]. unfold Re.is_digit in Hc. by rewrite Hc. Qed.

(** Reading the digits that [pretty_N_go] puts before [s]. *)
Lemma int_digits_pretty_N_go x :
  ∃ k : Z, 0 <= k ∧ ∀ s acc after,
    Str.int_digits (pretty_N_go x s) acc after =
    Str.int_digits s (acc * 10 ^ k + Z.of_N x)
      (if decide (0 < x)%N then true else after).
Proof.
  induction (N.lt_wf_0 x) as [x _ IH].
  assert (x = 0 ∨ 0 < x)%N as [->|Hx] by lia.
  { exists 0. split; [done|]. intros s acc after. rewrite pretty_N_go_0.
    rewrite decide_False by lia. f_equal. lia. }
  destruct (IH (x `div` 10)%N) as (k & Hk & Hread); [by apply N.div_lt|].
  exists (k + 1). split; [lia|]. intros s acc after.
  rewrite pretty_N_go_step, Hread by done.
  rewrite int_digits_digit by apply pretty_N_char_digit.
  rewrite pretty_N_char_value by (by apply N.mod_lt).
  rewrite decide_True by done. f_equal.
  rewrite Z.pow_add_r, Z.pow_1_r by lia.
  rewrite (N.div_mod x 10) at 3 by done.
  rewrite N2Z.inj_add, N2Z.inj_mul. change (Z.of_N 10) with 10. lia.
Qed.

Lemma to_int_digit_head c s :
  Re.is_digit c = true →
  Str.to_int (String c s) = Str.int_digits (String c s) 0 false.
Proof.
  destruct c as [[] [] [] [] [] [] [] []]; try discriminate; reflexivity.
Qed.

Lemma to_int_pretty_pos p : Str.to_int (pretty (Z.pos p)) = Some (Z.pos p).
Proof.
  change (pretty (Z.pos p)) with (pretty_N_go (N.pos p) EmptyString).
  pose proof (pretty_N_go_nonempty (N.pos p) EmptyString) as Hne.
  pose proof (pretty_N_go_digits (N.pos p) EmptyString eq_refl) as Hd.
  destruct (int_digits_pretty_N_go (N.pos p)) as (k & Hk & Hread).
  specialize (Hread EmptyString 0 false).
  destruct (pretty_N_go (N.pos p) EmptyString) as [|c s]; [by destruct Hne|].
  simpl in Hd. apply andb_prop in Hd as [Hc _].
  rewrite to_int_digit_head, Hread by done.
  rewrite decide_True by lia. simpl. f_equal.
Qed.

(** X14. The text written for a threshold reads back as that
    threshold: [int(str(t))] is [t]. *)
Theorem written_threshold_is_read_back (threshold : Z) :
  Str.to_int (pretty threshold) = Some threshold.
Proof.
  destruct threshold as [|p|p]; [done|apply to_int_pretty_pos|].
  change (pretty (Z.neg p)) with ("-" +:+ pretty (Z.pos p)).
  rewrite str_app_cons, str_app_nil_l.
  pose proof (to_int_pretty_pos p) as Hp.
  change (pretty (Z.pos p)) with (pretty_N_go (N.pos p) EmptyString) in *.
  pose proof (pretty_N_go_nonempty (N.pos p) EmptyString) as Hne.
  pose proof (pretty_N_go_digits (N.pos p) EmptyString eq_refl) as Hd.
  destruct (pretty_N_go (N.pos p) EmptyString) as [|c s]; [by destruct Hne|].
  simpl in Hd. apply andb_prop in Hd as [Hc _].
  rewrite to_int_digit_head in Hp by done.
  change (Str.to_int (String "-" (String c s)))
    with (Z.opp <$> Str.int_digits (String c s) 0 false).
  by rewrite Hp.
Qed.

(** ** Cells wider than their column *)

Section wide_cells.
Context `{PyFloat}.

(** X17. A formatted accuracy of ten characters or more is written
    with no blank after it, and is read back as one token with the cell that
    follows. *)
Theorem wide_value_runs_into_the_next_cell
    (wide next : gmap string float) (gate rest : string) :
  all_chars (λ c, negb (Str.is_space c)) (cell_text wide gate) = true →
  (10 ≤ String.length (cell_text wide gate))%nat →
  fits_cell (cell_text next gate) = true →
  cell wide gate = cell_text wide gate ∧
  Str.split (cell wide gate +:+ cell next gate +:+ rest) =
  (cell_text wide gate +:+ cell_text next gate) :: Str.split rest.
Proof.
  intros Hw Hlen. unfold cell, fits_cell.
  generalize (cell_text wide gate) (cell_text next gate) Hw Hlen.
  clear. intros s s' Hs Hlen [[Hne Hs']%andb_prop Hlen']%andb_prop.
  apply Nat.ltb_lt in Hlen'.
  assert (Hj : Str.ljust 10 s = s).
  { unfold Str.ljust. replace (10 - String.length s)%nat with 0%nat by lia.
    apply str_app_nil_r. }
  split; [done|]. rewrite Hj. unfold Str.ljust.
  destruct (10 - String.length s')%nat as [|n] eqn:Hn; [lia|].
  cbn [replicate string_of_list_ascii].
  rewrite <- !str_app_assoc, (str_app_assoc (s +:+ s')), str_app_cons.
  rewrite split_token, split_blank_prefix; [done|apply blank_padding| | |done].
  - destruct s; [simpl in Hlen; lia|done].
  - by rewrite all_chars_app, Hs, Hs'.
Qed.

End wide_cells.

(** ** The generated texts for any parameters *)

Lemma sub_without_match p r s : Re.findall p s = [] → Re.sub p r s = s.
Proof.
  unfold Re.findall, Re.sub. induction s as [|c s IH]; [done|].
  cbn [Re.findall_from Re.sub_from].
  destruct (Re.match_here p (String c s)) as [[|n]|]; [|done|].
  - intros Hf. by rewrite (IH Hf).
  - intros Hf. by rewrite (IH Hf).
Qed.

(** X20. A template with no threshold directive and no delay
    directive is generated unchanged. *)
Theorem template_without_directives_is_copied
    (threshold delay : Z) (content : string) :
  Re.findall threshold_re content = [] →
  Re.findall delay_re content = [] →
  set_parameters threshold delay content = content.
Proof.
  intros Ht Hd. unfold set_parameters.
  by rewrite (sub_without_match threshold_re), (sub_without_match delay_re).
Qed.

Lemma opaque_threshold_directive a pbody ds :
  opaque (Re.Chr a :: pbody) "#define THRESHOLD " → Re.is_digit a = false →
  all_chars Re.is_digit ds = true →
  opaque (Re.Chr a :: pbody) ("#define THRESHOLD " +:+ ds).
Proof. intros. by apply (opaque_directive a pbody _ Re.is_digit). Qed.

Lemma opaque_delay_directive a pbody ds :
  opaque (Re.Chr a :: pbody) "#define DELAY " → Re.is_digit a = false →
  all_chars Re.is_digit ds = true →
  opaque (Re.Chr a :: pbody) ("#define DELAY " +:+ ds).
Proof. intros. by apply (opaque_directive a pbody _ Re.is_digit). Qed.

Lemma set_parameters_directives threshold delay content :
  0 <= threshold → 0 <= delay →
  Re.findall threshold_re (set_parameters threshold delay content)
    = (λ _, threshold_directive threshold) <$> Re.findall threshold_re content ∧
  Re.findall delay_re (set_parameters threshold delay content)
    = (λ _, delay_directive delay) <$> Re.findall delay_re content.
Proof.
  intros [Htne Htd]%pretty_digits [Hdne Hdd]%pretty_digits.
  unfold set_parameters, threshold_directive, delay_directive. split.
  - change ("#define DELAY " +:+ pretty delay)
      with (String "#" ("define DELAY " +:+ pretty delay)).
    rewrite threshold_after_delay.
    + by apply threshold_rewritten.
    + apply (opaque_delay_directive "#" tbody); [opaque_text|done|done].
  - rewrite delay_rewritten by done. f_equal.
    change ("#define THRESHOLD " +:+ pretty threshold)
      with (String "#" ("define THRESHOLD " +:+ pretty threshold)).
    rewrite delay_after_threshold; [done|].
    apply (opaque_threshold_directive "#" dbody); [opaque_text|done|done].
Qed.

(** X21. For parameters that are not negative, every threshold
    directive of a template is rewritten to the new threshold and every
    delay directive to the new delay, as many as there were, in the
    composition text and in the main text. *)
Theorem every_directive_is_rewritten
    (threshold delay : Z) (content_compose content_main : string) :
  0 <= threshold → 0 <= delay →
  let compose := set_parameters threshold delay content_compose in
  let main := Re.sub include_re temp_include
                (set_parameters threshold delay content_main) in
  Re.findall threshold_re compose
    = (λ _, threshold_directive threshold)
        <$> Re.findall threshold_re content_compose ∧
  Re.findall delay_re compose
    = (λ _, delay_directive delay) <$> Re.findall delay_re content_compose ∧
  Re.findall threshold_re main
    = (λ _, threshold_directive threshold)
        <$> Re.findall threshold_re content_main ∧
  Re.findall delay_re main
    = (λ _, delay_directive delay) <$> Re.findall delay_re content_main.
Proof.
  intros Ht Hd. cbv zeta.
  destruct (set_parameters_directives threshold delay content_compose Ht Hd)
    as [Hct Hcd].
  destruct (set_parameters_directives threshold delay content_main Ht Hd)
    as [Hmt Hmd].
  split; [done|]. split; [done|].
  let v := eval vm_compute in temp_include in change temp_include with v.
  rewrite threshold_after_include by opaque_text.
  by rewrite delay_after_include by opaque_text.
Qed.

(** ** The include line *)

Lemma match_here_lit L s :
  Re.match_here (Re.lit L) (L +:+ s) = Some (String.length L).
Proof.
  rewrite <- (app_nil_r (Re.lit L)), match_here_lit_app_eq, match_here_nil.
  simpl. f_equal. lia.
Qed.

(** X24. The include pattern matches exactly the include line of the
    composition file with any character but a line feed where the pattern
    has its unescaped dot. *)
Theorem include_pattern_takes_any_character_for_its_dot (s : string) (n : nat) :
  Re.match_here include_re s = Some n ↔
  ∃ c post,
    c ≠ "010"%char ∧
    s = (("#include " +:+ dquote +:+ "gates/compose") +:+
         String c ("cpp" +:+ dquote)) +:+ post ∧
    n = 28%nat.
Proof.
  split.
  - unfold include_re.
    intros (s1 & n1 & -> & Hm & ->)%match_here_lit_app.
    cbn [app] in Hm. rewrite match_here_dot in Hm.
    destruct s1 as [|c s1]; [done|].
    destruct (Str.eqb_char c "010") eqn:Hc; [done|].
    destruct (Re.match_here (Re.lit ("cpp" +:+ dquote)) s1) as [n2|] eqn:Hm2;
      [|done].
    injection Hm as <-.
    rewrite <- (app_nil_r (Re.lit _)) in Hm2.
    apply match_here_lit_app in Hm2 as (post & n3 & -> & Hn & ->).
    rewrite match_here_nil in Hn. injection Hn as <-.
    exists c, post. split; [|split].
    + intros ->. discriminate.
    + by rewrite !str_app_assoc, str_app_cons.
    + reflexivity.
  - intros (c & post & Hc & -> & ->). unfold include_re.
    rewrite (str_app_assoc _ (String c _)), match_here_lit_app_eq.
    cbn [app]. rewrite (str_app_cons c), match_here_dot.
    replace (Str.eqb_char c "010") with false.
    2:{ symmetry. by apply Ascii.eqb_neq. }
    by rewrite match_here_lit.
Qed.

Lemma include_erased r' s :
  (∀ k c post Z,
     Re.match_here (drop k (tail include_re)) (String "#" r' +:+ Z) =
     Re.match_here (drop k (tail include_re))
       ((("#include " +:+ dquote +:+ "gates/compose") +:+
         String c ("cpp" +:+ dquote)) +:+ post)) →
  opaque include_re (String "#" r') →
  Re.findall include_re (Re.sub include_re (String "#" r') s) = [].
Proof.
  intros Hst Hop.
  apply (findall_sub_erase "#" (tail include_re)); [|done].
  intros k s0 n Z Hm. change (Re.match_here include_re s0 = Some (S n)) in Hm.
  apply include_match in Hm as (c & post & -> & _). apply Hst.
Qed.

Ltac include_suffixes k :=
  do 30 (destruct k as [|k]; [reflexivity|]); reflexivity.

(** X25. After the include substitution no match of the include
    pattern is left, for the temporary composition file and for that of
    every gate of the catalogue. *)
Theorem generated_main_no_longer_includes_the_template (s : string) :
  Re.findall include_re (Re.sub include_re temp_include s) = [] ∧
  ∀ gate_name, gate_name ∈ GATE_NAMES →
    Re.findall include_re (Re.sub include_re (gate_include gate_name) s) = [].
Proof.
  split.
  - let v := eval vm_compute in temp_include in change temp_include with v.
    apply include_erased; [|opaque_text].
    intros k c post Z. include_suffixes k.
  - intros gate_name Hg.
    repeat (apply elem_of_cons in Hg as [->|Hg];
      [match goal with
       | |- context [gate_include ?g] =>
           let v := eval vm_compute in (gate_include g) in
           change (gate_include g) with v
       end;
       apply include_erased; [|opaque_text];
       intros k c post Z; include_suffixes k|]).
    by apply elem_of_nil in Hg.
Qed.

(** ** Substituting twice *)

Section substituting_again.
Variables (a : ascii) (body : list Re.atom) (r1' r2 : string).
Local Abbreviation p := (Re.Chr a :: body).
Local Abbreviation r1 := (String a r1').
Hypothesis Ha : accepts body a = false.

(** The replacement [r1] is itself a match wherever it was put, so a second
    substitution puts its own replacement where the first put [r1]. *)
Lemma sub_again :
  (∀ s n, Re.match_here p s = Some n → ∃ m post, s = m +:+ post ∧
     String.length m = n ∧
     ∀ Z, head_char Z = head_char post →
          Re.match_here p (r1 +:+ Z) = Some (String.length r1)) →
  ∀ s, Re.sub p r2 (Re.sub p r1 s) = Re.sub p r2 s.
Proof.
  intros Hm s.
  remember (String.length s) as len eqn:Hlen.
  revert s Hlen. induction len as [len IH] using lt_wf_ind. intros s ->.
  destruct s as [|c s]; [done|].
  destruct (Re.match_here p (String c s)) as [n|] eqn:Hp.
  - pose proof Hp as (m & post & Hs & Hn & Hre)%Hm.
    pose proof Hp as (? & n' & _ & -> & _)%match_here_chr_head.
    rewrite Hs in *. assert (m ≠ EmptyString) by (by destruct m).
    rewrite <- Hn in Hp.
    rewrite (sub_match p r1), (sub_match p r2 m) by done.
    rewrite sub_match; [|done|apply Hre, sub_head]. f_equal.
    apply (IH (String.length post)); [|done].
    rewrite str_length_app. lia.
  - rewrite (sub_nomatch p r1), (sub_nomatch p r2 c s) by done.
    rewrite sub_nomatch.
    + f_equal. by apply (IH (String.length s)); [simpl; lia|].
    + by rewrite (match_here_sub_cons a a body body r1').
Qed.

End substituting_again.

Section substituting_both.
Variables (a b : ascii) (pbody qbody : list Re.atom) (rp' rq' : string).
Local Abbreviation p := (Re.Chr a :: pbody).
Local Abbreviation q := (Re.Chr b :: qbody).
Local Abbreviation rp := (String a rp').
Local Abbreviation rq := (String b rq').
Hypothesis Hb : accepts pbody b = false.
Hypothesis Ha : accepts qbody a = false.
Hypothesis Hrp : opaque q rp.
Hypothesis Hrq : opaque p rq.
Hypothesis Hpm : ∀ s n, Re.match_here p s = Some n → ∃ m post,
  s = m +:+ post ∧ String.length m = n ∧ opaque q m ∧
  ∀ Z, head_char Z = head_char post →
       Re.match_here p (m +:+ Z) = Some (String.length m).
Hypothesis Hqm : ∀ s n, Re.match_here q s = Some n → ∃ m post,
  s = m +:+ post ∧ String.length m = n ∧ opaque p m ∧
  ∀ Z, head_char Z = head_char post →
       Re.match_here q (m +:+ Z) = Some (String.length m).

(** Two substitutions whose matches and replacements hold no start of a
    match of the other can be made in either order. *)
Lemma sub_commute s :
  Re.sub p rp (Re.sub q rq s) = Re.sub q rq (Re.sub p rp s).
Proof.
  remember (String.length s) as len eqn:Hlen.
  revert s Hlen. induction len as [len IH] using lt_wf_ind. intros s ->.
  destruct s as [|c s]; [done|].
  destruct (Re.match_here q (String c s)) as [n|] eqn:Hq.
  - pose proof Hq as (m & post & Hs & Hn & Hop & Hre)%Hqm.
    pose proof Hq as (? & n' & _ & -> & _)%match_here_chr_head.
    rewrite Hs in *. assert (m ≠ EmptyString) by (by destruct m).
    rewrite <- Hn in Hq.
    rewrite (sub_match q rq) by done.
    rewrite (sub_skip p rp rq), (sub_skip p rp m) by done.
    rewrite (sub_match q rq); [|done|apply Hre, sub_head]. f_equal.
    apply (IH (String.length post)); [|done].
    rewrite str_length_app. lia.
  - rewrite (sub_nomatch q rq) by done.
    destruct (Re.match_here p (String c s)) as [n|] eqn:Hp.
    + pose proof Hp as (m & post & Hs & Hn & Hop & Hre)%Hpm.
      pose proof Hp as (? & n' & _ & -> & _)%match_here_chr_head.
      rewrite <- (sub_nomatch q rq) by done.
      rewrite Hs in *. assert (m ≠ EmptyString) by (by destruct m).
      rewrite <- Hn in Hp.
      rewrite (sub_match p rp m post) by done.
      rewrite (sub_skip q rq rp), (sub_skip q rq m) by done.
      rewrite (sub_match p rp); [|done|apply Hre, sub_head]. f_equal.
      apply (IH (String.length post)); [|done].
      rewrite str_length_app. lia.
    + rewrite (sub_nomatch p rp c s) by done.
      rewrite (sub_nomatch p rp), (sub_nomatch q rq).
      * f_equal. by apply (IH (String.length s)); [simpl; lia|].
      * by rewrite (match_here_sub_cons b a qbody pbody rp').
      * by rewrite (match_here_sub_cons a b pbody qbody rq').
Qed.

End substituting_both.

Lemma threshold_set_again ds r2 s :
  ds ≠ EmptyString → all_chars Re.is_digit ds = true →
  Re.sub threshold_re r2 (Re.sub threshold_re ("#define THRESHOLD " +:+ ds) s)
  = Re.sub threshold_re r2 s.
Proof.
  intros Hne Hall.
  apply (sub_again "#" tbody ("define THRESHOLD " +:+ ds)); [done|].
  intros s0 n Hm.
  change (Re.match_here (Re.lit "#define THRESHOLD " ++ [Re.Plus Re.is_digit]) s0
          = Some n) in Hm.
  apply directive_match in Hm as (ds0 & post & -> & -> & _ & Hpost).
  eexists _, post. split; [done|]. split; [done|]. intros Z HZ.
  apply (directive_rematch "#define THRESHOLD " Re.is_digit ds Z); try done.
  by eapply digits_end.
Qed.

Lemma delay_set_again ds r2 s :
  ds ≠ EmptyString → all_chars Re.is_digit ds = true →
  Re.sub delay_re r2 (Re.sub delay_re ("#define DELAY " +:+ ds) s)
  = Re.sub delay_re r2 s.
Proof.
  intros Hne Hall.
  apply (sub_again "#" dbody ("define DELAY " +:+ ds)); [done|].
  intros s0 n Hm.
  change (Re.match_here (Re.lit "#define DELAY " ++ [Re.Plus Re.is_digit]) s0
          = Some n) in Hm.
  apply directive_match in Hm as (ds0 & post & -> & -> & _ & Hpost).
  eexists _, post. split; [done|]. split; [done|]. intros Z HZ.
  apply (directive_rematch "#define DELAY " Re.is_digit ds Z); try done.
  by eapply digits_end.
Qed.

(** A match of a directive, with its digits: at least one. *)
Lemma directive_match_digits L cls s n :
  Re.match_here (Re.lit L ++ [Re.Plus cls]) s = Some n →
  ∃ ds post, s = (L +:+ ds) +:+ post ∧ n = String.length (L +:+ ds) ∧
    ds ≠ EmptyString ∧ all_chars cls ds = true ∧
    (∀ c, head_char post = Some c → cls c = false).
Proof.
  intros (s' & n' & -> & Hrun & ->)%match_here_lit_app.
  apply match_here_run in Hrun as (ds & post & -> & Hne & <- & Hall & Hpost).
  exists ds, post. rewrite str_app_assoc, str_length_app. by repeat split.
Qed.

Lemma directive_rematches L cls a pbody s n :
  opaque (Re.Chr a :: pbody) L → cls a = false →
  Re.match_here (Re.lit L ++ [Re.Plus cls]) s = Some n →
  ∃ m post, s = m +:+ post ∧ String.length m = n ∧
    opaque (Re.Chr a :: pbody) m ∧
    ∀ Z, head_char Z = head_char post →
         Re.match_here (Re.lit L ++ [Re.Plus cls]) (m +:+ Z)
         = Some (String.length m).
Proof.
  intros HL Ha Hm.
  apply directive_match_digits in Hm as (ds & post & -> & -> & Hne & Hall & Hpost).
  exists (L +:+ ds), post. split; [done|]. split; [done|]. split.
  - by apply (opaque_directive a pbody L cls).
  - intros Z HZ. apply directive_rematch; [done|done|].
    intros c Hc. apply Hpost. by rewrite <- HZ.
Qed.

Lemma directives_commute dt dd s :
  all_chars Re.is_digit dt = true → all_chars Re.is_digit dd = true →
  Re.sub delay_re ("#define DELAY " +:+ dd)
    (Re.sub threshold_re ("#define THRESHOLD " +:+ dt) s) =
  Re.sub threshold_re ("#define THRESHOLD " +:+ dt)
    (Re.sub delay_re ("#define DELAY " +:+ dd) s).
Proof.
  intros Ht Hd.
  apply (sub_commute "#" "#" dbody tbody
           ("define DELAY " +:+ dd) ("define THRESHOLD " +:+ dt)).
  - reflexivity.
  - reflexivity.
  - apply (opaque_delay_directive "#" tbody); [opaque_text|reflexivity|exact Hd].
  - apply (opaque_threshold_directive "#" dbody);
      [opaque_text|reflexivity|exact Ht].
  - intros s0 n Hm.
    apply (directive_rematches "#define DELAY " Re.is_digit "#" tbody s0 n);
      [opaque_text|reflexivity|exact Hm].
  - intros s0 n Hm.
    apply (directive_rematches "#define THRESHOLD " Re.is_digit "#" dbody s0 n);
      [opaque_text|reflexivity|exact Hm].
Qed.

(** X22. The two parameter substitutions can be made in either
    order. *)
Theorem parameters_are_set_in_either_order
    (threshold delay : Z) (content : string) :
  0 <= threshold → 0 <= delay →
  set_parameters threshold delay content =
  Re.sub threshold_re (threshold_directive threshold)
    (Re.sub delay_re (delay_directive delay) content).
Proof.
  intros [_ Ht]%pretty_digits [_ Hd]%pretty_digits.
  unfold set_parameters, threshold_directive, delay_directive.
  by apply directives_commute.
Qed.

(** X23. Setting the parameters in a text whose parameters were set
    before gives what setting them in the template gives: the last
    parameters win, and setting the same ones twice changes nothing. *)
Theorem last_parameters_win
    (threshold delay threshold' delay' : Z) (content : string) :
  0 <= threshold → 0 <= delay → 0 <= threshold' → 0 <= delay' →
  set_parameters threshold' delay' (set_parameters threshold delay content)
  = set_parameters threshold' delay' content.
Proof.
  intros [Htn Ht]%pretty_digits [Hdn Hd]%pretty_digits
         [_ Ht']%pretty_digits [_ Hd']%pretty_digits.
  unfold set_parameters, threshold_directive, delay_directive.
  rewrite <- (directives_commute (pretty threshold') (pretty delay)) by done.
  rewrite delay_set_again by done.
  by rewrite threshold_set_again by done.
Qed.

(** ** A grid point whose build succeeds *)

Section successful_build.
Context `{PyFloat}.
Variable env : environment.

Lemma line_accuracy_raises line e :
  line_accuracy line = Raise e → e ≠ CalledProcessError.
Proof.
  unfold line_accuracy.
  destruct (Re.search accuracy_re line) as [[i n]|]; simpl.
  - destruct (float_of_str _); simpl; [done|]. by intros [= <-].
  - by intros [= <-].
Qed.

Lemma prev_line_raises lines line e :
  prev_line lines line = Raise e → e ≠ CalledProcessError.
Proof.
  unfold prev_line. destruct (Str.index line lines) as [idx|]; simpl.
  - destruct (Str.getitem _ _); simpl; [done|]. by intros [= <-].
  - by intros [= <-].
Qed.

Lemma parse_line_raises lines line acc e :
  parse_line lines line acc = Raise e → e ≠ CalledProcessError.
Proof.
  unfold parse_line. destruct (Str.contains marker line); [|done].
  destruct (prev_line lines line) as [prev|e'] eqn:Hp.
  - unfold mbind at 1, result_bind at 1. rewrite record_gate_find.
    destruct (List.find _ _); [|done].
    destruct (line_accuracy line) as [v|e'] eqn:Hl; [done|].
    intros [= <-]. by eapply line_accuracy_raises.
  - intros [= <-]. by eapply prev_line_raises.
Qed.

(** The parser raises no [CalledProcessError]: the handler of
    [test_parameters] takes nothing from it. *)
Lemma parse_output_raises stdout e :
  parse_output stdout = Raise e → e ≠ CalledProcessError.
Proof.
  unfold parse_output. generalize (∅ : gmap string float).
  generalize (Str.splitlines stdout) at 2. intros todo.
  induction todo as [|line todo IH]; intros acc; [done|].
  cbn [parse_lines].
  destruct (parse_line (Str.splitlines stdout) line acc) as [acc'|e'] eqn:Hl.
  - apply IH.
  - intros [= <-]. by eapply parse_line_raises.
Qed.

(** X4. When the three build commands exit with status 0,
    [test_parameters] ends as the parser does on what the executable
    printed, whatever status the executable exits with, after four
    commands. *)
Theorem successful_build_returns_what_the_parser_reads
    (threshold delay : Z) (st : os_state)
    (content_compose content_main : string) (status : Z) (stdout : string) :
  launches env →
  files st !! "gates/compose.cpp" = Some content_compose →
  files st !! "main.cpp" = Some content_main →
  (∀ k, (k < 3)%nat → exits_zero env (k + clock st)) →
  (∀ argv fs, (env (3 + clock st)%nat argv fs).1 = Exited status stdout) →
  (test_parameters env threshold delay st).1 = parse_output stdout ∧
  clock (test_parameters env threshold delay st).2 = (4 + clock st)%nat.
Proof.
  intros Hl Hc Hm Hz Hrun. unfold test_parameters.
  erewrite bind_ok by (by eapply write_variant_ok).
  rewrite (try_finally_state _ _ _ _ clean_up_deletes).
  match goal with |- context [try_except_called_process_error ?b ?h ?s] =>
    assert (∃ fs', try_except_called_process_error b h s =
                   (parse_output stdout, OsState fs' (4 + clock st)%nat))
      as [fs' ->]
  end; [|done].
  unfold try_except_called_process_error, build_run_parse.
  match goal with |- context [(subprocess_run env true ?a0 ≫= λ _,
                               subprocess_run env true ?a1 ≫= λ _,
                               subprocess_run env true ?a2 ≫= λ _, ?rest) ?s] =>
    destruct (three_checked_steps env a0 a1 a2 rest s Hl)
      as [(fs & -> & _)|(fs & k & _ & _ & Hnz)]
  end; [|by destruct Hnz].
  cbn [clock]. rewrite bind_eq. unfold subprocess_run. cbn [clock files].
  specialize (Hrun ["./main_temp.elf"; "-t"; pretty AMT_TRIALS] fs).
  destruct (env (3 + clock st)%nat _ fs) as [o fs'] eqn:He.
  cbn [fst] in Hrun. subst o. cbn [andb]. unfold lift_result.
  exists fs'.
  destruct (parse_output stdout) as [m|e] eqn:Hp; [done|].
  apply parse_output_raises in Hp. by destruct e.
Qed.

End successful_build.

(** ** The selection over the measured grid *)

Section measured_selection.
Context `{PyFloat}.

(** X16. On such a file the selector returns the running maximum over
    the values read back, in row-major order, starting from (0, 0, 0). *)
Theorem selection_over_the_measured_grid
    (gate : string) (grid : list (Z * list (gmap string float))) :
  gate ∈ GATE_NAMES →
  fits_grid gate grid →
  select_best (matrix_text gate grid) =
  Ok (foldl better (BestConfig 0 0 float_zero)
        (cells (row_read_back gate <$> grid))).
Proof.
  intros Hg Hfit. unfold select_best.
  rewrite select_lines_parse_rows.
  pose proof (matrix_of_matrix_text gate grid Hg Hfit) as Hm.
  unfold matrix_of in Hm. by rewrite Hm.
Qed.

End measured_selection.

(** ** The properties above on concrete runs *)

Lemma idle_launches run : (∀ n, run n ≠ NotLaunched) → launches (Demo.idle run).
Proof. intros Hrun n argv fs. apply Hrun. Defined.

Lemma idle_keeps run path : keeps (Demo.idle run) path.
Proof. intros n argv fs. reflexivity. Defined.

Lemma idle_exits_zero run n stdout :
  run n = Exited 0 stdout → exits_zero (Demo.idle run) n.
Proof. intros Hrun argv fs. exists stdout. exact Hrun. Defined.

Lemma idle_exits_nonzero run n status stdout :
  run n = Exited status stdout → status ≠ 0 → exits_nonzero (Demo.idle run) n.
Proof. intros Hrun Hne argv fs. by exists status, stdout. Defined.

Lemma test_parameters_touches_only_its_temporaries_witness :
  let env := Demo.idle (λ _, Exited 0 EmptyString) in
  ("main.cpp" ∉ ["main_temp.cpp"; "main_temp.elf"; "gates/compose_temp.cpp"]) ∧
  keeps env "main.cpp" ∧
  files (test_parameters (H := Dec.py_float) env 150 512 Demo.start).2
    !! "main.cpp" = files Demo.start !! "main.cpp".
Proof.
  cbv zeta.
  assert (Hout : "main.cpp" ∉
            ["main_temp.cpp"; "main_temp.elf"; "gates/compose_temp.cpp"]).
  { intros Hin. repeat (apply elem_of_cons in Hin as [Hin|Hin]; [done|]).
    by apply elem_of_nil in Hin. }
  split; [exact Hout|]. split; [apply idle_keeps|].
  apply (test_parameters_touches_only_its_temporaries (H := Dec.py_float));
    [exact Hout|apply idle_keeps].
Defined.

Lemma create_optimized_binary_touches_only_its_temporaries_witness :
  let env := Demo.idle (λ _, Exited 0 EmptyString) in
  ("main.cpp" ∉ [temp_main_file "NOT"; temp_compose_file "NOT"]) ∧
  keeps env "main.cpp" ∧
  files (create_optimized_binary env "NOT" 150 512 Demo.start).2 !! "main.cpp"
  = files Demo.start !! "main.cpp".
Proof.
  cbv zeta.
  assert (Hout : "main.cpp" ∉ [temp_main_file "NOT"; temp_compose_file "NOT"]).
  { intros Hin. repeat (apply elem_of_cons in Hin as [Hin|Hin]; [done|]).
    by apply elem_of_nil in Hin. }
  split; [exact Hout|]. split; [apply idle_keeps|].
  apply create_optimized_binary_touches_only_its_temporaries;
    [exact Hout|apply idle_keeps].
Defined.

Lemma failed_build_step_yields_the_empty_mapping_witness :
  let env := Demo.idle (λ _, Exited 1 EmptyString) in
  launches env ∧
  files Demo.start !! "gates/compose.cpp" = Some Demo.compose_cpp ∧
  files Demo.start !! "main.cpp" = Some Demo.main_cpp ∧
  (∃ k, (k < 3)%nat ∧ exits_nonzero env (k + clock Demo.start)) ∧
  (test_parameters (H := Dec.py_float) env 150 512 Demo.start).1 = Ok ∅ ∧
  (clock (test_parameters (H := Dec.py_float) env 150 512 Demo.start).2
   ≤ clock Demo.start + 3)%nat.
Proof.
  cbv zeta.
  assert (Hl : launches (Demo.idle (λ _, Exited 1 EmptyString))).
  { by apply idle_launches. }
  assert (Hk : ∃ k, (k < 3)%nat ∧
            exits_nonzero (Demo.idle (λ _, Exited 1 EmptyString))
              (k + clock Demo.start)).
  { exists 0%nat. split; [lia|]. by eapply idle_exits_nonzero. }
  split; [exact Hl|]. split; [reflexivity|]. split; [reflexivity|].
  split; [exact Hk|].
  apply (failed_build_step_yields_the_empty_mapping (H := Dec.py_float)
           _ 150 512 Demo.start Demo.compose_cpp Demo.main_cpp Hl);
    [reflexivity|reflexivity|exact Hk].
Defined.

Lemma create_optimized_binary_returns_a_boolean_witness :
  let env := Demo.idle (λ _, Exited 0 EmptyString) in
  launches env ∧
  files Demo.start !! "gates/compose.cpp" = Some Demo.compose_cpp ∧
  files Demo.start !! "main.cpp" = Some Demo.main_cpp ∧
  is_Some (GATE_FUNCTIONS !! "NOT") ∧
  ∃ success,
    (create_optimized_binary env "NOT" 150 512 Demo.start).1 = Ok success ∧
    ((∀ k, (k < 3)%nat → exits_zero env (k + clock Demo.start)) →
     success = true) ∧
    ((∃ k, (k < 3)%nat ∧ exits_nonzero env (k + clock Demo.start)) →
     success = false).
Proof.
  cbv zeta.
  assert (Hl : launches (Demo.idle (λ _, Exited 0 EmptyString))).
  { by apply idle_launches. }
  split; [exact Hl|]. split; [reflexivity|]. split; [reflexivity|].
  split; [by eexists|].
  apply (create_optimized_binary_returns_a_boolean _ "NOT" 150 512 Demo.start
           Demo.compose_cpp Demo.main_cpp Hl);
    [reflexivity|reflexivity|by eexists].
Defined.

Lemma every_configured_binary_is_attempted_witness :
  let env := Demo.idle (λ _, Exited 0 EmptyString) in
  launches env ∧
  keeps env "gates/compose.cpp" ∧ keeps env "main.cpp" ∧
  files Demo.start !! "gates/compose.cpp" = Some Demo.compose_cpp ∧
  files Demo.start !! "main.cpp" = Some Demo.main_cpp ∧
  ∃ successful_builds st',
    Binaries.main_builds env Demo.start = (Ok (successful_builds, 7%nat), st') ∧
    (successful_builds ≤ 7)%nat ∧
    (clock Demo.start + 7 ≤ clock st')%nat ∧
    ((∀ n, exits_zero env n) → successful_builds = 7%nat) ∧
    ((∀ n, exits_nonzero env n) → successful_builds = 0%nat).
Proof.
  cbv zeta.
  assert (Hl : launches (Demo.idle (λ _, Exited 0 EmptyString))).
  { by apply idle_launches. }
  split; [exact Hl|]. split; [apply idle_keeps|]. split; [apply idle_keeps|].
  split; [reflexivity|]. split; [reflexivity|].
  apply (every_configured_binary_is_attempted _ Demo.start
           Demo.compose_cpp Demo.main_cpp Hl);
    [apply idle_keeps|apply idle_keeps|reflexivity|reflexivity].
Defined.

Lemma successful_build_returns_what_the_parser_reads_witness :
  let env := Demo.idle Demo.crashing_run in
  let report := Demo.report "AND" "50.0" in
  launches env ∧
  files Demo.start !! "gates/compose.cpp" = Some Demo.compose_cpp ∧
  files Demo.start !! "main.cpp" = Some Demo.main_cpp ∧
  (∀ k, (k < 3)%nat → exits_zero env (k + clock Demo.start)) ∧
  (∀ argv fs, (env (3 + clock Demo.start)%nat argv fs).1 = Exited 1 report) ∧
  (test_parameters (H := Dec.py_float) env 150 512 Demo.start).1
    = parse_output report ∧
  clock (test_parameters (H := Dec.py_float) env 150 512 Demo.start).2
    = (4 + clock Demo.start)%nat.
Proof.
  cbv zeta.
  assert (Hl : launches (Demo.idle Demo.crashing_run)).
  { apply idle_launches. intros n. unfold Demo.crashing_run.
    by destruct (n <? 3)%nat. }
  assert (Hz : ∀ k, (k < 3)%nat →
            exits_zero (Demo.idle Demo.crashing_run) (k + clock Demo.start)).
  { intros k Hk. apply (idle_exits_zero _ _ EmptyString).
    destruct k as [|[|[|k]]]; [reflexivity..|lia]. }
  split; [exact Hl|]. split; [reflexivity|]. split; [reflexivity|].
  split; [exact Hz|]. split; [reflexivity|].
  apply (successful_build_returns_what_the_parser_reads (H := Dec.py_float)
           _ 150 512 Demo.start Demo.compose_cpp Demo.main_cpp 1
           (Demo.report "AND" "50.0") Hl);
    [reflexivity|reflexivity|exact Hz|reflexivity].
Defined.

Lemma capture_without_marker_gives_the_empty_mapping_witness :
  let stdout := "Segmentation fault" +:+ Str.nl in
  Forall (λ line, Str.contains marker line = false) (Str.splitlines stdout) ∧
  parse_output (H := Dec.py_float) stdout = Ok ∅.
Proof.
  cbv zeta.
  assert (Hlines : Forall (λ line, Str.contains marker line = false)
                     (Str.splitlines ("Segmentation fault" +:+ Str.nl))).
  { repeat constructor. }
  split; [exact Hlines|].
  exact (capture_without_marker_gives_the_empty_mapping (H := Dec.py_float)
           _ Hlines).
Defined.

Lemma recorded_accuracies_come_from_marker_lines_witness :
  let stdout := Demo.report "AND" "87.3" in
  let m : gmap string Dec.t := {[ "AND" := Dec.mk 873 1 ]} in
  parse_output (H := Dec.py_float) stdout = Ok m ∧
  m !! "AND" = Some (Dec.mk 873 1) ∧
  "AND" ∈ GATE_NAMES ∧
  ∃ line, line ∈ Str.splitlines stdout ∧
          Str.contains marker line = true ∧
          line_accuracy (H := Dec.py_float) line = Ok (Dec.mk 873 1).
Proof.
  cbv zeta. split; [vm_compute; reflexivity|]. split; [reflexivity|].
  apply (recorded_accuracies_come_from_marker_lines (H := Dec.py_float)
           (Demo.report "AND" "87.3") {[ "AND" := Dec.mk 873 1 ]});
    [vm_compute; reflexivity|reflexivity].
Defined.

Lemma distinct_lines_are_read_with_their_predecessor_witness :
  let header := "=== AND gate ===" in
  let line := "Correct rate: (avg, std) (87.3%, 0.0%)" in
  let lines := [header; line] in
  NoDup lines ∧ lines !! 0%nat = Some header ∧ lines !! 1%nat = Some line ∧
  prev_line lines line = Ok header ∧
  parse_line (H := Dec.py_float) lines line ∅ =
    if Str.contains marker line
    then record_gate GATE_NAMES header line ∅
    else Ok ∅.
Proof.
  cbv zeta.
  assert (Hnd : NoDup ["=== AND gate ===";
                       "Correct rate: (avg, std) (87.3%, 0.0%)"]).
  { apply (bool_decide_unpack _). by vm_compute. }
  split; [exact Hnd|]. split; [reflexivity|]. split; [reflexivity|].
  apply (distinct_lines_are_read_with_their_predecessor (H := Dec.py_float)
           _ 0%nat _ _ ∅ Hnd); reflexivity.
Defined.


Lemma measured_fits : fits_grid (H := Dec.py_float) "AND" Demo.measured_rows.
Proof.
  repeat constructor; apply (bool_decide_unpack _); by vm_compute.
Defined.

Lemma written_matrix_reads_back_witness :
  ("AND" ∈ GATE_NAMES) ∧
  fits_grid (H := Dec.py_float) "AND" Demo.measured_rows ∧
  matrix_of (H := Dec.py_float) (matrix_text "AND" Demo.measured_rows) =
  Ok (row_read_back "AND" <$> Demo.measured_rows).
Proof.
  assert (Hg : "AND" ∈ GATE_NAMES) by (by left).
  split; [exact Hg|]. split; [exact measured_fits|].
  exact (written_matrix_reads_back (H := Dec.py_float) "AND" Demo.measured_rows
           Hg measured_fits).
Defined.

Lemma selection_over_the_measured_grid_witness :
  ("AND" ∈ GATE_NAMES) ∧
  fits_grid (H := Dec.py_float) "AND" Demo.measured_rows ∧
  select_best (H := Dec.py_float) (matrix_text "AND" Demo.measured_rows) =
  Ok (foldl better (BestConfig 0 0 float_zero)
        (cells (row_read_back "AND" <$> Demo.measured_rows))).
Proof.
  assert (Hg : "AND" ∈ GATE_NAMES) by (by left).
  split; [exact Hg|]. split; [exact measured_fits|].
  exact (selection_over_the_measured_grid (H := Dec.py_float) "AND" Demo.measured_rows
           Hg measured_fits).
Defined.

Example measured_grid_selection :
  select_best (H := Dec.py_float) (matrix_text "AND" Demo.measured_rows) =
  Ok (BestConfig 100 48 (Dec.mk 873 1)).
Proof. vm_compute. reflexivity. Qed.


Lemma main_reports_what_it_selects_from_its_files_witness :
  let env := Demo.commands (λ _, 0)
               (λ _, Exited 0 (Demo.report "AND" "87.3")) in
  let st := SweepState Demo.start ∅ in
  let best_configs :=
    ("AND", BestConfig 100 32 (Dec.mk 873 1)) ::
    ((λ gate, (gate, BestConfig 0 0 (Dec.mk 0 0))) <$> tail GATE_NAMES) in
  let st' := (main (H := Dec.py_float) env st).2 in
  main (H := Dec.py_float) env st = (Ok best_configs, st') ∧
  ∃ grid o,
    measure_grid env (os st) = (Ok grid, o) ∧
    os st' = OsState (<["output.txt" := summary best_configs]> (files o))
               (clock o) ∧
    best_configs.*1 = GATE_NAMES ∧
    Forall (λ '(gate, best),
              result_files st' !! results_path gate
                = Some (matrix_text gate grid) ∧
              select_best (matrix_text gate grid) = Ok best) best_configs.
Proof.
  cbv zeta.
  match goal with |- ?run ∧ _ => assert (Hrun : run) end.
  { vm_compute. reflexivity. }
  split; [exact Hrun|].
  exact (main_reports_what_it_selects_from_its_files (H := Dec.py_float)
           _ _ _ _ Hrun).
Defined.

Lemma wide_value_runs_into_the_next_cell_witness :
  let wide : gmap string Dec.t := {[ "AND" := Dec.mk 1234567890 0 ]} in
  let next : gmap string Dec.t := {[ "AND" := Dec.mk 873 1 ]} in
  all_chars (λ c, negb (Str.is_space c))
    (cell_text (H := Dec.py_float) wide "AND") = true ∧
  (10 ≤ String.length (cell_text (H := Dec.py_float) wide "AND"))%nat ∧
  fits_cell (cell_text (H := Dec.py_float) next "AND") = true ∧
  cell wide "AND" = cell_text wide "AND" ∧
  Str.split (cell wide "AND" +:+ cell next "AND" +:+ Str.nl) =
  (cell_text wide "AND" +:+ cell_text next "AND") :: Str.split Str.nl.
Proof.
  cbv zeta.
  assert (Hlen : (10 ≤ String.length
                         (cell_text (H := Dec.py_float)
                            {[ "AND" := Dec.mk 1234567890 0 ]} "AND"))%nat).
  { vm_compute. lia. }
  split; [reflexivity|]. split; [exact Hlen|]. split; [reflexivity|].
  apply (wide_value_runs_into_the_next_cell (H := Dec.py_float));
    [reflexivity|exact Hlen|reflexivity].
Defined.

Example wide_value_in_a_row :
  let row := (100, [{[ "AND" := Dec.mk 1234567890 0 ]};
                    {[ "AND" := Dec.mk 873 1 ]}]) in
  Str.split (Str.strip (row_text (H := Dec.py_float) "AND" row))
  = ["100"; "1234567890.087.3"].
Proof. vm_compute. reflexivity. Qed.

Lemma template_without_directives_is_copied_witness :
  let content := "int main() { return 0; }" +:+ Str.nl in
  Re.findall threshold_re content = [] ∧
  Re.findall delay_re content = [] ∧
  set_parameters 150 512 content = content.
Proof.
  cbv zeta. split; [reflexivity|]. split; [reflexivity|].
  apply template_without_directives_is_copied; reflexivity.
Defined.

Lemma parameters_are_set_in_either_order_witness :
  0 <= 150 ∧ 0 <= 512 ∧
  set_parameters 150 512 Demo.main_cpp =
  Re.sub threshold_re (threshold_directive 150)
    (Re.sub delay_re (delay_directive 512) Demo.main_cpp).
Proof.
  split; [lia|]. split; [lia|].
  apply parameters_are_set_in_either_order; lia.
Defined.

Lemma last_parameters_win_witness :
  0 <= 100 ∧ 0 <= 32 ∧ 0 <= 150 ∧ 0 <= 512 ∧
  set_parameters 150 512 (set_parameters 100 32 Demo.main_cpp)
  = set_parameters 150 512 Demo.main_cpp.
Proof.
  split; [lia|]. split; [lia|]. split; [lia|]. split; [lia|].
  apply last_parameters_win; lia.
Defined.

Lemma every_directive_is_rewritten_witness :
  0 <= 150 ∧ 0 <= 512 ∧
  let compose := set_parameters 150 512 Demo.compose_cpp in
  let main := Re.sub include_re temp_include
                (set_parameters 150 512 Demo.main_cpp) in
  Re.findall threshold_re compose
    = (λ _, threshold_directive 150)
        <$> Re.findall threshold_re Demo.compose_cpp ∧
  Re.findall delay_re compose
    = (λ _, delay_directive 512) <$> Re.findall delay_re Demo.compose_cpp ∧
  Re.findall threshold_re main
    = (λ _, threshold_directive 150)
        <$> Re.findall threshold_re Demo.main_cpp ∧
  Re.findall delay_re main
    = (λ _, delay_directive 512) <$> Re.findall delay_re Demo.main_cpp.
Proof.
  split; [lia|]. split; [lia|].
  apply every_directive_is_rewritten; lia.
Defined.
